(** * tefla: GAN metrics and test-time prediction

    A shallow embedding of [tefla/core/gan_metrics.py] and
    [tefla/core/prediction.py].

    Conventions of the embedding.
    - Floating-point values are idealised as real numbers ([R]) and their
      arithmetic is exact; a tensor keeps its dtype as a tag. The casts of
      [gan_metrics.py] ([tf.to_float], [tf.to_double], [tf.cast]) change
      the tag and leave the values alone; the conversion to float32 of
      [prediction.py] ([np.array(..., dtype=np.float32)]) goes through
      numpy's value conversion, an argument [round_to] of the model.
    - In [prediction.py], where [np.log] is taken of values that may be 0
      or negative, the results are values that need not be finite
      ([-inf], [nan]); the predictions of the members are finite.
    - A tensor (or numpy array) is a dtype, a shape and its elements in
      row-major order.
    - A Python exception is a value [Err e] of the error monad [result].
    - Operations of the tensor engine that the repository only calls
      (singular value decomposition, bilinear resizing, running a frozen
      graph) are arguments of the functions that call them ([svd],
      [resize_bilinear], [classifier_fn]); what is assumed about them is
      stated as an explicit contract ([svd_spec], [resizes_bilinearly])
      where a theorem needs it. *)

From Stdlib Require Import Reals Lra Lia ZArith Bool Arith PeanoNat String List.
From Stdlib Require Import Setoid Morphisms FunctionalExtensionality.
Import ListNotations.

Set Implicit Arguments.
Open Scope R_scope.

(* ================================================================== *)
(** * Part I. Definitions *)
(* ================================================================== *)

(** ** Errors *)

(** The exceptions the modelled code raises, named after the failing check.
    In Python all but [KeyError] are [ValueError]s (raised by the code
    itself, by [TensorShape.assert_has_rank]/[with_rank], by [tf.split],
    [tf.stack] and by broadcasting); [KeyError] is the dictionary lookup of
    [_ensemble]. *)
Inductive error : Type :=
| NotFloating (pos : nat)          (* 'Input %s must be floating type.' *)
| DtypeMismatch                    (* operands of different dtypes *)
| RankMismatch (expected actual : nat)
| ShapeMismatch                    (* incompatible or unequal shapes *)
| NotDivisible (size pieces : nat) (* tf.split into uneven pieces *)
| MissingGraphDef                  (* neither graph_def nor provider *)
| KeyError (key : string).         (* {...}[en_type] *)

(** Modelled from the spec: the error taxonomy of section 7 (ShapeError,
    TypeError-equivalent, ConfigurationError); the source has no such
    classes, it raises [ValueError] and [KeyError]. *)
Inductive category : Type := ShapeError | TypeErrorEquivalent | ConfigurationError.

Definition error_category (e : error) : category :=
  match e with
  | NotFloating _ | DtypeMismatch => TypeErrorEquivalent
  | RankMismatch _ _ | ShapeMismatch | NotDivisible _ _ => ShapeError
  | MissingGraphDef | KeyError _ => ConfigurationError
  end.

Inductive result (A : Type) : Type :=
| Ok (a : A)
| Err (e : error).
Arguments Ok {A} a.
Arguments Err {A} e.

Definition bind {A B : Type} (r : result A) (k : A -> result B) : result B :=
  match r with
  | Ok a => k a
  | Err e => Err e
  end.

Notation "x <- c ;; k" := (bind c (fun x => k))
  (at level 61, c at next level, right associativity).
Notation "c ;;; k" := (bind c (fun _ => k))
  (at level 61, right associativity).

Fixpoint mapM {A B : Type} (f : A -> result B) (l : list A) : result (list B) :=
  match l with
  | [] => Ok []
  | a :: l' => b <- f a ;; bs <- mapM f l' ;; Ok (b :: bs)
  end.

(** ** Dtypes *)

Inductive dtype : Type := uint8 | int32 | float32 | float64.

Definition dtype_eqb (a b : dtype) : bool :=
  match a, b with
  | uint8, uint8 | int32, int32 | float32, float32 | float64, float64 => true
  | _, _ => false
  end.

Definition is_floating (d : dtype) : bool :=
  match d with
  | float32 | float64 => true
  | _ => false
  end.

(** ** Lists of numbers *)

Fixpoint rsum (l : list R) : R :=
  match l with
  | [] => 0
  | x :: l' => x + rsum l'
  end.

Definition prod_shape (s : list nat) : nat := fold_right Nat.mul 1%nat s.

(** [chunks size count l]: the first [count] consecutive pieces of [l], each
    of [size] elements. *)
Fixpoint chunks {A : Type} (size count : nat) (l : list A) : list (list A) :=
  match count with
  | O => []
  | S c => firstn size l :: chunks size c (skipn size l)
  end.

Definition list_eqb_nat (a b : list nat) : bool :=
  if list_eq_dec Nat.eq_dec a b then true else false.

(** ** Tensors and arrays *)

Record tensor : Type := mkTensor {
  t_dtype : dtype;
  t_shape : list nat;
  t_data : list R
}.

Definition rank (t : tensor) : nat := length (t_shape t).

(** A tensor is well formed when it has one element per index. *)
Definition wf (t : tensor) : Prop := length (t_data t) = prod_shape (t_shape t).

Definition same_shape (a b : tensor) : bool :=
  list_eqb_nat (t_shape a) (t_shape b) && dtype_eqb (t_dtype a) (t_dtype b).

(** Elementwise map, and a change of dtype tag (a cast). *)
Definition tmap (f : R -> R) (t : tensor) : tensor :=
  mkTensor (t_dtype t) (t_shape t) (map f (t_data t)).

Definition cast (d : dtype) (t : tensor) : tensor :=
  mkTensor d (t_shape t) (t_data t).

(** The slices of a tensor along its first axis ([tf.unstack], and the rows
    numpy reduces over with [axis=0]). *)
Definition slice_shape (t : tensor) : list nat := tl (t_shape t).
Definition dim0 (t : tensor) : nat := hd 0%nat (t_shape t).

Definition slices (t : tensor) : list (list R) :=
  chunks (prod_shape (slice_shape t)) (dim0 t) (t_data t).

(** Column sums of the slices: the reduction over axis 0. *)
Definition column (j : nat) (rows : list (list R)) : list R :=
  map (fun r => nth j r 0) rows.

Definition mean (l : list R) : R := rsum l / INR (length l).

(* ================================================================== *)
(** ** prediction.py *)
(* ================================================================== *)

Module prediction.

(** *** Values that are not finite *)

(** The arithmetic of this file is that of the reals, but numpy evaluates
    [log] where the real logarithm has no value: [np.log] gives [-inf] at 0
    and [nan] below 0, without raising, and both spread through sums,
    means and [np.exp]. The members' predictions are taken to be finite;
    what is computed from them is a finite value, [-inf] or [nan] ([+inf]
    does not arise from finite values in the operations below). *)
Inductive xfloat : Type :=
| Finite (v : R)
| NegInf
| NaN.

(** A numpy array whose elements need not be finite. *)
Record array : Type := mkArray {
  a_dtype : dtype;
  a_shape : list nat;
  a_data : list xfloat
}.

Definition of_tensor (t : tensor) : array :=
  mkArray (t_dtype t) (t_shape t) (map Finite (t_data t)).

(** [log v] for a finite [v]. *)
Definition xlog (v : R) : xfloat :=
  if Rlt_dec 0 v then Finite (ln v)
  else if Req_EM_T v 0 then NegInf
  else NaN.

(** [exp], with [exp(-inf) = 0]. *)
Definition xexp (a : xfloat) : xfloat :=
  match a with
  | Finite v => Finite (exp v)
  | NegInf => Finite 0
  | NaN => NaN
  end.

(** Addition: [nan] absorbs everything, [-inf] everything else. *)
Definition xadd (a b : xfloat) : xfloat :=
  match a, b with
  | NaN, _ | _, NaN => NaN
  | NegInf, _ | _, NegInf => NegInf
  | Finite u, Finite v => Finite (u + v)
  end.

Definition xsum (l : list xfloat) : xfloat := fold_right xadd (Finite 0) l.

(** The mean of [np.mean]: the sum divided by the count; over no element
    at all it is [0/0], which is [nan]. *)
Definition xmean (l : list xfloat) : xfloat :=
  match l with
  | [] => NaN
  | _ :: _ =>
      match xsum l with
      | Finite s => Finite (s / INR (length l))
      | NegInf => NegInf
      | NaN => NaN
      end
  end.

(** *** numpy *)

(** numpy's result dtype of [np.mean], [np.log] and [np.exp]: a floating
    input keeps its dtype, an integer input gives float64. *)
Definition float_result (d : dtype) : dtype :=
  if is_floating d then d else float64.

(** The common dtype numpy gives arrays of different dtypes
    ([np.promote_types]); converting to it changes no value. *)
Definition promote_types (a b : dtype) : dtype :=
  match a, b with
  | uint8, d | d, uint8 => d
  | int32, int32 => int32
  | float32, float32 => float32
  | _, _ => float64
  end.

Definition result_type (ds : list dtype) : dtype :=
  match ds with
  | [] => float64
  | d :: rest => fold_left promote_types rest d
  end.

(** The slices of an array along its first axis, and the reduction
    [np.mean(x, axis=0)] over them. *)
Definition a_slices (x : array) : list (list xfloat) :=
  chunks (prod_shape (tl (a_shape x))) (hd 0%nat (a_shape x)) (a_data x).

Definition xcolumn (j : nat) (rows : list (list xfloat)) : list xfloat :=
  map (fun r => nth j r NaN) rows.

Definition np_mean0 (x : array) : array :=
  mkArray (float_result (a_dtype x)) (tl (a_shape x))
    (map (fun j => xmean (xcolumn j (a_slices x)))
         (seq 0 (prod_shape (tl (a_shape x))))).

(** [np.log(x)] of finite values, and [np.exp(x)]. *)
Definition np_log (x : tensor) : array :=
  mkArray (float_result (t_dtype x)) (t_shape x) (map xlog (t_data x)).

Definition np_exp (x : array) : array :=
  mkArray (float_result (a_dtype x)) (a_shape x) (map xexp (a_data x)).

(** [scipy.stats.mstats.gmean(x, axis=0)], which scipy computes as
    [exp(mean(log(x), axis=0))]. *)
Definition gmean (x : tensor) : array := np_exp (np_mean0 (np_log x)).

(** [x + (x == 0)]: the boolean mask counts as 1 where [x] is zero; adding a
    boolean array does not change the dtype of a numeric array. *)
Definition zero_guard (v : R) : R := v + (if Req_EM_T v 0 then 1 else 0).

Definition add_eq0_mask (x : tensor) : tensor := tmap zero_guard x.

(** A dictionary literal with string keys, in source order, and [d[key]]. *)
Fixpoint dict_getitem {V : Type} (d : list (string * V)) (key : string) : result V :=
  match d with
  | [] => Err (KeyError key)
  | (k, v) :: d' => if String.eqb k key then Ok v else dict_getitem d' key
  end.

(** [_ensemble]: the dictionary holds all three combinations, none of
    which raises, and is then indexed by [en_type]. *)
Definition _ensemble (en_type : string) (x : tensor) : result array :=
  dict_getitem
    [ ("mean"%string, np_mean0 (of_tensor x));
      ("gmean"%string, gmean x);
      ("log_mean"%string, np_mean0 (np_log (add_eq0_mask x))) ]
    en_type.

Section Predictors.

(** The inputs [X], and what the data pipeline and the session produce,
    are outside the repository. *)
Variable input : Type.
Variables xform bbox batch : Type.

(** The conversion of a value to a dtype: [round_to float32 v] is the
    float32 that numpy stores for [v]. It is numpy's, and the one place
    where the code changes the precision of its values. *)
Variable round_to : dtype -> R -> R.

(** [x.astype(dt)]: an array of dtype [dt] already is left as it is. *)
Definition astype (dt : dtype) (x : tensor) : tensor :=
  if dtype_eqb (t_dtype x) dt then x
  else mkTensor dt (t_shape x) (map (round_to dt) (t_data x)).

(** [np.array(arrays, dtype=dt)] and [np.array(arrays)]: the arrays
    become the slices of one array along a new first axis; arrays of
    different shapes are refused. With a dtype every array is converted to
    it; without, the result has the common dtype of the arrays. *)
Definition np_array (dt : option dtype) (arrays : list tensor) : result tensor :=
  match arrays with
  | [] => Ok (mkTensor (match dt with Some d => d | None => float64 end) [0%nat] [])
  | a :: rest =>
      if forallb (fun b => list_eqb_nat (t_shape a) (t_shape b)) rest
      then
        Ok (match dt with
            | Some d =>
                mkTensor d (length arrays :: t_shape a)
                  (concat (map (fun b => t_data (astype d b)) arrays))
            | None =>
                mkTensor (result_type (map t_dtype arrays))
                  (length arrays :: t_shape a) (concat (map t_data arrays))
            end)
      else Err ShapeMismatch
  end.

(** A member of an ensemble: anything with a [predict] method. *)
Definition predictor : Type := input -> result tensor.

(** [EnsemblePredictor.predict]. *)
Definition EnsemblePredictor_predict
    (predictors : list predictor) (X : input) (ensemble_type : string)
    : result array :=
  multiple_predictions <- mapM (fun p => p X) predictors ;;
  multiple_predictions <- np_array (Some float32) multiple_predictions ;;
  _ensemble ensemble_type multiple_predictions.

(** [OneCropPredictor]: the prediction iterator yields the batches of [X]
    under a transform and a crop box, the session runs the network on
    each, [np.vstack] joins the outputs along the first axis. *)
Record OneCropPredictor : Type := {
  prediction_iterator : input -> option xform -> option bbox -> list batch;
  sess_run : batch -> result tensor
}.

(** [np.atleast_2d]: a scalar becomes 1 by 1, a vector one row. *)
Definition atleast_2d (a : tensor) : tensor :=
  match t_shape a with
  | [] => mkTensor (t_dtype a) [1%nat; 1%nat] (t_data a)
  | [n] => mkTensor (t_dtype a) [1%nat; n] (t_data a)
  | _ => a
  end.

(** [np.vstack]: the arrays, made at least 2-D, joined along the first
    axis; their other dimensions must agree. *)
Definition np_vstack (arrays : list tensor) : result tensor :=
  match map atleast_2d arrays with
  | [] => Err ShapeMismatch
  | a :: rest =>
      if forallb (fun b => list_eqb_nat (slice_shape a) (slice_shape b)) rest
      then Ok (mkTensor (result_type (map t_dtype arrays))
                 (fold_right Nat.add 0%nat (map dim0 (a :: rest)) :: slice_shape a)
                 (concat (map t_data arrays)))
      else Err ShapeMismatch
  end.

Definition OneCropPredictor_real_predict
    (self : OneCropPredictor) (X : input)
    (xf : option xform) (crop_bbox : option bbox) : result tensor :=
  data_predictions <-
    mapM (sess_run self) (prediction_iterator self X xf crop_bbox) ;;
  np_vstack data_predictions.

(** What a Python function returns: an array, or [None] when the body
    ends without a [return]. *)
Inductive pyvalue : Type :=
| PyNone
| PyArray (a : array).

Record CropPredictor : Type := {
  number_of_crops : Z;
  crop_size : nat;
  im_size : nat;
  get_bbox_10crop : nat -> nat -> list bbox;   (* util.get_bbox_10crop *)
  crop_predictor : OneCropPredictor
}.

(** [np.mean(list_of_arrays, axis=0)]: numpy first makes one array of the
    list. *)
Definition np_mean0_list (arrays : list tensor) : result array :=
  stacked <- np_array None arrays ;;
  Ok (np_mean0 (of_tensor stacked)).

(** [CropPredictor._real_predict]. *)
Definition CropPredictor_real_predict (self : CropPredictor) (X : input)
    : result pyvalue :=
  if (number_of_crops self >? 1)%Z then
    let bboxs := get_bbox_10crop self (crop_size self) (im_size self) in
    multiple_predictions <-
      mapM (fun b => OneCropPredictor_real_predict (crop_predictor self) X None (Some b))
           bboxs ;;
    m <- np_mean0_list multiple_predictions ;;
    Ok (PyArray m)
  else if (number_of_crops self =? 1)%Z then
    predictions <- OneCropPredictor_real_predict (crop_predictor self) X None None ;;
    Ok (PyArray (of_tensor predictions))
  else Ok PyNone.

End Predictors.

End prediction.

(* ================================================================== *)
(** ** Vectors and matrices as index functions *)
(* ================================================================== *)

(** Linear algebra is done on index functions with explicit dimensions: a
    vector of length [n] is read at [j < n], an [n] by [m] matrix at
    [i < n], [j < m]. *)
Definition vec : Type := nat -> R.
Definition mat : Type := nat -> nat -> R.

Fixpoint sum_n (n : nat) (f : nat -> R) : R :=
  match n with
  | O => 0
  | S k => sum_n k f + f k
  end.

Definition matmul (n : nat) (A B : mat) : mat :=
  fun i j => sum_n n (fun k => A i k * B k j).

Definition transpose (A : mat) : mat := fun i j => A j i.

Definition diag (s : vec) : mat := fun i j => if (i =? j)%nat then s i else 0.

Definition identity : mat := diag (fun _ => 1).

Definition madd (A B : mat) : mat := fun i j => A i j + B i j.

Definition vsub (a b : vec) : vec := fun j => a j - b j.

Definition tf_trace (n : nat) (A : mat) : R := sum_n n (fun i => A i i).

(** [tf.norm(v)]: the L2 norm. *)
Definition tf_norm (n : nat) (v : vec) : R := sqrt (sum_n n (fun j => v j * v j)).

(** Reading a rank-1 or rank-2 tensor by index, and building one. *)
Definition dim1 (t : tensor) : nat := nth 1 (t_shape t) 0%nat.

Definition entry1 (t : tensor) : vec := fun j => nth j (t_data t) 0.

Definition entry2 (t : tensor) : mat :=
  fun i j => nth (i * dim1 t + j)%nat (t_data t) 0.

Definition tabulate1 (d : dtype) (n : nat) (f : vec) : tensor :=
  mkTensor d [n] (map f (seq 0 n)).

Definition tabulate2 (d : dtype) (n m : nat) (f : mat) : tensor :=
  mkTensor d [n; m] (flat_map (fun i => map (f i) (seq 0 m)) (seq 0 n)).

(** Truncation toward zero, the value of a cast to an integer dtype. *)
Definition trunc (v : R) : R :=
  if Rle_dec 0 v then IZR (Int_part v) else - IZR (Int_part (- v)).

(** [tf.cast], [tf.to_float], [tf.to_double]. *)
Definition tf_cast (d : dtype) (t : tensor) : tensor :=
  mkTensor d (t_shape t)
    (if is_floating d then t_data t else map trunc (t_data t)).

(* ================================================================== *)
(** ** gan_metrics.py *)
(* ================================================================== *)

Module gan_metrics.

Definition INCEPTION_INPUT : string := "Mul:0".
Definition INCEPTION_OUTPUT : string := "logits:0".
Definition INCEPTION_FINAL_POOL : string := "pool_3:0".
Definition INCEPTION_DEFAULT_IMAGE_SIZE : nat := 299.

(** The default [eps=1e-10] of [_symmetric_matrix_square_root]. *)
Definition default_eps : R := / 10 ^ 10.

(** *** Shape checks and structural tensor operations *)

Definition assert_has_rank (t : tensor) (r : nat) : result unit :=
  if (rank t =? r)%nat then Ok tt else Err (RankMismatch r (rank t)).

(** [tf.split(t, num_or_size_splits=num)] along axis 0: [num] equal pieces,
    refused when the first dimension is not a multiple of [num]. *)
Definition tf_split (t : tensor) (num : nat) : result (list tensor) :=
  match t_shape t with
  | [] => Err (RankMismatch 1 0)
  | d0 :: rest =>
      if (num =? 0)%nat then Err (NotDivisible d0 num)
      else if (d0 mod num =? 0)%nat then
        Ok (map (mkTensor (t_dtype t) ((d0 / num)%nat :: rest))
                (chunks (d0 / num * prod_shape rest)%nat num (t_data t)))
      else Err (NotDivisible d0 num)
  end.

(** [tf.split(t, [a, b], 0)]. *)
Definition tf_split_sizes (t : tensor) (a b : nat) : result (tensor * tensor) :=
  if (dim0 t =? a + b)%nat then
    let sz := prod_shape (slice_shape t) in
    Ok (mkTensor (t_dtype t) (a :: slice_shape t) (firstn (a * sz)%nat (t_data t)),
        mkTensor (t_dtype t) (b :: slice_shape t) (skipn (a * sz)%nat (t_data t)))
  else Err ShapeMismatch.

(** [tf.stack(ts)]: the tensors, all of one shape and dtype, become the
    slices of a new tensor along a new first axis. *)
Definition tf_stack (ts : list tensor) : result tensor :=
  match ts with
  | [] => Err ShapeMismatch
  | a :: rest =>
      if forallb (same_shape a) rest
      then Ok (mkTensor (t_dtype a) (length ts :: t_shape a) (concat (map t_data ts)))
      else Err ShapeMismatch
  end.

Definition tf_unstack (t : tensor) : list tensor :=
  map (mkTensor (t_dtype t) (slice_shape t)) (slices t).

(** [tf.concat(ts, 0)]: the tensors agree in dtype and in all dimensions
    but the first. *)
Definition tf_concat0 (ts : list tensor) : result tensor :=
  match ts with
  | [] => Err ShapeMismatch
  | a :: rest =>
      if (rank a =? 0)%nat then Err (RankMismatch 1 0)
      else if forallb (fun b => list_eqb_nat (slice_shape a) (slice_shape b)
                                && negb (rank b =? 0)%nat
                                && dtype_eqb (t_dtype a) (t_dtype b)) rest
      then Ok (mkTensor (t_dtype a)
                 (fold_right Nat.add 0%nat (map dim0 ts) :: slice_shape a)
                 (concat (map t_data ts)))
      else Err ShapeMismatch
  end.

(** [tf.map_fn(fn, elems)] with the default [dtype=None]: [fn] runs on each
    slice of [elems], its outputs must have the dtype of [elems] and one
    common shape, and are stacked. *)
Definition map_fn (fn : tensor -> result tensor) (elems : tensor) : result tensor :=
  outs <- mapM fn (tf_unstack elems) ;;
  if forallb (fun o => dtype_eqb (t_dtype o) (t_dtype elems)) outs
  then tf_stack outs
  else Err DtypeMismatch.

(** A scalar tensor. *)
Definition scalar (d : dtype) (v : R) : tensor := mkTensor d [] [v].

(** *** _validate_images *)

Definition _validate_images (images : tensor) (image_size : nat) : result tensor :=
  if negb (rank images =? 4)%nat then Err (RankMismatch 4 (rank images))
  else if (nth 1 (t_shape images) 0 =? image_size)%nat
          && (nth 2 (t_shape images) 0 =? image_size)%nat
  then Ok images
  else Err ShapeMismatch.

(** *** _symmetric_matrix_square_root *)

Section SquareRoot.

(** [tf.svd] on an [n] by [n] matrix returns [(s, u, v)]. *)
Variable svd : nat -> mat -> vec * mat * mat.

Definition _symmetric_matrix_square_root (n : nat) (m : mat) (eps : R) : mat :=
  let '(s, u, v) := svd n m in
  let si : vec := fun i => if Rlt_dec (s i) eps then s i else sqrt (s i) in
  matmul n (matmul n u (diag si)) (transpose v).

(** *** trace_sqrt_product *)

Definition trace_sqrt_product (n : nat) (sigma sigma_v : mat) : R :=
  let sqrt_sigma := _symmetric_matrix_square_root n sigma default_eps in
  let sqrt_a_sigmav_a := matmul n sqrt_sigma (matmul n sigma_v sqrt_sigma) in
  tf_trace n (_symmetric_matrix_square_root n sqrt_a_sigmav_a default_eps).

End SquareRoot.

(** *** preprocess_image *)

Definition expand_dims0 (t : tensor) : tensor :=
  mkTensor (t_dtype t) (1%nat :: t_shape t) (t_data t).

Definition squeeze0 (t : tensor) : result tensor :=
  match t_shape t with
  | 1%nat :: s => Ok (mkTensor (t_dtype t) s (t_data t))
  | _ => Err ShapeMismatch
  end.

Section Preprocess.

(** [tf.image.resize_bilinear(images, [height, width])]. *)
Variable resize_bilinear : tensor -> nat -> nat -> result tensor.

Definition preprocess_image (images : tensor) (height width : nat) : result tensor :=
  let is_single := (rank images =? 3)%nat in
  let images :=
    if negb (is_floating (t_dtype images)) then tf_cast float32 images else images in
  let images := if is_single then expand_dims0 images else images in
  resized <- resize_bilinear images height width ;;
  let resized := tmap (fun x => (x - 128) / 128) resized in
  if is_single then squeeze0 resized else Ok resized.

End Preprocess.

(** *** Elementwise arithmetic with broadcasting *)

(** Two dimensions broadcast when they are equal or one of them is 1. *)
Definition broadcast_dim (a b : nat) : option nat :=
  if (a =? b)%nat then Some a
  else if (a =? 1)%nat then Some b
  else if (b =? 1)%nat then Some a
  else None.

(** A rank-1 tensor broadcasts as a single row. (Ranks other than 1 and 2
    never reach the arithmetic of this file: the rank checks come first.) *)
Definition as_rows (t : tensor) : option (nat * nat) :=
  match t_shape t with
  | [d] => Some (1%nat, d)
  | [n; d] => Some (n, d)
  | _ => None
  end.

(** The element of [t], of own dimensions [n] by [d], that lands at [(i, j)]
    of the broadcast result: an axis of size 1 is repeated. *)
Definition bget (t : tensor) (n d : nat) : mat :=
  fun i j =>
    nth ((if (n =? 1)%nat then 0 else i) * d + (if (d =? 1)%nat then 0 else j))%nat
        (t_data t) 0.

(** [a op b] for tensors: equal dtypes, broadcast-compatible shapes. *)
Definition tf_binop (op : R -> R -> R) (a b : tensor) : result tensor :=
  if negb (dtype_eqb (t_dtype a) (t_dtype b)) then Err DtypeMismatch
  else
    match as_rows a, as_rows b with
    | Some (n1, d1), Some (n2, d2) =>
        match broadcast_dim n1 n2, broadcast_dim d1 d2 with
        | Some n, Some d =>
            let r := tabulate2 (t_dtype a) n d
                       (fun i j => op (bget a n1 d1 i j) (bget b n2 d2 i j)) in
            Ok (if (rank a =? 1)%nat && (rank b =? 1)%nat
                then mkTensor (t_dtype a) [d] (t_data r)
                else r)
        | _, _ => Err ShapeMismatch
        end
    | _, _ => Err ShapeMismatch
    end.

(** [tf.nn.softmax] and [tf.nn.log_softmax] of a rank-2 tensor, along its
    last axis. *)
Definition softmax (x : tensor) : tensor :=
  tabulate2 (t_dtype x) (dim0 x) (dim1 x)
    (fun i j => exp (entry2 x i j) / sum_n (dim1 x) (fun k => exp (entry2 x i k))).

Definition log_softmax (x : tensor) : tensor :=
  tabulate2 (t_dtype x) (dim0 x) (dim1 x)
    (fun i j => entry2 x i j - ln (sum_n (dim1 x) (fun k => exp (entry2 x i k)))).

Definition tf_log (x : tensor) : tensor := tmap ln x.

(** [tf.reduce_mean(x, axis=0)] and [tf.reduce_sum(x, axis=1)] of a rank-2
    tensor; [tf.reduce_mean(x)] over all elements. *)
Definition reduce_mean_axis0 (x : tensor) : tensor :=
  tabulate1 (t_dtype x) (dim1 x)
    (fun j => sum_n (dim0 x) (fun i => entry2 x i j) / INR (dim0 x)).

Definition reduce_sum_axis1 (x : tensor) : tensor :=
  tabulate1 (t_dtype x) (dim0 x)
    (fun i => sum_n (dim1 x) (fun j => entry2 x i j)).

Definition reduce_mean_all (x : tensor) : R := mean (t_data x).

(** *** _kl_divergence *)

(** The loop [for tensor in [p, p_logits, q]]; [pos] is the position of the
    offending tensor. *)
Fixpoint check_floating (pos : nat) (ts : list tensor) : result unit :=
  match ts with
  | [] => Ok tt
  | t :: rest =>
      if negb (is_floating (t_dtype t)) then Err (NotFloating pos)
      else check_floating (S pos) rest
  end.

Definition _kl_divergence (p p_logits q : tensor) : result tensor :=
  check_floating 0 [p; p_logits; q] ;;;
  assert_has_rank p 2 ;;;
  assert_has_rank p_logits 2 ;;;
  assert_has_rank q 1 ;;;
  d <- tf_binop Rminus (log_softmax p_logits) (tf_log q) ;;
  x <- tf_binop Rmult p d ;;
  Ok (reduce_sum_axis1 x).

(** *** run_image_classifier, run_inception *)

(** Modelled from the spec: [flatten] of [tefla/core/layers.py], which is
    not among the sources; section 4.1 says it "flattens trailing
    dimensions into one feature axis". *)
Definition flatten (t : tensor) : tensor :=
  mkTensor (t_dtype t) [dim0 t; prod_shape (slice_shape t)] (t_data t).

Section Inception.

(** A frozen graph, and [tf.import_graph_def] binding one input tensor and
    returning one output tensor. *)
Variable graph_def : Type.
Variable import_graph_def : graph_def -> string -> tensor -> string -> result tensor.

Definition run_image_classifier (t : tensor) (g : graph_def)
    (input_tensor output_tensor : string) : result tensor :=
  import_graph_def g input_tensor t output_tensor.

(** [if tf.rank(activations) != 2: activations = flatten(activations)] is
    read as a test of the rank against 2. Were the test always true (a
    symbolic tensor compared by identity), the value returned would be the
    same: [flatten] leaves a rank-2 tensor as it is ([flatten_rank2]). *)
Definition run_inception (images : tensor) (g : option graph_def)
    (default_graph_def_fn : option (unit -> result graph_def))
    (image_size : nat) (input_tensor output_tensor : string) : result tensor :=
  images <- _validate_images images image_size ;;
  g <- match g with
       | Some g => Ok g
       | None =>
           match default_graph_def_fn with
           | None => Err MissingGraphDef
           | Some fn => fn tt
           end
       end ;;
  activations <- run_image_classifier images g input_tensor output_tensor ;;
  if negb (rank activations =? 2)%nat then Ok (flatten activations)
  else Ok activations.

End Inception.

(** *** classifier_score *)

Definition classifier_score (images : tensor)
    (classifier_fn : tensor -> result tensor) (num_batches : nat) : result tensor :=
  generated_images_list <- tf_split images num_batches ;;
  elems <- tf_stack generated_images_list ;;
  logits <- map_fn classifier_fn elems ;;
  logits <- tf_concat0 (tf_unstack logits) ;;
  assert_has_rank logits 2 ;;;
  let logits_dtype := t_dtype logits in
  let logits :=
    if negb (dtype_eqb logits_dtype float64) then tf_cast float64 logits else logits in
  let p := softmax logits in
  let q := reduce_mean_axis0 p in
  kl <- _kl_divergence p logits q ;;
  assert_has_rank kl 1 ;;;
  let log_score := reduce_mean_all kl in
  let final_score := scalar float64 (exp log_score) in
  Ok (if negb (dtype_eqb logits_dtype float64)
      then tf_cast logits_dtype final_score
      else final_score).

(** *** frechet_classifier_distance *)

Definition reduce_mean_rows (n : nat) (X : mat) : vec :=
  fun j => sum_n n (fun i => X i j) / INR n.

(** [X - m], the row vector [m] broadcast over the rows of [X]. *)
Definition centered (X : mat) (m : vec) : mat := fun i j => X i j - m j.

(** [tf.matmul(A, B, transpose_a=True)] for [A], [B] of [n] rows. *)
Definition matmul_ta (n : nat) (A B : mat) : mat :=
  fun j k => sum_n n (fun i => A i j * B i k).

Definition mscale (A : mat) (c : R) : mat := fun i j => A i j / c.

Section Frechet.

Variable svd : nat -> mat -> vec * mat * mat.

(** The arithmetic of [frechet_classifier_distance] on the two activation
    matrices, of [N] and [N_v] rows and [D] columns. Both covariances are
    divided by [num_examples - 1], the count of the real activations. (With
    one row the code divides 0 by 0 and yields nan, which the reals do not
    have: the properties below are for two rows or more.) *)
Definition fid_of_activations (N N_v D : nat) (real_a gen_a : mat) : R :=
  let m := reduce_mean_rows N real_a in
  let m_v := reduce_mean_rows N_v gen_a in
  let num_examples := INR N in
  let sigma :=
    mscale (matmul_ta N (centered real_a m) (centered real_a m)) (num_examples - 1) in
  let sigma_v :=
    mscale (matmul_ta N_v (centered gen_a m_v) (centered gen_a m_v)) (num_examples - 1) in
  let sqrt_trace_component := trace_sqrt_product svd D sigma sigma_v in
  let trace := tf_trace D (madd sigma sigma_v) - 2 * sqrt_trace_component in
  let mean := Rsqr (tf_norm D (vsub m m_v)) in
  trace + mean.

Definition frechet_classifier_distance (real_images generated_images : tensor)
    (classifier_fn : tensor -> result tensor) (num_batches : nat) : result tensor :=
  real_images_list <- tf_split real_images num_batches ;;
  generated_images_list <- tf_split generated_images num_batches ;;
  imgs <- tf_stack (real_images_list ++ generated_images_list) ;;
  activations <- map_fn classifier_fn imgs ;;
  let activations_dtype := t_dtype activations in
  ra_ga <- tf_split_sizes activations num_batches num_batches ;;
  real_a <- tf_concat0 (tf_unstack (fst ra_ga)) ;;
  gen_a <- tf_concat0 (tf_unstack (snd ra_ga)) ;;
  let real_a :=
    if negb (dtype_eqb activations_dtype float64) then tf_cast float64 real_a else real_a in
  let gen_a :=
    if negb (dtype_eqb activations_dtype float64) then tf_cast float64 gen_a else gen_a in
  assert_has_rank real_a 2 ;;;
  assert_has_rank gen_a 2 ;;;
  let fid :=
    scalar float64
      (fid_of_activations (dim0 real_a) (dim0 gen_a) (dim1 real_a)
         (entry2 real_a) (entry2 gen_a)) in
  Ok (if negb (dtype_eqb activations_dtype float64)
      then tf_cast activations_dtype fid
      else fid).

End Frechet.

(** *** inception_score, frechet_inception_distance *)

Section InceptionMetrics.

Variable graph_def : Type.
Variable import_graph_def : graph_def -> string -> tensor -> string -> result tensor.

(** [_default_graph_def_fn], which fetches the frozen Inception graph from
    [INCEPTION_URL]. *)
Variable _default_graph_def_fn : unit -> result graph_def.

Variable svd : nat -> mat -> vec * mat * mat.

(** [functools.partial(classifier_score, classifier_fn=
    functools.partial(run_inception, output_tensor=INCEPTION_OUTPUT))]: the
    other arguments of [run_inception] keep their defaults. *)
Definition inception_score (images : tensor) (num_batches : nat) : result tensor :=
  classifier_score images
    (fun images =>
       run_inception import_graph_def images None (Some _default_graph_def_fn)
         INCEPTION_DEFAULT_IMAGE_SIZE INCEPTION_INPUT INCEPTION_OUTPUT)
    num_batches.

(** [functools.partial(frechet_classifier_distance, classifier_fn=
    functools.partial(run_inception, output_tensor=INCEPTION_FINAL_POOL))]. *)
Definition frechet_inception_distance (real_images generated_images : tensor)
    (num_batches : nat) : result tensor :=
  frechet_classifier_distance svd real_images generated_images
    (fun images =>
       run_inception import_graph_def images None (Some _default_graph_def_fn)
         INCEPTION_DEFAULT_IMAGE_SIZE INCEPTION_INPUT INCEPTION_FINAL_POOL)
    num_batches.

End InceptionMetrics.

End gan_metrics.

(* ================================================================== *)
(** ** Specifications, contracts of the engine, and sample inputs *)
(* ================================================================== *)

(** What the properties of Part II are stated with: the formulas of the
    spec, the contracts assumed of the tensor engine's operations, the
    stages the longer functions are cut into, and concrete inputs. *)

Section Specification.

Import prediction.
Import gan_metrics.

(** The values the member predictions hold at element [j]. *)
Definition member_column (j : nat) (preds : list tensor) : list R :=
  map (fun a => nth j (t_data a) 0) preds.

(** A conversion that changes no value: what [round_to] is on the values
    that the dtype holds exactly, as those of the sample members below. *)
Definition exact_conversion : dtype -> R -> R := fun _ v => v.

(** The product of a list, and the geometric mean of non-negative
    numbers: the non-negative number whose power [length l] is their
    product. *)
Fixpoint rprod (l : list R) : R :=
  match l with
  | [] => 1
  | x :: l' => x * rprod l'
  end.

Definition geometric_mean_of (l : list R) (g : R) : Prop :=
  0 <= g /\ g ^ length l = rprod l.

(** Two members predicting [1, 3] and [3, 5] (one in float64, one in
    uint8), and a crop predictor asked for no crop at all. *)
Definition member_a : prediction.predictor unit :=
  fun _ => Ok (mkTensor float64 [2%nat] [1; 3]).

Definition member_b : prediction.predictor unit :=
  fun _ => Ok (mkTensor uint8 [2%nat] [3; 5]).

Definition no_crop : prediction.CropPredictor unit unit unit unit :=
  {| prediction.number_of_crops := 0;
     prediction.crop_size := 224;
     prediction.im_size := 256;
     prediction.get_bbox_10crop := fun _ _ => [];
     prediction.crop_predictor :=
       {| prediction.prediction_iterator := fun _ _ _ => [tt];
          prediction.sess_run := fun _ => Ok (mkTensor float32 [1%nat; 2%nat] [1; 3]) |} |}.

(** The graph [run_inception] runs: the one given, else the one of the
    provider. *)
Definition chosen_graph {graph_def : Type} (g : option graph_def)
    (default_graph_def_fn : option (unit -> result graph_def)) : result graph_def :=
  match g with
  | Some g => Ok g
  | None =>
      match default_graph_def_fn with
      | None => Err MissingGraphDef
      | Some fn => fn tt
      end
  end.

(** A graph that pools a 1 by 299 by 299 by 1 batch into one 1 by 1 by 2
    feature map. *)
Definition pooling_graph (_ : unit) (_ : string) (t : tensor) (_ : string)
    : result tensor :=
  Ok (mkTensor float32 [1%nat; 1%nat; 1%nat; 2%nat] [0; 1]).

Definition blank_batch : tensor :=
  mkTensor float32 [1%nat; 299%nat; 299%nat; 1%nat] (repeat 0 (299 * 299)).

(** What is assumed of [tf.image.resize_bilinear]: on a batch of images of
    non-zero height and width it returns a float32 batch of the requested
    size, and, interpolating between pixels, it maps a batch whose pixels
    all have one value to a batch whose pixels all have that value. *)
Definition resizes_bilinearly (resize : tensor -> nat -> nat -> result tensor) : Prop :=
  forall (dt : dtype) (b h w c : nat) (data : list R) (height width : nat),
    (0 < h)%nat -> (0 < w)%nat -> length data = (b * h * w * c)%nat ->
    exists out,
      resize (mkTensor dt [b; h; w; c] data) height width
        = Ok (mkTensor float32 [b; height; width; c] out) /\
      length out = (b * height * width * c)%nat /\
      forall v, Forall (fun x => x = v) data -> Forall (fun x => x = v) out.

(** Bilinear interpolation as TensorFlow 1 does it by default (corners not
    aligned): output pixel [(y, x)] reads the input at [(y * h / height,
    x * w / width)] and its right and lower neighbours. *)
Definition bilinear_pixel (img : nat -> nat -> R) (h w height width y x : nat) : R :=
  let y0 := (y * h / height)%nat in
  let x0 := (x * w / width)%nat in
  let y1 := Nat.min (y0 + 1) (h - 1) in
  let x1 := Nat.min (x0 + 1) (w - 1) in
  let dy := INR ((y * h) mod height) / INR height in
  let dx := INR ((x * w) mod width) / INR width in
  let top := img y0 x0 + (img y0 x1 - img y0 x0) * dx in
  let bottom := img y1 x0 + (img y1 x1 - img y1 x0) * dx in
  top + (bottom - top) * dy.

Definition bilinear_resize (t : tensor) (height width : nat) : result tensor :=
  match t_shape t with
  | [b; h; w; c] =>
      if ((h =? 0) || (w =? 0))%nat then Err ShapeMismatch
      else
        let px (n ch y x : nat) : R :=
          nth (((n * h + y) * w + x) * c + ch)%nat (t_data t) (hd 0 (t_data t)) in
        Ok (mkTensor float32 [b; height; width; c]
              (flat_map (fun n =>
                 flat_map (fun y =>
                   flat_map (fun x =>
                     map (fun ch => bilinear_pixel (px n ch) h w height width y x)
                         (seq 0 c))
                     (seq 0 width))
                   (seq 0 height))
                 (seq 0 b)))
  | _ => Err (RankMismatch 4 (rank t))
  end.

(** The value [_kl_divergence] computes for row [i]. *)
Definition kl_row (p l : mat) (q : vec) (D i : nat) : R :=
  sum_n D (fun j =>
    p i j * (l i j - ln (sum_n D (fun k => exp (l i k))) - ln (q j))).

(** One row of probabilities against two rows of logits. *)
Definition one_row : tensor := mkTensor float64 [1%nat; 1%nat] [1].

Definition two_rows : tensor := mkTensor float64 [2%nat; 1%nat] [0; 0].

Definition prior : tensor := mkTensor float64 [1%nat] [1].

(** A classifier that treats the images of a batch one by one: [g] maps the
    pixels of one image to its [D] logits, and the output for a batch is
    the matrix of the rows [g image]. *)
Definition per_image (f : tensor -> result tensor) (dt : dtype) (D : nat)
    (g : list R -> list R) : Prop :=
  (forall x, length (g x) = D) /\
  forall c, f c = Ok (mkTensor dt [dim0 c; D] (flat_map g (slices c))).

(** The score in the words of the spec: [exp(mean_i KL(p_i || q))] with
    [p = softmax(logits)], [q = mean_i p_i] and
    [KL(p_i || q) = sum_j p_ij * (log_softmax(logits_i)_j - log q_j)]. *)
Definition softmax_of (L : mat) (D : nat) : mat :=
  fun i j => exp (L i j) / sum_n D (fun k => exp (L i k)).

Definition marginal (P : mat) (N : nat) : vec :=
  fun j => sum_n N (fun i => P i j) / INR N.

Definition score_formula (N D : nat) (L : mat) : R :=
  exp (sum_n N (kl_row (softmax_of L D) L (marginal (softmax_of L D) N) D) / INR N).

(** The final cast back to the dtype of the classifier's output. *)
Definition cast_back (dt : dtype) (v : R) : tensor :=
  if negb (dtype_eqb dt float64)
  then tf_cast dt (gan_metrics.scalar float64 v)
  else gan_metrics.scalar float64 v.

(** The part of [classifier_score] that runs the classifier, and the part
    that turns the logits into the score. *)
Definition logits_of_batches (images : tensor)
    (classifier_fn : tensor -> result tensor) (num_batches : nat) : result tensor :=
  generated_images_list <- tf_split images num_batches ;;
  elems <- tf_stack generated_images_list ;;
  logits <- map_fn classifier_fn elems ;;
  tf_concat0 (tf_unstack logits).

Definition score_of_logits (logits : tensor) : result tensor :=
  assert_has_rank logits 2 ;;;
  let logits_dtype := t_dtype logits in
  let logits :=
    if negb (dtype_eqb logits_dtype float64) then tf_cast float64 logits else logits in
  let p := softmax logits in
  let q := reduce_mean_axis0 p in
  kl <- _kl_divergence p logits q ;;
  assert_has_rank kl 1 ;;;
  let log_score := reduce_mean_all kl in
  let final_score := scalar float64 (exp log_score) in
  Ok (if negb (dtype_eqb logits_dtype float64)
      then tf_cast logits_dtype final_score
      else final_score).

(** The logit [j] of image [i]. *)
Definition logit_of (g : list R -> list R) (images : tensor) : mat :=
  fun i j => nth j (g (nth i (slices images) [])) 0.

(** A classifier that treats its batch image by image: the logits of an
    image are its first pixel and 0. *)
Definition first_pixel_classifier (c : tensor) : result tensor :=
  Ok (mkTensor float64 [dim0 c; 2%nat] (flat_map (fun x => [hd 0 x; 0]) (slices c))).

Definition four_images : tensor :=
  mkTensor float64 [4%nat; 1%nat; 1%nat; 1%nat] [1; 2; 3; 4].

(** A classifier that looks at its whole batch: it centres the pixels on
    the mean of the batch it is given (as a normalisation layer in training
    mode does) before turning them into logits. *)
Definition batch_centred_classifier (c : tensor) : result tensor :=
  let mu := mean (t_data c) in
  Ok (mkTensor (t_dtype c) [dim0 c; 2%nat]
        (flat_map (fun x => [x - mu; 0]) (t_data c))).

Definition two_images : tensor :=
  mkTensor float64 [2%nat; 1%nat; 1%nat; 1%nat] [2 * ln 3; 0].

Definition meq (n : nat) (A B : mat) : Prop :=
  forall i j, (i < n)%nat -> (j < n)%nat -> A i j = B i j.

Definition symmetric (n : nat) (M : mat) : Prop := meq n (transpose M) M.

Definition col (x : vec) : mat := fun i _ => x i.

Definition mulvec (n : nat) (M : mat) (x : vec) : vec :=
  fun i => sum_n n (fun j => M i j * x j).

Definition dot (n : nat) (x y : vec) : R := sum_n n (fun i => x i * y i).

(** The quadratic form [x^T M x]. *)
Definition qform (n : nat) (M : mat) (x : vec) : R := dot n x (mulvec n M x).

(** Positive semi-definite; all eigenvalues at least [c] (for a symmetric
    matrix, by the Rayleigh quotient). *)
Definition psd (n : nat) (M : mat) : Prop := forall x, 0 <= qform n M x.

Definition eigenvalues_at_least (n : nat) (M : mat) (c : R) : Prop :=
  forall x, c * dot n x x <= qform n M x.

(** [lam] is an eigenvalue of [M]: [M x = lam x] for a vector [x] that is
    not zero. No eigenvalue of [M] lies strictly between [lo] and [hi]. *)
Definition eigenvalue (n : nat) (M : mat) (lam : R) : Prop :=
  exists x, dot n x x <> 0 /\
            forall i, (i < n)%nat -> mulvec n M x i = lam * x i.

Definition no_eigenvalue_between (n : nat) (M : mat) (lo hi : R) : Prop :=
  forall lam, eigenvalue n M lam -> ~ (lo < lam < hi).


Definition orthogonal (n : nat) (U : mat) : Prop :=
  meq n (matmul n (transpose U) U) identity /\
  meq n (matmul n U (transpose U)) identity.

(** What is assumed of [tf.svd] at an [n] by [n] matrix [M]: non-negative
    singular values [s], orthogonal [u] and [v], and [M = u diag(s) v^T]. *)
Definition svd_spec (n : nat) (M : mat) (r : vec * mat * mat) : Prop :=
  let '(s, u, v) := r in
  (forall i, (i < n)%nat -> 0 <= s i) /\
  orthogonal n u /\ orthogonal n v /\
  meq n M (matmul n (matmul n u (diag s)) (transpose v)).

Definition s_of (r : vec * mat * mat) : vec := fst (fst r).

Definition u_of (r : vec * mat * mat) : mat := snd (fst r).

Definition v_of (r : vec * mat * mat) : mat := snd r.

(** The singular values as [_symmetric_matrix_square_root] rebuilds with
    them: those below [eps] as they are, the others square-rooted. *)
Definition guarded_sqrt (eps : R) (s : vec) : vec :=
  fun i => if Rlt_dec (s i) eps then s i else sqrt (s i).

(** Column [j] of [N - diag s]. *)
Definition residual_column (N : mat) (s : vec) (j : nat) : vec :=
  fun i => N i j - diag s i j.

(** The unit vector [e_i]. *)
Definition unit_vec (i : nat) : vec := fun k => if (i =? k)%nat then 1 else 0.

(** The singular value decomposition of a 1 by 1 matrix [[m]]:
    [m = sign(m) * |m| * 1]. *)
Definition svd_1x1 (_ : nat) (M : mat) : vec * mat * mat :=
  (fun _ => Rabs (M 0%nat 0%nat),
   fun _ _ => if Rle_dec 0 (M 0%nat 0%nat) then 1 else -1,
   fun _ _ => 1).

(** The 1 by 1 matrix [[c]]. *)
Definition constant_matrix (c : R) : mat := fun _ _ => c.

(** [P = u diag(d) u^T] with [u] orthogonal and [d] positive: a symmetric
    positive definite matrix in diagonalised form. *)
Definition spd_form (n : nat) (P : mat) (u : mat) (d : vec) : Prop :=
  orthogonal n u /\ (forall i, (i < n)%nat -> 0 < d i) /\
  meq n P (matmul n (matmul n u (diag d)) (transpose u)).

(** The statistics of the spec: the mean of the [N] rows of an activation
    matrix and their covariance with the unbiased normaliser [N - 1]. *)
Definition sample_mean (N : nat) (X : mat) : vec :=
  fun j => sum_n N (fun i => X i j) / INR N.

Definition sample_covariance (N : nat) (X : mat) : mat :=
  fun j k =>
    sum_n N (fun i => (X i j - sample_mean N X j) * (X i k - sample_mean N X k))
    / (INR N - 1).

(** What [frechet_classifier_distance] computes from the statistics:
    [trace(S + S_v) - 2 trace_sqrt_product(S, S_v) + ||m - m_v||^2], with
    the trace term as the code computes it. *)
Definition frechet_formula (svd : nat -> mat -> vec * mat * mat) (D : nat)
    (m m_v : vec) (S S_v : mat) : R :=
  tf_trace D (madd S S_v) - 2 * gan_metrics.trace_sqrt_product svd D S S_v
  + sum_n D (fun j => (m j - m_v j) * (m j - m_v j)).


(** The part of [frechet_classifier_distance] that runs the classifier: it
    yields the dtype of the stacked activations and the two activation
    matrices. *)
Definition fid_activations (real_images generated_images : tensor)
    (classifier_fn : tensor -> result tensor) (num_batches : nat)
    : result (dtype * tensor * tensor) :=
  real_images_list <- tf_split real_images num_batches ;;
  generated_images_list <- tf_split generated_images num_batches ;;
  imgs <- tf_stack (real_images_list ++ generated_images_list) ;;
  activations <- map_fn classifier_fn imgs ;;
  ra_ga <- tf_split_sizes activations num_batches num_batches ;;
  real_a <- tf_concat0 (tf_unstack (fst ra_ga)) ;;
  gen_a <- tf_concat0 (tf_unstack (snd ra_ga)) ;;
  Ok (t_dtype activations, real_a, gen_a).

(** The part that turns the activations into the distance. *)
Definition fid_of_tensors (svd : nat -> mat -> vec * mat * mat)
    (activations_dtype : dtype) (real_a gen_a : tensor)
    : result tensor :=
  let real_a :=
    if negb (dtype_eqb activations_dtype float64) then tf_cast float64 real_a else real_a in
  let gen_a :=
    if negb (dtype_eqb activations_dtype float64) then tf_cast float64 gen_a else gen_a in
  assert_has_rank real_a 2 ;;;
  assert_has_rank gen_a 2 ;;;
  let fid :=
    scalar float64
      (fid_of_activations svd (dim0 real_a) (dim0 gen_a) (dim1 real_a)
         (entry2 real_a) (entry2 gen_a)) in
  Ok (if negb (dtype_eqb activations_dtype float64)
      then tf_cast activations_dtype fid
      else fid).

(** The batches [tf.split] cuts a tensor into. *)
Definition batches (t : tensor) (nb : nat) : list tensor :=
  map (mkTensor (t_dtype t) ((dim0 t / nb)%nat :: slice_shape t))
      (chunks (dim0 t / nb * prod_shape (slice_shape t))%nat nb (t_data t)).

(** The activations of a set of images: the outputs of the classifier on
    its batches, joined along the first axis. *)
Definition joined (dt : dtype) (sh : list nat) (nb : nat) (outs : list tensor) : tensor :=
  mkTensor dt ((nb * hd 0%nat sh)%nat :: tl sh) (concat (map t_data outs)).

(** A classifier whose one activation per image is its first pixel, and
    pairs of images [0; v], of pixel variance v * v / 2. *)
Definition pixel_classifier (c : tensor) : result tensor :=
  Ok (mkTensor float64 [dim0 c; 1%nat] (flat_map (fun x => [hd 0 x]) (slices c))).

Definition pair_of_images (v : R) : tensor :=
  mkTensor float64 [2%nat; 1%nat; 1%nat; 1%nat] [0; v].

Definition pair_activations (v : R) : tensor := mkTensor float64 [2%nat; 1%nat] [0; v].

(** The square root of a non-negative 1 by 1 matrix, with the guard. *)
Definition guarded_root (x : R) : R :=
  if Rlt_dec x gan_metrics.default_eps then x else sqrt x.

End Specification.

(* ================================================================== *)
(** ** Further specifications and sample inputs *)
(* ================================================================== *)

Section FurtherSpecification.

Import prediction.
Import gan_metrics.

(** Every element of an array lies in [lo, hi]; every element is positive. *)
Definition within (lo hi : R) (a : tensor) : Prop :=
  Forall (fun v => lo <= v <= hi) (t_data a).

Definition positive (a : tensor) : Prop := Forall (fun v => 0 < v) (t_data a).

(** An array with its zeros replaced by ones. *)
Definition zeros_as_ones (x : tensor) : tensor :=
  tmap (fun v => if Req_EM_T v 0 then 1 else v) x.

(** [X = T P T^-1] for a symmetric positive definite [P]: a matrix with
    the positive eigenvalues [d] of [P]. *)
Definition similar_to_spd (n : nat) (X : mat) : Prop :=
  exists T Tinv P u d,
    spd_form n P u d /\
    meq n (matmul n T Tinv) identity /\ meq n (matmul n Tinv T) identity /\
    meq n X (matmul n (matmul n T P) Tinv).

(** What is assumed of [tf.image.resize_bilinear] for the range of the
    result: interpolating between the pixels of a well-formed batch, it
    yields no value below the smallest or above the largest of them. *)
Definition resize_keeps_range (resize : tensor -> nat -> nat -> result tensor) : Prop :=
  forall (t out : tensor) (height width : nat) (lo hi : R),
    wf t -> resize t height width = Ok out ->
    Forall (fun x => lo <= x <= hi) (t_data t) ->
    Forall (fun x => lo <= x <= hi) (t_data out).

(** A member that raises, and one whose prediction has three elements. *)
Definition failing_member : prediction.predictor unit :=
  fun _ => Err ShapeMismatch.

Definition wide_member : prediction.predictor unit :=
  fun _ => Ok (mkTensor float64 [3%nat] [1; 3; 5]).

(** Ten crops asked for, two boxes given: the network predicts [b, 1 - b]
    on the crop of box [b]. *)
Definition two_boxes : prediction.CropPredictor unit unit R R :=
  {| prediction.number_of_crops := 10;
     prediction.crop_size := 224;
     prediction.im_size := 256;
     prediction.get_bbox_10crop := fun _ _ => [0; 1];
     prediction.crop_predictor :=
       {| prediction.prediction_iterator :=
            fun _ _ crop_bbox => match crop_bbox with Some b => [b] | None => [] end;
          prediction.sess_run := fun b => Ok (mkTensor float32 [1%nat; 2%nat] [b; 1 - b]) |} |}.

(** Classifiers that treat their batch image by image: one whose logits
    are those of [first_pixel_classifier] shifted by the first pixel, and
    one that answers in int32. *)
Definition shifted_pixel_classifier (c : tensor) : result tensor :=
  Ok (mkTensor float64 [dim0 c; 2%nat]
        (flat_map (fun x => map (fun v => v + hd 0 x) [hd 0 x; 0]) (slices c))).

Definition integer_classifier (c : tensor) : result tensor :=
  Ok (mkTensor int32 [dim0 c; 1%nat] (flat_map (fun x => [hd 0 x]) (slices c))).

(** Two images of 32 by 32 pixels and three channels. *)
Definition small_images : tensor :=
  mkTensor float32 [2%nat; 32%nat; 32%nat; 3%nat] (repeat 0 (2 * 32 * 32 * 3)).

End FurtherSpecification.

(* ================================================================== *)
(** * Part II. Properties *)
(* ================================================================== *)

(** ** The error monad *)

Lemma bind_ok {A B : Type} (r : result A) (k : A -> result B) (b : B) :
  bind r k = Ok b -> exists a, r = Ok a /\ k a = Ok b.
Proof.
  destruct r as [a | e]; simpl; intros H.
  - exists a; split; [reflexivity | exact H].
  - discriminate H.
Qed.

Lemma mapM_ok_length {A B : Type} (f : A -> result B) (l : list A) (bs : list B) :
  mapM f l = Ok bs -> length bs = length l.
Proof.
  revert bs; induction l as [| a l IH]; simpl; intros bs H.
  - inversion H; reflexivity.
  - destruct (f a) as [b | e]; simpl in H; [| discriminate H].
    destruct (mapM f l) as [bs' | e]; simpl in H; [| discriminate H].
    inversion H; subst; simpl; f_equal; apply IH; reflexivity.
Qed.

Lemma mapM_ok_map {A B : Type} (f : A -> B) (l : list A) :
  mapM (fun a => Ok (f a)) l = Ok (map f l).
Proof.
  induction l as [| a l IH]; simpl; [reflexivity |].
  rewrite IH; reflexivity.
Qed.

(** Inverts a hypothesis [bind r k = Ok b] into its two steps. *)
Ltac inv_bind H :=
  let a := fresh "a" in
  let Ha := fresh "Ha" in
  apply bind_ok in H; destruct H as [a [Ha H]].

(** ** Lists cut into pieces *)

Lemma list_eqb_nat_true (a b : list nat) : list_eqb_nat a b = true <-> a = b.
Proof.
  unfold list_eqb_nat; destruct (list_eq_dec Nat.eq_dec a b); split; intros H;
    congruence.
Qed.

Lemma list_eqb_nat_refl (a : list nat) : list_eqb_nat a a = true.
Proof. apply list_eqb_nat_true; reflexivity. Qed.

Lemma dtype_eqb_true (a b : dtype) : dtype_eqb a b = true <-> a = b.
Proof. destruct a, b; simpl; split; intros H; congruence. Qed.

Lemma dtype_eqb_refl (a : dtype) : dtype_eqb a a = true.
Proof. destruct a; reflexivity. Qed.

Lemma chunks_length {A : Type} (size count : nat) (l : list A) :
  length (chunks size count l) = count.
Proof.
  revert l; induction count as [| c IH]; simpl; intros l; [reflexivity |].
  rewrite IH; reflexivity.
Qed.

(** Cutting a concatenation of equally long lists gives the lists back. *)
Lemma chunks_concat {A : Type} (size : nat) (ls : list (list A)) :
  Forall (fun l => length l = size) ls ->
  chunks size (length ls) (concat ls) = ls.
Proof.
  induction 1 as [| l ls Hl _ IH]; simpl; [reflexivity |].
  rewrite firstn_app, skipn_app, Hl, Nat.sub_diag, firstn_all2, skipn_all2 by lia.
  simpl; rewrite app_nil_r, IH; reflexivity.
Qed.

(** Joining the pieces gives the list back when it is long enough. *)
Lemma concat_chunks {A : Type} (size count : nat) (l : list A) :
  length l = (count * size)%nat -> concat (chunks size count l) = l.
Proof.
  revert l; induction count as [| c IH]; simpl; intros l Hl.
  - destruct l; [reflexivity | discriminate Hl].
  - rewrite IH.
    + apply firstn_skipn.
    + rewrite length_skipn; lia.
Qed.

Lemma chunks_Forall_length {A : Type} (size count : nat) (l : list A) :
  length l = (count * size)%nat ->
  Forall (fun c => length c = size) (chunks size count l).
Proof.
  revert l; induction count as [| c IH]; simpl; intros l Hl; constructor.
  - rewrite length_firstn; lia.
  - apply IH; rewrite length_skipn; lia.
Qed.

Lemma chunks_map {A B : Type} (f : A -> B) (size count : nat) (l : list A) :
  chunks size count (map f l) = map (map f) (chunks size count l).
Proof.
  revert l; induction count as [| c IH]; simpl; intros l; [reflexivity |].
  rewrite firstn_map, skipn_map, IH; reflexivity.
Qed.

Lemma nth_map_seq {B : Type} (f : nat -> B) (n j : nat) (d : B) :
  (j < n)%nat -> nth j (map f (seq 0 n)) d = f j.
Proof.
  intros Hj.
  rewrite (nth_indep _ d (f 0%nat)) by (rewrite length_map, length_seq; exact Hj).
  rewrite (map_nth f (seq 0 n) 0%nat j), seq_nth by exact Hj; reflexivity.
Qed.

(* ================================================================== *)
(** ** prediction.py: CropPredictor and EnsemblePredictor *)
(* ================================================================== *)

Section PredictionProperties.

Import prediction.

Variable input : Type.
Variables xform bbox batch : Type.
Variable round_to : dtype -> R -> R.

Lemma column_map_data (j : nat) (preds : list tensor) :
  column j (map t_data preds) = member_column j preds.
Proof. unfold column, member_column; rewrite map_map; reflexivity. Qed.

Lemma astype_shape (dt : dtype) (a : tensor) :
  t_shape (astype round_to dt a) = t_shape a.
Proof. unfold astype; destruct (dtype_eqb (t_dtype a) dt); reflexivity. Qed.

Lemma astype_wf (dt : dtype) (a : tensor) : wf a -> wf (astype round_to dt a).
Proof.
  unfold astype, wf; destruct (dtype_eqb (t_dtype a) dt); [tauto |].
  cbn [t_data t_shape]; rewrite length_map; tauto.
Qed.

Lemma astype_same (dt : dtype) (a : tensor) :
  t_dtype a = dt -> astype round_to dt a = a.
Proof. intros <-; unfold astype; rewrite dtype_eqb_refl; reflexivity. Qed.

(** Stacking well-formed arrays of one shape succeeds, and the slices of
    the stacked array are the arrays: converted when a dtype is given, as
    they are when none is. *)
Lemma np_array_stacks (dt : option dtype) (s : list nat) (preds : list tensor) :
  preds <> [] ->
  Forall (fun a => t_shape a = s /\ wf a) preds ->
  exists stacked,
    np_array round_to dt preds = Ok stacked /\
    t_dtype stacked
      = match dt with Some d => d | None => result_type (map t_dtype preds) end /\
    t_shape stacked = length preds :: s /\
    slices stacked
      = map t_data
          (match dt with Some d => map (astype round_to d) preds | None => preds end).
Proof.
  intros Hne Hall.
  destruct preds as [| a rest]; [congruence |].
  assert (Hs : forall b, In b (a :: rest) -> t_shape b = s /\ wf b)
    by (apply Forall_forall; exact Hall).
  destruct (Hs a (or_introl eq_refl)) as [Ha _].
  unfold np_array.
  replace (forallb (fun b => list_eqb_nat (t_shape a) (t_shape b)) rest) with true.
  - eexists; split; [reflexivity |].
    destruct dt as [d |]; cbn [t_dtype t_shape]; repeat split.
    + rewrite Ha; reflexivity.
    + unfold slices, slice_shape, dim0; cbn [t_shape t_data tl hd]; rewrite Ha.
      rewrite map_map, <- (length_map (fun b => t_data (astype round_to d b)) (a :: rest)).
      apply (chunks_concat (size := prod_shape s)).
      apply Forall_forall; intros l Hl.
      apply in_map_iff in Hl; destruct Hl as [b [<- Hb]].
      destruct (Hs b Hb) as [Hbs Hbw].
      apply (astype_wf d) in Hbw; unfold wf in Hbw.
      rewrite Hbw, astype_shape, Hbs; reflexivity.
    + rewrite Ha; reflexivity.
    + unfold slices, slice_shape, dim0; cbn [t_shape t_data tl hd]; rewrite Ha.
      rewrite <- (length_map t_data (a :: rest)).
      apply (chunks_concat (size := prod_shape s)).
      apply Forall_forall; intros l Hl.
      apply in_map_iff in Hl; destruct Hl as [b [<- Hb]].
      destruct (Hs b Hb) as [Hbs Hbw]; unfold wf in Hbw; rewrite Hbw, Hbs.
      reflexivity.
  - symmetry; apply forallb_forall; intros b Hb.
    apply list_eqb_nat_true.
    destruct (Hs b (or_intror Hb)) as [Hbs _]; congruence.
Qed.

Lemma dict_getitem_3_miss {V : Type} (k1 k2 k3 key : string) (v1 v2 v3 : V) :
  key <> k1 -> key <> k2 -> key <> k3 ->
  dict_getitem [(k1, v1); (k2, v2); (k3, v3)] key = Err (KeyError key).
Proof.
  intros H1 H2 H3; simpl.
  destruct (String.eqb_spec k1 key); [congruence |].
  destruct (String.eqb_spec k2 key); [congruence |].
  destruct (String.eqb_spec k3 key); [congruence | reflexivity].
Qed.

Lemma rows_long_enough (s : list nat) (preds : list tensor) (j : nat) :
  Forall (fun a => t_shape a = s /\ wf a) preds ->
  (j < prod_shape s)%nat ->
  Forall (fun r => (j < length r)%nat) (map t_data preds).
Proof.
  intros Hall Hj; apply Forall_forall; intros r Hr.
  apply in_map_iff in Hr; destruct Hr as [b [<- Hb]].
  apply (proj1 (Forall_forall _ _) Hall) in Hb; destruct Hb as [Hbs Hbw].
  unfold wf in Hbw; rewrite Hbw, Hbs; exact Hj.
Qed.

Lemma astype_Forall (dt : dtype) (s : list nat) (preds : list tensor) :
  Forall (fun a => t_shape a = s /\ wf a) preds ->
  Forall (fun a => t_shape a = s /\ wf a) (map (astype round_to dt) preds).
Proof.
  intros H; apply Forall_map; apply Forall_forall; intros a Ha.
  apply (proj1 (Forall_forall _ _) H) in Ha; destruct Ha as [Hs Hw].
  split; [rewrite astype_shape; exact Hs | apply astype_wf; exact Hw].
Qed.

(** *** Sums and means of values that need not be finite *)

Lemma xsum_finite (l : list R) : xsum (map Finite l) = Finite (rsum l).
Proof.
  induction l as [| v l IH]; [reflexivity |].
  unfold xsum in *; cbn [map fold_right]; rewrite IH; reflexivity.
Qed.

Lemma xmean_finite (l : list R) : l <> [] -> xmean (map Finite l) = Finite (mean l).
Proof.
  intros Hne; destruct l as [| v l]; [congruence |].
  unfold xmean; cbn [map]; change (Finite v :: map Finite l) with (map Finite (v :: l)).
  rewrite xsum_finite, length_map; reflexivity.
Qed.

Lemma xcolumn_map (f : R -> xfloat) (j : nat) (rows : list (list R)) :
  Forall (fun r => (j < length r)%nat) rows ->
  xcolumn j (map (map f) rows) = map f (column j rows).
Proof.
  induction 1 as [| r rows Hr _ IH]; [reflexivity |].
  unfold xcolumn, column in *; cbn [map]; rewrite IH; f_equal.
  rewrite (nth_indep _ NaN (f 0)) by (rewrite length_map; exact Hr).
  apply map_nth.
Qed.

(** The mean over the first axis of an array computed element by element
    from the stacked predictions. *)
Lemma np_mean0_of_map (f : R -> xfloat) (d : dtype) (s : list nat)
    (stacked : tensor) (ps : list tensor) :
  t_shape stacked = length ps :: s ->
  slices stacked = map t_data ps ->
  Forall (fun a => t_shape a = s /\ wf a) ps ->
  np_mean0 (mkArray d (t_shape stacked) (map f (t_data stacked)))
  = mkArray (float_result d) s
      (map (fun j => xmean (map f (member_column j ps))) (seq 0 (prod_shape s))).
Proof.
  intros Hsh Hsl Hall; unfold np_mean0; cbn [a_dtype a_shape a_data].
  rewrite Hsh; cbn [tl]; f_equal.
  apply map_ext_in; intros j Hj; apply in_seq in Hj.
  unfold a_slices; cbn [a_shape a_data tl hd].
  rewrite chunks_map.
  change (chunks (prod_shape s) (length ps) (t_data stacked)) with
    (chunks (prod_shape (tl (length ps :: s))) (hd 0%nat (length ps :: s)) (t_data stacked)).
  rewrite <- Hsh; fold (slice_shape stacked); fold (dim0 stacked); fold (slices stacked).
  rewrite Hsl, xcolumn_map by (eapply rows_long_enough; [eassumption | lia]).
  rewrite column_map_data; reflexivity.
Qed.

(** The three combinations of [_ensemble], element by element, for the
    stacked predictions of members [ps] of one shape. *)
Lemma _ensemble_elements (s : list nat) (stacked : tensor) (ps : list tensor) :
  t_dtype stacked = float32 ->
  t_shape stacked = length ps :: s ->
  slices stacked = map t_data ps ->
  Forall (fun a => t_shape a = s /\ wf a) ps ->
  _ensemble "mean" stacked
  = Ok (mkArray float32 s
          (map (fun j => xmean (map Finite (member_column j ps)))
               (seq 0 (prod_shape s)))) /\
  _ensemble "gmean" stacked
  = Ok (mkArray float32 s
          (map (fun j => xexp (xmean (map xlog (member_column j ps))))
               (seq 0 (prod_shape s)))) /\
  _ensemble "log_mean" stacked
  = Ok (mkArray float32 s
          (map (fun j => xmean (map (fun v => xlog (zero_guard v)) (member_column j ps)))
               (seq 0 (prod_shape s)))).
Proof.
  intros Hdt Hsh Hsl Hall; unfold _ensemble; cbn [dict_getitem String.eqb Ascii.eqb Bool.eqb].
  repeat split; f_equal.
  - unfold of_tensor; rewrite (@np_mean0_of_map Finite _ s stacked ps Hsh Hsl Hall), Hdt; reflexivity.
  - unfold gmean, np_log.
    rewrite (@np_mean0_of_map xlog _ s stacked ps Hsh Hsl Hall), Hdt.
    unfold np_exp; cbn [a_dtype a_shape a_data float_result is_floating].
    rewrite map_map; reflexivity.
  - unfold np_log, add_eq0_mask, tmap; cbn [t_dtype t_shape t_data].
    rewrite map_map.
    rewrite (@np_mean0_of_map (fun v => xlog (zero_guard v)) _ s stacked ps Hsh Hsl Hall), Hdt.
    reflexivity.
Qed.

(** What [EnsemblePredictor.predict] computes for members whose
    predictions [preds] have one shape: the stacked predictions are
    converted to float32, then combined. *)
Lemma ensemble_predict_elements
    (predictors : list (predictor input)) (X : input)
    (preds : list tensor) (s : list nat) :
  mapM (fun p => p X) predictors = Ok preds ->
  preds <> [] ->
  Forall (fun a => t_shape a = s /\ wf a) preds ->
  let col := fun j => member_column j (map (astype round_to float32) preds) in
  EnsemblePredictor_predict round_to predictors X "mean"
  = Ok (mkArray float32 s
          (map (fun j => Finite (mean (col j))) (seq 0 (prod_shape s)))) /\
  EnsemblePredictor_predict round_to predictors X "gmean"
  = Ok (mkArray float32 s
          (map (fun j => xexp (xmean (map xlog (col j)))) (seq 0 (prod_shape s)))) /\
  EnsemblePredictor_predict round_to predictors X "log_mean"
  = Ok (mkArray float32 s
          (map (fun j => xmean (map (fun v => xlog (zero_guard v)) (col j)))
               (seq 0 (prod_shape s)))).
Proof.
  intros Hp Hne Hall col.
  destruct (np_array_stacks (Some float32) Hne Hall) as [stacked [Hst [Hdt [Hsh Hsl]]]].
  assert (Hsh' : t_shape stacked = length (map (astype round_to float32) preds) :: s)
    by (rewrite length_map; exact Hsh).
  destruct (_ensemble_elements stacked Hdt Hsh' Hsl (astype_Forall float32 Hall))
    as [Hm [Hg Hl]].
  unfold EnsemblePredictor_predict; rewrite Hp; cbn [bind]; rewrite Hst; cbn [bind].
  rewrite Hm, Hg, Hl; repeat split.
  do 2 f_equal; apply map_ext; intros j; apply xmean_finite.
  unfold member_column; destruct preds; [congruence | discriminate].
Qed.

(** *** The geometric mean *)

Lemma xlog_pos (v : R) : 0 < v -> xlog v = Finite (ln v).
Proof. intros Hv; unfold xlog; destruct (Rlt_dec 0 v); [reflexivity | contradiction]. Qed.

Lemma xlog_zero : xlog 0 = NegInf.
Proof.
  unfold xlog; destruct (Rlt_dec 0 0) as [H | _]; [exfalso; lra |].
  destruct (Req_EM_T 0 0); [reflexivity | congruence].
Qed.

Lemma xlog_neg (v : R) : v < 0 -> xlog v = NaN.
Proof.
  intros Hv; unfold xlog; destruct (Rlt_dec 0 v); [exfalso; lra |].
  destruct (Req_EM_T v 0); [exfalso; lra | reflexivity].
Qed.

(** The sum of the logarithms of non-negative numbers: finite when all
    are positive, [-inf] as soon as one is zero. *)
Lemma xsum_xlog_nonneg (l : list R) :
  Forall (fun v => 0 <= v) l ->
  (Forall (fun v => 0 < v) l /\ xsum (map xlog l) = Finite (rsum (map ln l))) \/
  (In 0 l /\ xsum (map xlog l) = NegInf).
Proof.
  induction 1 as [| v l Hv _ IH]; [left; split; [constructor | reflexivity] |].
  cbn [map xsum fold_right]; fold (xsum (map xlog l)).
  destruct Hv as [Hv | <-].
  - rewrite (xlog_pos Hv); destruct IH as [[Hpos ->] | [Hin ->]].
    + left; split; [constructor; assumption | reflexivity].
    + right; split; [right; exact Hin | reflexivity].
  - rewrite xlog_zero; right; split; [left; reflexivity |].
    destruct IH as [[_ ->] | [_ ->]]; reflexivity.
Qed.

Lemma exp_pow_n (x : R) (n : nat) : exp x ^ n = exp (INR n * x).
Proof.
  induction n as [| n IH]; [simpl; rewrite Rmult_0_l, exp_0; reflexivity |].
  rewrite S_INR; cbn [pow]; rewrite IH, <- exp_plus; f_equal; ring.
Qed.

Lemma exp_rsum_ln (l : list R) :
  Forall (fun v => 0 < v) l -> exp (rsum (map ln l)) = rprod l.
Proof.
  induction 1 as [| v l Hv _ IH]; [apply exp_0 |].
  cbn [map rsum rprod]; rewrite exp_plus, exp_ln, IH by exact Hv; reflexivity.
Qed.

Lemma rprod_zero (l : list R) : In 0 l -> rprod l = 0.
Proof.
  induction l as [| v l IH]; [intros [] |].
  intros [-> | Hin]; cbn [rprod]; [ring | rewrite (IH Hin); ring].
Qed.

(** On non-negative numbers [exp(mean(log))] is their geometric mean: 0
    when one of them is 0. *)
Lemma gmean_nonneg (l : list R) :
  l <> [] -> Forall (fun v => 0 <= v) l ->
  exists g, xexp (xmean (map xlog l)) = Finite g /\ geometric_mean_of l g /\
            (Forall (fun v => 0 < v) l -> g = exp (mean (map ln l))) /\
            (In 0 l -> g = 0).
Proof.
  intros Hne Hall.
  assert (Hn : (0 < length l)%nat) by (destruct l; [congruence | simpl; lia]).
  assert (Hx : xmean (map xlog l)
               = match xsum (map xlog l) with
                 | Finite t => Finite (t / INR (length l))
                 | NegInf => NegInf
                 | NaN => NaN
                 end).
  { destruct l as [| v l]; [congruence |]; unfold xmean; cbn [map].
    rewrite <- (length_map xlog (v :: l)); reflexivity. }
  destruct (xsum_xlog_nonneg Hall) as [[Hpos Hs] | [Hin Hs]]; rewrite Hx, Hs; cbn [xexp].
  - eexists; split; [reflexivity |]; repeat split.
    + left; apply exp_pos.
    + rewrite exp_pow_n, <- (exp_rsum_ln Hpos); f_equal; field.
      apply Rgt_not_eq, lt_0_INR; exact Hn.
    + intros _; unfold mean; rewrite length_map; reflexivity.
    + intros Hin; exfalso.
      apply (proj1 (Forall_forall _ _) Hpos) in Hin; lra.
  - exists 0; split; [reflexivity |]; repeat split.
    + lra.
    + rewrite (rprod_zero _ Hin); apply pow_i; exact Hn.
    + intros Hpos; exfalso.
      apply (proj1 (Forall_forall _ _) Hpos) in Hin; lra.
Qed.

(** C6. [EnsemblePredictor.predict] fails on an ensemble type other than
    'mean', 'gmean' and 'log_mean': always with an error, and once the
    member predictions are stacked with the [KeyError] of the lookup, a
    configuration error. For the three names, and member predictions
    [preds] of one shape, element [j] of the result is computed from the
    float32 values [col] that the members hold at [j]: 'mean' gives their
    arithmetic mean; 'gmean' gives [exp(mean(log col))], which for
    non-negative values is their geometric mean (0 when one of them is 0);
    'log_mean' gives the mean of [log(x + (x == 0))], where [log] is
    [-inf] at 0 and [nan] below. *)
Theorem ensemble_predict_combines
    (predictors : list (predictor input)) (X : input) (en_type : string) :
  (en_type <> "mean"%string -> en_type <> "gmean"%string ->
   en_type <> "log_mean"%string ->
     (exists e, EnsemblePredictor_predict round_to predictors X en_type = Err e) /\
     (forall preds stacked,
         mapM (fun p => p X) predictors = Ok preds ->
         np_array round_to (Some float32) preds = Ok stacked ->
         EnsemblePredictor_predict round_to predictors X en_type
           = Err (KeyError en_type) /\
         error_category (KeyError en_type) = ConfigurationError)) /\
  (forall preds s,
      mapM (fun p => p X) predictors = Ok preds ->
      preds <> [] ->
      Forall (fun a => t_shape a = s /\ wf a) preds ->
      exists r_mean r_gmean r_log,
        EnsemblePredictor_predict round_to predictors X "mean" = Ok r_mean /\
        EnsemblePredictor_predict round_to predictors X "gmean" = Ok r_gmean /\
        EnsemblePredictor_predict round_to predictors X "log_mean" = Ok r_log /\
        a_shape r_mean = s /\ a_shape r_gmean = s /\ a_shape r_log = s /\
        forall j, (j < prod_shape s)%nat ->
          let col := member_column j (map (astype round_to float32) preds) in
          nth j (a_data r_mean) NaN = Finite (mean col) /\
          nth j (a_data r_gmean) NaN = xexp (xmean (map xlog col)) /\
          (Forall (fun v => 0 <= v) col ->
             exists g, nth j (a_data r_gmean) NaN = Finite g /\
                       geometric_mean_of col g) /\
          nth j (a_data r_log) NaN =
            xmean (map (fun v => xlog (v + (if Req_EM_T v 0 then 1 else 0))) col)).
Proof.
  split.
  - intros H1 H2 H3; split.
    + unfold EnsemblePredictor_predict.
      destruct (mapM (fun p => p X) predictors) as [preds | e]; simpl;
        [| exists e; reflexivity].
      destruct (np_array round_to (Some float32) preds) as [stacked | e]; simpl;
        [| exists e; reflexivity].
      exists (KeyError en_type); unfold _ensemble.
      apply dict_getitem_3_miss; assumption.
    + intros preds stacked Hp Hs; split; [| reflexivity].
      unfold EnsemblePredictor_predict; rewrite Hp; simpl; rewrite Hs; simpl.
      unfold _ensemble; apply dict_getitem_3_miss; assumption.
  - intros preds s Hp Hne Hall.
    destruct (ensemble_predict_elements _ _ Hp Hne Hall) as [Hm [Hg Hl]].
    do 3 eexists; split; [exact Hm |]; split; [exact Hg |]; split; [exact Hl |].
    cbn [a_shape a_data]; repeat split; rewrite nth_map_seq by assumption;
      try reflexivity.
    intros Hnn.
    assert (Hc : member_column j (map (astype round_to float32) preds) <> [])
      by (unfold member_column; destruct preds; [congruence | discriminate]).
    destruct (gmean_nonneg Hc Hnn) as [g [Hg1 [Hg2 _]]].
    exists g; split; assumption.
Qed.

(** The example of the spec: members predicting [1, 3] and [3, 5] are
    combined by 'mean' into [2, 4]. *)
Example ensemble_mean_example (X : input) :
  exists r,
    EnsemblePredictor_predict exact_conversion
      [ (fun _ : input => Ok (mkTensor float64 [2%nat] [1; 3]));
        (fun _ : input => Ok (mkTensor float64 [2%nat] [3; 5])) ] X "mean" = Ok r /\
    a_data r = [Finite 2; Finite 4].
Proof.
  eexists; split; [reflexivity |].
  cbn -[Rplus Rmult Rdiv Rinv INR]; cbn -[Rplus Rmult Rdiv Rinv].
  unfold exact_conversion; f_equal; [f_equal; lra | f_equal; f_equal; lra].
Qed.

Lemma np_array_dtype (dt : dtype) (arrays : list tensor) (stacked : tensor) :
  np_array round_to (Some dt) arrays = Ok stacked -> t_dtype stacked = dt.
Proof.
  unfold np_array; destruct arrays as [| a rest].
  - intros H; inversion H; reflexivity.
  - destruct (forallb _ rest); intros H; inversion H; reflexivity.
Qed.

Lemma _ensemble_dtype (en_type : string) (x : tensor) (arr : array) :
  _ensemble en_type x = Ok arr -> a_dtype arr = float_result (t_dtype x).
Proof.
  unfold _ensemble; cbn [dict_getitem].
  destruct (String.eqb "mean" en_type); [intros H; inversion H; reflexivity |].
  destruct (String.eqb "gmean" en_type).
  { intros H; inversion H; cbn [gmean np_exp np_mean0 np_log a_dtype].
    destruct (t_dtype x); reflexivity. }
  destruct (String.eqb "log_mean" en_type); [| discriminate].
  intros H; inversion H; cbn [np_mean0 np_log add_eq0_mask tmap t_dtype a_dtype].
  destruct (t_dtype x); reflexivity.
Qed.

Lemma np_array_same_shapes (dt : option dtype) (s : list nat) (preds : list tensor) :
  Forall (fun a => t_shape a = s) preds ->
  exists stacked, np_array round_to dt preds = Ok stacked.
Proof.
  intros Hall; destruct preds as [| a rest]; [eexists; reflexivity |].
  unfold np_array.
  replace (forallb (fun b => list_eqb_nat (t_shape a) (t_shape b)) rest) with true;
    [eexists; reflexivity |].
  symmetry; apply forallb_forall; intros b Hb; apply list_eqb_nat_true.
  pose proof (proj1 (Forall_forall _ _) Hall) as Hs.
  rewrite (Hs a (or_introl eq_refl)), (Hs b (or_intror Hb)); reflexivity.
Qed.

(** C9. [EnsemblePredictor.predict] converts the predictions of the
    members to float32 before it combines them. For members whose
    predictions have one shape and each of the three ensemble types it
    returns an array. An array it returns is float32 whatever the dtypes
    of the members, and it is the combination by [_ensemble] of the
    float32 array whose slices are the members' predictions, each
    converted to float32 unless it is float32 already: the conversion is
    applied to the members' values, not to the combined ones. *)
Theorem ensemble_predict_float32
    (predictors : list (predictor input)) (X : input) (en_type : string) :
  (forall preds s,
     mapM (fun p => p X) predictors = Ok preds ->
     Forall (fun a => t_shape a = s) preds ->
     en_type = "mean"%string \/ en_type = "gmean"%string \/
     en_type = "log_mean"%string ->
     exists arr, EnsemblePredictor_predict round_to predictors X en_type = Ok arr) /\
  (forall arr,
     EnsemblePredictor_predict round_to predictors X en_type = Ok arr ->
     a_dtype arr = float32 /\
     exists preds stacked,
       mapM (fun p => p X) predictors = Ok preds /\
       np_array round_to (Some float32) preds = Ok stacked /\
       t_dtype stacked = float32 /\
       t_data stacked
         = concat (map (fun a => t_data (astype round_to float32 a)) preds) /\
       Forall (fun a =>
                 t_dtype (astype round_to float32 a) = float32 /\
                 (t_dtype a <> float32 ->
                  t_data (astype round_to float32 a)
                    = map (round_to float32) (t_data a)))
              preds /\
       _ensemble en_type stacked = Ok arr).
Proof.
  split.
  - intros preds s Hp Hall Hen.
    destruct (np_array_same_shapes (Some float32) Hall) as [stacked Hst].
    unfold EnsemblePredictor_predict; rewrite Hp; cbn [bind]; rewrite Hst; cbn [bind].
    destruct Hen as [-> | [-> | ->]]; eexists; reflexivity.
  - unfold EnsemblePredictor_predict; intros arr H.
    inv_bind H; inv_bind H.
    pose proof (_ensemble_dtype _ _ H) as Hd.
    assert (Hd0 := Ha0); apply np_array_dtype in Hd0.
    split; [rewrite Hd, Hd0; reflexivity |].
    exists a, a0; repeat split; try assumption.
    + clear H Hd Hd0; unfold np_array in Ha0; destruct a as [| p rest].
      * inversion Ha0; reflexivity.
      * destruct (forallb _ rest); inversion Ha0; reflexivity.
    + apply Forall_forall; intros p _; unfold astype.
      destruct (dtype_eqb (t_dtype p) float32) eqn:E.
      * apply dtype_eqb_true in E; split; [exact E | intros Hne; contradiction].
      * split; [reflexivity | intros _; reflexivity].
Qed.

(** C10. A [CropPredictor] whose [number_of_crops] is below 1 returns
    [None] for every input, without raising: [_real_predict] has a branch
    for [number_of_crops > 1] and one for [number_of_crops == 1] only. *)
Theorem crop_predictor_below_one_is_none
    (self : CropPredictor input xform bbox batch) (X : input) :
  (number_of_crops self < 1)%Z ->
  CropPredictor_real_predict round_to self X = Ok (PyNone).
Proof.
  intros Hn; unfold CropPredictor_real_predict.
  destruct (Z.gtb_spec (number_of_crops self) 1) as [Hgt | _]; [lia |].
  destruct (Z.eqb_spec (number_of_crops self) 1) as [Heq | _]; [lia |].
  reflexivity.
Qed.

(** With one crop or more the body never ends without a [return]. *)
Lemma crop_predictor_none_only_below_one
    (self : CropPredictor input xform bbox batch) (X : input) :
  CropPredictor_real_predict round_to self X = Ok (PyNone) ->
  (number_of_crops self < 1)%Z.
Proof.
  unfold CropPredictor_real_predict.
  destruct (Z.gtb_spec (number_of_crops self) 1) as [Hgt | Hle].
  - intros H; inv_bind H; inv_bind H; discriminate H.
  - destruct (Z.eqb_spec (number_of_crops self) 1) as [Heq | Hne].
    + intros H; inv_bind H; discriminate H.
    + intros _; lia.
Qed.

End PredictionProperties.



Lemma ensemble_predict_combines_witness :
  prediction.EnsemblePredictor_predict exact_conversion [member_a; member_b] tt "median"
    = Err (KeyError "median") /\
  exists r,
    prediction.EnsemblePredictor_predict exact_conversion [member_a; member_b] tt "mean"
      = Ok r /\
    nth 1 (prediction.a_data r) prediction.NaN = prediction.Finite (mean [3; 5]).
Proof.
  destruct (ensemble_predict_combines exact_conversion [member_a; member_b] tt "median")
    as [Hbad _].
  destruct (ensemble_predict_combines exact_conversion [member_a; member_b] tt "mean")
    as [_ Hgood].
  split.
  - refine (proj1 (proj2 (Hbad _ _ _) _ _ eq_refl eq_refl)); discriminate.
  - destruct (Hgood [mkTensor float64 [2%nat] [1; 3]; mkTensor uint8 [2%nat] [3; 5]]
                [2%nat] eq_refl) as [r [rg [rl [Hr [_ [_ [_ [_ [_ Hj]]]]]]]]].
    + discriminate.
    + repeat constructor.
    + exists r; split; [exact Hr |].
      exact (proj1 (Hj 1%nat (le_n 2))).
Defined.

Lemma ensemble_predict_float32_witness :
  exists arr,
    prediction.EnsemblePredictor_predict exact_conversion [member_a; member_b] tt "gmean"
      = Ok arr /\
    prediction.a_dtype arr = float32.
Proof.
  destruct (ensemble_predict_float32 exact_conversion [member_a; member_b] tt "gmean")
    as [Hret Hdt].
  destruct (Hret [mkTensor float64 [2%nat] [1; 3]; mkTensor uint8 [2%nat] [3; 5]]
              [2%nat] eq_refl) as [arr Harr].
  - repeat constructor.
  - right; left; reflexivity.
  - exists arr; split; [exact Harr | exact (proj1 (Hdt arr Harr))].
Defined.

Lemma crop_predictor_below_one_is_none_witness :
  prediction.CropPredictor_real_predict exact_conversion no_crop tt
  = Ok (prediction.PyNone).
Proof.
  apply crop_predictor_below_one_is_none; simpl; lia.
Defined.

(* ================================================================== *)
(** ** Sums and tabulated tensors *)
(* ================================================================== *)

Lemma sum_n_ext (n : nat) (f g : nat -> R) :
  (forall k, (k < n)%nat -> f k = g k) -> sum_n n f = sum_n n g.
Proof.
  induction n as [| n IH]; simpl; intros H; [reflexivity |].
  rewrite IH, (H n) by (intros; try apply H; lia); reflexivity.
Qed.

Lemma rsum_app (a b : list R) : rsum (a ++ b) = rsum a + rsum b.
Proof. induction a as [| x a IH]; simpl; [lra | rewrite IH; lra]. Qed.

Lemma rsum_map_seq (f : nat -> R) (n : nat) : rsum (map f (seq 0 n)) = sum_n n f.
Proof.
  induction n as [| n IH]; [reflexivity |].
  rewrite seq_S, map_app, rsum_app, IH; simpl; lra.
Qed.

Lemma length_flat_map_const {A B : Type} (g : A -> list B) (m : nat) (l : list A) :
  (forall a, length (g a) = m) -> length (flat_map g l) = (length l * m)%nat.
Proof.
  intros Hg; induction l as [| a l IH]; simpl; [reflexivity |].
  rewrite length_app, Hg, IH; reflexivity.
Qed.

(** Element [i * m + j] of a concatenation of rows of length [m] is element
    [j] of row [i]. *)
Lemma nth_flat_map_const {A B : Type} (g : A -> list B) (m : nat) (l : list A)
    (i j : nat) (da : A) (d : B) :
  (forall a, length (g a) = m) -> (i < length l)%nat -> (j < m)%nat ->
  nth (i * m + j) (flat_map g l) d = nth j (g (nth i l da)) d.
Proof.
  intros Hg; revert i; induction l as [| a l IH]; simpl; intros i Hi Hj; [lia |].
  destruct i as [| i]; simpl.
  - rewrite app_nth1 by (rewrite Hg; exact Hj); reflexivity.
  - rewrite app_nth2 by (rewrite Hg; lia).
    rewrite Hg; replace (m + i * m + j - m)%nat with (i * m + j)%nat by lia.
    apply IH; [lia | exact Hj].
Qed.

Lemma tabulate2_wf (d : dtype) (n m : nat) (f : mat) : wf (tabulate2 d n m f).
Proof.
  unfold wf, tabulate2; simpl.
  rewrite (length_flat_map_const _ (m := m)), length_seq by
    (intros; rewrite length_map, length_seq; reflexivity).
  lia.
Qed.

Lemma entry2_tabulate2 (d : dtype) (n m : nat) (f : mat) (i j : nat) :
  (i < n)%nat -> (j < m)%nat -> entry2 (tabulate2 d n m f) i j = f i j.
Proof.
  intros Hi Hj; unfold entry2, tabulate2, dim1; simpl.
  rewrite (nth_flat_map_const _ (m := m) _ 0%nat) by
    (try (intros; rewrite length_map, length_seq; reflexivity);
     try (rewrite length_seq; exact Hi); exact Hj).
  rewrite seq_nth by exact Hi; simpl.
  apply nth_map_seq; exact Hj.
Qed.

Lemma entry1_tabulate1 (d : dtype) (n : nat) (f : vec) (j : nat) :
  (j < n)%nat -> entry1 (tabulate1 d n f) j = f j.
Proof. intros Hj; unfold entry1, tabulate1; simpl; apply nth_map_seq; exact Hj. Qed.

(* ================================================================== *)
(** ** run_inception *)
(* ================================================================== *)

Section InceptionProperties.

Import gan_metrics.

Variable graph_def : Type.
Variable import_graph_def : graph_def -> string -> tensor -> string -> result tensor.


(** Flattening a rank-2 tensor changes nothing. *)
Lemma flatten_rank2 (t : tensor) : rank t = 2%nat -> flatten t = t.
Proof.
  destruct t as [d sh data]; unfold rank, flatten, dim0, slice_shape; simpl.
  destruct sh as [| a [| b [| c sh]]]; simpl; try discriminate.
  intros _; rewrite Nat.mul_1_r; reflexivity.
Qed.

Lemma flatten_has_rank2 (t : tensor) : rank (flatten t) = 2%nat.
Proof. reflexivity. Qed.

(** C5. Whatever the classifier graph outputs for validated images,
    [run_inception] returns that output unchanged when it has rank 2, and
    returns it flattened (first dimension kept, the others merged into
    one) exactly when its rank is not 2. *)
Theorem run_inception_flattens_unless_rank2
    (images : tensor) (g : option graph_def)
    (default_graph_def_fn : option (unit -> result graph_def))
    (image_size : nat) (input_tensor output_tensor : string)
    (graph : graph_def) (out : tensor) :
  _validate_images images image_size = Ok images ->
  chosen_graph g default_graph_def_fn = Ok graph ->
  import_graph_def graph input_tensor images output_tensor = Ok out ->
  (rank out = 2%nat ->
     run_inception import_graph_def images g default_graph_def_fn image_size
       input_tensor output_tensor = Ok out) /\
  (rank out <> 2%nat ->
     run_inception import_graph_def images g default_graph_def_fn image_size
       input_tensor output_tensor = Ok (flatten out) /\
     t_shape (flatten out) = [dim0 out; prod_shape (slice_shape out)] /\
     t_data (flatten out) = t_data out).
Proof.
  intros Hv Hg Hrun.
  assert (Hstep : run_inception import_graph_def images g default_graph_def_fn
                    image_size input_tensor output_tensor
                  = if negb (rank out =? 2)%nat then Ok (flatten out) else Ok out).
  { unfold run_inception; rewrite Hv; simpl.
    unfold chosen_graph in Hg; rewrite Hg; simpl.
    unfold run_image_classifier; rewrite Hrun; reflexivity. }
  split; intros Hr; rewrite Hstep.
  - rewrite Hr; reflexivity.
  - apply Nat.eqb_neq in Hr; rewrite Hr; simpl; repeat split.
Qed.

(** Validation, graph selection and the graph itself are the only ways
    [run_inception] fails. *)
Lemma run_inception_errors
    (images : tensor) (g : option graph_def)
    (default_graph_def_fn : option (unit -> result graph_def))
    (image_size : nat) (input_tensor output_tensor : string) :
  (rank images <> 4%nat ->
     run_inception import_graph_def images g default_graph_def_fn image_size
       input_tensor output_tensor = Err (RankMismatch 4 (rank images))) /\
  (_validate_images images image_size = Ok images ->
   g = None -> default_graph_def_fn = None ->
     run_inception import_graph_def images g default_graph_def_fn image_size
       input_tensor output_tensor = Err MissingGraphDef).
Proof.
  split.
  - intros Hr; unfold run_inception, _validate_images.
    apply Nat.eqb_neq in Hr; rewrite Hr; reflexivity.
  - intros Hv -> ->; unfold run_inception; rewrite Hv; reflexivity.
Qed.

End InceptionProperties.



Lemma run_inception_flattens_unless_rank2_witness :
  gan_metrics.run_inception pooling_graph blank_batch (Some tt) None 299
    gan_metrics.INCEPTION_INPUT gan_metrics.INCEPTION_FINAL_POOL
  = Ok (mkTensor float32 [1%nat; 2%nat] [0; 1]).
Proof.
  refine (proj1 (proj2 (@run_inception_flattens_unless_rank2 unit pooling_graph
            blank_batch (Some tt) None 299 gan_metrics.INCEPTION_INPUT
            gan_metrics.INCEPTION_FINAL_POOL tt
            (mkTensor float32 [1%nat; 1%nat; 1%nat; 2%nat] [0; 1])
            eq_refl eq_refl eq_refl) _)).
  discriminate.
Defined.

(* ================================================================== *)
(** ** preprocess_image *)
(* ================================================================== *)




Section PreprocessProperties.

Import gan_metrics.

Lemma nth_of_constant (v : R) (data : list R) (i : nat) :
  Forall (fun x => x = v) data -> data <> [] -> nth i data (hd 0 data) = v.
Proof.
  intros Hall Hne.
  assert (Hin : forall x, In x data -> x = v) by (apply Forall_forall; exact Hall).
  destruct (nth_in_or_default i data (hd 0 data)) as [H | H].
  - apply Hin; exact H.
  - rewrite H; destruct data as [| x data]; [congruence |].
    apply Hin; left; reflexivity.
Qed.

Lemma bilinear_resize_spec : resizes_bilinearly bilinear_resize.
Proof.
  intros dt b h w c data height width Hh Hw Hlen.
  unfold bilinear_resize; cbn [t_shape t_data].
  replace ((h =? 0) || (w =? 0))%nat with false
    by (symmetry; apply orb_false_iff; split; apply Nat.eqb_neq; lia).
  eexists; split; [reflexivity |]; split.
  - rewrite (length_flat_map_const _ (m := (height * width * c)%nat)), length_seq; [lia |].
    intros n.
    rewrite (length_flat_map_const _ (m := (width * c)%nat)), length_seq; [lia |].
    intros y.
    rewrite (length_flat_map_const _ (m := c)), length_seq; [lia |].
    intros x; rewrite length_map, length_seq; reflexivity.
  - intros v Hall.
    apply Forall_flat_map, Forall_forall; intros n Hn.
    apply Forall_flat_map, Forall_forall; intros y _.
    apply Forall_flat_map, Forall_forall; intros x _.
    apply Forall_map, Forall_forall; intros ch Hch.
    apply in_seq in Hn; apply in_seq in Hch.
    assert (Hpos : (0 < b * h * w * c)%nat) by (repeat apply Nat.mul_pos_pos; lia).
    assert (Hne : data <> []) by (intros ->; simpl in Hlen; lia).
    unfold bilinear_pixel.
    rewrite !(nth_of_constant _ Hall Hne); ring.
Qed.

Variable resize_bilinear : tensor -> nat -> nat -> result tensor.
Hypothesis resize_ok : resizes_bilinearly resize_bilinear.

Lemma Forall_map_eq (f : R -> R) (v : R) (l : list R) :
  Forall (fun x => x = v) l -> Forall (fun x => x = f v) (map f l).
Proof. intros H; apply Forall_map; revert H; apply Forall_impl; intros x ->; reflexivity. Qed.

(** A batch of one constant value: every pixel becomes [(v - 128) / 128]. *)
Lemma preprocess_batch_constant (dt : dtype) (b h w c : nat) (data : list R)
    (height width : nat) (v : R) :
  (0 < h)%nat -> (0 < w)%nat -> length data = (b * h * w * c)%nat ->
  Forall (fun x => x = v) data ->
  exists out,
    preprocess_image resize_bilinear (mkTensor dt [b; h; w; c] data) height width
      = Ok (mkTensor float32 [b; height; width; c] out) /\
    length out = (b * height * width * c)%nat /\
    Forall (fun x => x = (v - 128) / 128) out.
Proof.
  intros Hh Hw Hlen Hall.
  unfold preprocess_image; cbn [rank t_shape t_dtype length Nat.eqb].
  assert (Hcast : (if negb (is_floating dt)
                   then tf_cast float32 (mkTensor dt [b; h; w; c] data)
                   else mkTensor dt [b; h; w; c] data)
                  = mkTensor (if is_floating dt then dt else float32) [b; h; w; c] data)
    by (destruct dt; reflexivity).
  rewrite Hcast.
  destruct (@resize_ok (if is_floating dt then dt else float32) b h w c data
              height width Hh Hw Hlen) as [out [Hr [Hl Hc]]].
  rewrite Hr; cbn [bind tmap t_dtype t_shape t_data].
  eexists; split; [reflexivity |]; split.
  - rewrite length_map; exact Hl.
  - apply (Forall_map_eq (fun x => (x - 128) / 128)), Hc, Hall.
Qed.

(** A single image takes the same road as a batch of one. *)
Lemma preprocess_single_as_batch (dt : dtype) (h w c : nat) (data : list R)
    (height width : nat) :
  preprocess_image resize_bilinear (mkTensor dt [h; w; c] data) height width
  = (r <- preprocess_image resize_bilinear
            (expand_dims0 (mkTensor dt [h; w; c] data)) height width ;;
     squeeze0 r).
Proof.
  unfold preprocess_image, expand_dims0; cbn [rank t_shape t_dtype t_data length Nat.eqb].
  destruct dt; cbn [is_floating negb tf_cast t_shape t_dtype t_data];
    destruct (resize_bilinear _ height width); reflexivity.
Qed.

(** C7. [preprocess_image] maps an image, or a batch of images, whose
    pixels are all 128 to one whose pixels are all 0, all 255 to all
    127/128 (about 0.992), and all 0 to all -1. A single image [h; w; c] is
    processed as the batch [1; h; w; c] and comes back with three
    dimensions, [height; width; c]. *)
Theorem preprocess_image_constant
    (dt : dtype) (b h w c : nat) (data : list R) (height width : nat)
    (v target : R) :
  In (v, target) [(128, 0); (255, 127 / 128); (0, -1)] ->
  (0 < h)%nat -> (0 < w)%nat ->
  Forall (fun x => x = v) data ->
  (length data = (b * h * w * c)%nat ->
   exists out,
     preprocess_image resize_bilinear (mkTensor dt [b; h; w; c] data) height width
       = Ok (mkTensor float32 [b; height; width; c] out) /\
     length out = (b * height * width * c)%nat /\
     Forall (fun x => x = target) out) /\
  (length data = (h * w * c)%nat ->
   exists out,
     preprocess_image resize_bilinear (mkTensor dt [h; w; c] data) height width
       = Ok (mkTensor float32 [height; width; c] out) /\
     preprocess_image resize_bilinear (mkTensor dt [h; w; c] data) height width
       = (r <- preprocess_image resize_bilinear
                 (expand_dims0 (mkTensor dt [h; w; c] data)) height width ;;
          squeeze0 r) /\
     length out = (height * width * c)%nat /\
     Forall (fun x => x = target) out).
Proof.
  intros Hin Hh Hw Hall.
  assert (Ht : target = (v - 128) / 128).
  { simpl in Hin; destruct Hin as [H | [H | [H | []]]]; inversion H; subst; lra. }
  subst target; split; intros Hlen.
  - apply preprocess_batch_constant; assumption.
  - destruct (@preprocess_batch_constant dt 1 h w c data height width v Hh Hw)
      as [out [Hr [Hl Hc]]]; [lia | exact Hall |].
    exists out; split; [| split; [apply preprocess_single_as_batch | split]].
    + rewrite preprocess_single_as_batch.
      unfold expand_dims0; cbn [t_dtype t_shape t_data].
      rewrite Hr; reflexivity.
    + lia.
    + exact Hc.
Qed.

End PreprocessProperties.

Lemma preprocess_image_constant_witness :
  exists out,
    gan_metrics.preprocess_image bilinear_resize
      (mkTensor uint8 [1%nat; 1%nat; 1%nat] [255]) 2 2
      = Ok (mkTensor float32 [2%nat; 2%nat; 1%nat] out) /\
    Forall (fun x => x = 127 / 128) out.
Proof.
  destruct (@preprocess_image_constant bilinear_resize bilinear_resize_spec
              uint8 1 1 1 1 [255] 2 2 255 (127 / 128)) as [_ Hsingle].
  - right; left; reflexivity.
  - lia.
  - lia.
  - repeat constructor.
  - destruct (Hsingle eq_refl) as [out [Hr [_ [_ Hc]]]].
    exists out; split; [exact Hr | exact Hc].
Defined.

(* ================================================================== *)
(** ** _kl_divergence *)
(* ================================================================== *)

Section KLProperties.

Import gan_metrics.

Lemma ln_0 : ln 0 = 0.
Proof.
  unfold ln; destruct (Rlt_dec 0 0) as [H | _]; [| reflexivity].
  exfalso; exact (Rlt_irrefl 0 H).
Qed.

Lemma entry1_tf_log (q : tensor) (j : nat) : entry1 (tf_log q) j = ln (entry1 q j).
Proof.
  unfold entry1, tf_log, tmap; cbn [t_data].
  rewrite <- (map_nth ln), ln_0; reflexivity.
Qed.

Lemma broadcast_dim_same (n : nat) : broadcast_dim n n = Some n.
Proof. unfold broadcast_dim; rewrite Nat.eqb_refl; reflexivity. Qed.

Lemma broadcast_dim_one (n : nat) : broadcast_dim n 1 = Some n.
Proof.
  unfold broadcast_dim; destruct (n =? 1)%nat eqn:E; [reflexivity |].
  reflexivity.
Qed.

(** In range, the broadcast read of a matrix is the plain read, and the
    broadcast read of a row is the read of its column. *)
Lemma bget_matrix (t : tensor) (n d i j : nat) :
  dim1 t = d -> (i < n)%nat -> (j < d)%nat -> bget t n d i j = entry2 t i j.
Proof.
  intros Hd Hi Hj; unfold bget, entry2; rewrite Hd.
  destruct (Nat.eqb_spec n 1); destruct (Nat.eqb_spec d 1); f_equal; lia.
Qed.

Lemma bget_row (t : tensor) (d i j : nat) :
  (j < d)%nat -> bget t 1 d i j = entry1 t j.
Proof.
  intros Hj; unfold bget, entry1; simpl.
  destruct (Nat.eqb_spec d 1); f_equal; lia.
Qed.

Lemma check_floating_all (p l q : tensor) :
  is_floating (t_dtype p) = true -> is_floating (t_dtype l) = true ->
  is_floating (t_dtype q) = true ->
  check_floating 0 [p; l; q] = Ok tt.
Proof. intros Hp Hl Hq; simpl; rewrite Hp, Hl, Hq; reflexivity. Qed.

Lemma check_floating_some (p l q : tensor) :
  is_floating (t_dtype p) && is_floating (t_dtype l) && is_floating (t_dtype q) = false ->
  exists pos, check_floating 0 [p; l; q] = Err (NotFloating pos).
Proof.
  simpl; destruct (is_floating (t_dtype p)); simpl; [| exists 0%nat; reflexivity].
  destruct (is_floating (t_dtype l)); simpl; [| exists 1%nat; reflexivity].
  destruct (is_floating (t_dtype q)); simpl; [discriminate | exists 2%nat; reflexivity].
Qed.


Lemma tabulate2_ext (d : dtype) (n m : nat) (f g : mat) :
  (forall i j, (i < n)%nat -> (j < m)%nat -> f i j = g i j) ->
  tabulate2 d n m f = tabulate2 d n m g.
Proof.
  intros H; unfold tabulate2; f_equal.
  induction (seq 0 n) as [| i l IH] eqn:E in H |- *; [reflexivity |].
  assert (Hin : forall k, In k (i :: l) -> (k < n)%nat)
    by (intros k Hk; rewrite <- E in Hk; apply in_seq in Hk; lia).
  clear E; revert Hin; induction (i :: l) as [| a l' IH']; intros Hin; [reflexivity |].
  simpl; f_equal.
  - apply map_ext_in; intros k Hk; apply in_seq in Hk.
    apply H; [apply Hin; left; reflexivity | lia].
  - apply IH'; intros k Hk; apply Hin; right; exact Hk.
Qed.

Lemma tabulate1_ext (d : dtype) (n : nat) (f g : vec) :
  (forall i, (i < n)%nat -> f i = g i) -> tabulate1 d n f = tabulate1 d n g.
Proof.
  intros H; unfold tabulate1; f_equal.
  apply map_ext_in; intros i Hi; apply in_seq in Hi; apply H; lia.
Qed.

Lemma tf_binop_matrix_row (op : R -> R -> R) (a b : tensor) (n d : nat) :
  t_dtype b = t_dtype a -> t_shape a = [n; d] -> t_shape b = [d] ->
  tf_binop op a b
  = Ok (tabulate2 (t_dtype a) n d (fun i j => op (entry2 a i j) (entry1 b j))).
Proof.
  intros Hd Ha Hb; unfold tf_binop, as_rows, rank.
  rewrite Hd, dtype_eqb_refl, Ha, Hb, broadcast_dim_one, broadcast_dim_same.
  cbn [negb length Nat.eqb andb]; f_equal.
  apply tabulate2_ext; intros i j Hi Hj.
  rewrite bget_matrix by (try assumption; unfold dim1; rewrite Ha; reflexivity).
  rewrite bget_row by assumption; reflexivity.
Qed.

Lemma tf_binop_matrix_matrix (op : R -> R -> R) (a b : tensor) (n d : nat) :
  t_dtype b = t_dtype a -> t_shape a = [n; d] -> t_shape b = [n; d] ->
  tf_binop op a b
  = Ok (tabulate2 (t_dtype a) n d (fun i j => op (entry2 a i j) (entry2 b i j))).
Proof.
  intros Hd Ha Hb; unfold tf_binop, as_rows, rank.
  rewrite Hd, dtype_eqb_refl, Ha, Hb, !broadcast_dim_same.
  cbn [negb length Nat.eqb andb]; f_equal.
  apply tabulate2_ext; intros i j Hi Hj.
  rewrite !bget_matrix by (try assumption; unfold dim1; rewrite ?Ha, ?Hb; reflexivity).
  reflexivity.
Qed.

Lemma kl_divergence_same_shape (p l q : tensor) (N D : nat) :
  is_floating (t_dtype p) = true ->
  t_dtype l = t_dtype p -> t_dtype q = t_dtype p ->
  t_shape p = [N; D] -> t_shape l = [N; D] -> t_shape q = [D] ->
  _kl_divergence p l q
  = Ok (tabulate1 (t_dtype p) N (kl_row (entry2 p) (entry2 l) (entry1 q) D)).
Proof.
  intros Hf Hdl Hdq Hp Hl Hq.
  unfold _kl_divergence.
  rewrite check_floating_all by congruence.
  unfold assert_has_rank, rank; rewrite Hp, Hl, Hq; cbn [length Nat.eqb bind].
  assert (Hls : log_softmax l
                = tabulate2 (t_dtype p) N D
                    (fun i j => entry2 l i j - ln (sum_n D (fun k => exp (entry2 l i k))))).
  { unfold log_softmax, dim0, dim1; rewrite Hl, Hdl; reflexivity. }
  rewrite Hls.
  rewrite (@tf_binop_matrix_row Rminus _ (tf_log q) N D)
    by (try reflexivity; unfold tf_log, tmap, tabulate2; cbn [t_dtype t_shape]; congruence).
  cbn [bind t_dtype tabulate2].
  rewrite (@tf_binop_matrix_matrix Rmult p _ N D) by (try reflexivity; assumption).
  cbn [bind]; unfold reduce_sum_axis1, dim0, dim1; cbn [t_dtype t_shape tabulate2 hd nth].
  f_equal; apply tabulate1_ext; intros i Hi; unfold kl_row.
  apply sum_n_ext; intros j Hj.
  rewrite !entry2_tabulate2 by assumption.
  rewrite entry1_tf_log; reflexivity.
Qed.

(** What [classifier_score] passes to [_kl_divergence]: the softmax of
    the logits and its mean over the images have the shapes and the dtype
    of the logits. *)
Lemma softmax_shape (l : tensor) (N D : nat) :
  t_shape l = [N; D] ->
  t_shape (softmax l) = [N; D] /\ t_dtype (softmax l) = t_dtype l.
Proof.
  intros Hl; unfold softmax, dim0, dim1, tabulate2; rewrite Hl; split; reflexivity.
Qed.

Lemma reduce_mean_axis0_shape (p : tensor) (N D : nat) :
  t_shape p = [N; D] ->
  t_shape (reduce_mean_axis0 p) = [D] /\ t_dtype (reduce_mean_axis0 p) = t_dtype p.
Proof.
  intros Hp; unfold reduce_mean_axis0, dim0, dim1, tabulate1; rewrite Hp; split; reflexivity.
Qed.

(** C8. [_kl_divergence] fails with the dtype error (the spec's
    TypeError-equivalent) when one of [p], [p_logits], [q] is not
    floating-point; when all three are, it fails with the rank error (a
    ShapeError) if [p] or [p_logits] is not of rank 2 or [q] not of rank 1.
    Otherwise, on what [classifier_score] passes to it (floating-point
    logits of shape [N; D], their softmax as [p] and the mean of [p] over
    the images as [q]) it returns [N] values, one per row of [p], the value
    for row [i] being the sum over [j] of
    [p i j * (log_softmax(p_logits) i j - log (q j))]. *)
Theorem kl_divergence_checks (p p_logits q : tensor) :
  (is_floating (t_dtype p) && is_floating (t_dtype p_logits)
     && is_floating (t_dtype q) = false ->
   exists pos,
     _kl_divergence p p_logits q = Err (NotFloating pos) /\
     error_category (NotFloating pos) = TypeErrorEquivalent) /\
  (is_floating (t_dtype p) && is_floating (t_dtype p_logits)
     && is_floating (t_dtype q) = true ->
   rank p <> 2%nat \/ rank p_logits <> 2%nat \/ rank q <> 1%nat ->
   exists expected actual,
     _kl_divergence p p_logits q = Err (RankMismatch expected actual) /\
     error_category (RankMismatch expected actual) = ShapeError) /\
  (forall N D,
     is_floating (t_dtype p_logits) = true ->
     t_shape p_logits = [N; D] ->
     p = softmax p_logits ->
     q = reduce_mean_axis0 p ->
     exists kl,
       _kl_divergence p p_logits q = Ok kl /\
       t_shape kl = [N] /\ length (t_data kl) = dim0 p /\
       forall i, (i < N)%nat ->
         entry1 kl i = kl_row (entry2 p) (entry2 p_logits) (entry1 q) D i).
Proof.
  split; [| split].
  - intros Hf; destruct (check_floating_some p p_logits q Hf) as [pos Hpos].
    exists pos; split; [| reflexivity].
    unfold _kl_divergence; rewrite Hpos; reflexivity.
  - intros Hf Hr.
    apply andb_prop in Hf; destruct Hf as [Hf Hq].
    apply andb_prop in Hf; destruct Hf as [Hp Hl].
    unfold _kl_divergence; rewrite check_floating_all by assumption.
    unfold assert_has_rank; cbn [bind].
    destruct (Nat.eqb_spec (rank p) 2) as [Hp2 | Hp2];
      [| do 2 eexists; split; reflexivity].
    destruct (Nat.eqb_spec (rank p_logits) 2) as [Hl2 | Hl2];
      [| do 2 eexists; split; reflexivity].
    destruct (Nat.eqb_spec (rank q) 1) as [Hq1 | Hq1];
      [| do 2 eexists; split; reflexivity].
    exfalso; destruct Hr as [Hr | [Hr | Hr]]; apply Hr; assumption.
  - intros N D Hf Hl Hp Hq.
    destruct (softmax_shape p_logits Hl) as [Hps Hpd]; rewrite <- Hp in Hps, Hpd.
    destruct (reduce_mean_axis0_shape p Hps) as [Hqs Hqd]; rewrite <- Hq in Hqs, Hqd.
    assert (Hfp : is_floating (t_dtype p) = true) by (rewrite Hpd; exact Hf).
    rewrite (@kl_divergence_same_shape p p_logits q N D Hfp (eq_sym Hpd) Hqd Hps Hl Hqs).
    eexists; split; [reflexivity |]; split; [reflexivity |]; split.
    + unfold tabulate1; cbn [t_data]; rewrite length_map, length_seq.
      unfold dim0; rewrite Hps; reflexivity.
    + intros i Hi; apply entry1_tabulate1; exact Hi.
Qed.

End KLProperties.


(** Outside [classifier_score] the arithmetic of [_kl_divergence]
    broadcasts: given a [p] of one row against logits of two rows, which
    are not the logits of [p], it returns two values. *)
Example kl_divergence_broadcasts :
  exists a b,
    gan_metrics._kl_divergence one_row two_rows prior
    = Ok (mkTensor float64 [2%nat] [a; b]).
Proof. do 2 eexists; reflexivity. Qed.

Lemma kl_divergence_checks_witness :
  exists kl,
    gan_metrics._kl_divergence
      (gan_metrics.softmax two_rows) two_rows
      (gan_metrics.reduce_mean_axis0 (gan_metrics.softmax two_rows)) = Ok kl /\
    length (t_data kl) = dim0 (gan_metrics.softmax two_rows).
Proof.
  destruct (proj2 (proj2 (kl_divergence_checks
              (gan_metrics.softmax two_rows) two_rows
              (gan_metrics.reduce_mean_axis0 (gan_metrics.softmax two_rows))))
              2%nat 1%nat eq_refl eq_refl eq_refl eq_refl)
    as [kl [Hkl [_ [Hlen _]]]].
  exists kl; split; [exact Hkl | exact Hlen].
Defined.

(* ================================================================== *)
(** ** Splitting, stacking and joining tensors *)
(* ================================================================== *)

Section Structural.

Import gan_metrics.

Lemma chunks_firstn {A : Type} (size count : nat) (l : list A) :
  chunks size count (firstn (count * size) l) = chunks size count l.
Proof.
  revert l; induction count as [| c IH]; intros l; [reflexivity |].
  cbn [chunks]; f_equal.
  - rewrite firstn_firstn; f_equal; simpl; lia.
  - rewrite skipn_firstn_comm.
    replace (S c * size - size)%nat with (c * size)%nat by (simpl; lia).
    apply IH.
Qed.

Lemma chunks_add {A : Type} (size a b : nat) (l : list A) :
  chunks size (a + b) l = chunks size a l ++ chunks size b (skipn (a * size) l).
Proof.
  revert l; induction a as [| a IH]; intros l; [reflexivity |].
  cbn [chunks Nat.add app]; f_equal.
  rewrite IH, skipn_skipn.
  replace (a * size + size)%nat with (S a * size)%nat by (simpl; lia).
  reflexivity.
Qed.

(** Cutting [nb] pieces of [m] slices each, then each piece into its
    slices, gives the [nb * m] slices. *)
Lemma concat_map_chunks {A : Type} (size m nb : nat) (l : list A) :
  concat (map (chunks size m) (chunks (m * size) nb l)) = chunks size (nb * m) l.
Proof.
  revert l; induction nb as [| nb IH]; intros l; [reflexivity |].
  cbn [chunks map concat]; rewrite IH, chunks_firstn.
  change (S nb * m)%nat with (m + nb * m)%nat; rewrite chunks_add; reflexivity.
Qed.

Lemma concat_map_flat_map {A B : Type} (g : A -> list B) (ls : list (list A)) :
  concat (map (flat_map g) ls) = flat_map g (concat ls).
Proof.
  induction ls as [| l ls IH]; [reflexivity |].
  cbn [map concat]; rewrite IH, flat_map_app; reflexivity.
Qed.

Lemma mapM_all_ok {A B : Type} (f : A -> result B) (F : A -> B) (l : list A) :
  (forall a, f a = Ok (F a)) -> mapM f l = Ok (map F l).
Proof.
  intros H; induction l as [| a l IH]; [reflexivity |].
  cbn [mapM map]; rewrite H, IH; reflexivity.
Qed.

Lemma forallb_map_const {A B : Type} (P : B -> bool) (f : A -> B) (l : list A) :
  (forall a, P (f a) = true) -> forallb P (map f l) = true.
Proof.
  intros H; induction l as [| a l IH]; [reflexivity |].
  cbn [map forallb]; rewrite H, IH; reflexivity.
Qed.

Lemma same_shape_mk (d : dtype) (s : list nat) (x y : list R) :
  same_shape (mkTensor d s x) (mkTensor d s y) = true.
Proof. unfold same_shape; simpl; rewrite list_eqb_nat_refl, dtype_eqb_refl; reflexivity. Qed.

(** Stacking [count >= 1] tensors of one dtype and shape; unstacking gives
    them back when each holds one element per index. *)
Lemma tf_stack_mk (d : dtype) (s : list nat) (datas : list (list R)) :
  datas <> [] ->
  tf_stack (map (mkTensor d s) datas)
  = Ok (mkTensor d (length datas :: s) (concat datas)).
Proof.
  destruct datas as [| x rest]; [congruence | intros _].
  unfold tf_stack; cbn [map t_dtype t_shape].
  rewrite forallb_map_const by (intros; apply same_shape_mk).
  change (mkTensor d s x :: map (mkTensor d s) rest) with (map (mkTensor d s) (x :: rest)).
  rewrite length_map, map_map; cbn [t_data]; rewrite map_id; reflexivity.
Qed.

Lemma tf_unstack_mk (d : dtype) (s : list nat) (datas : list (list R)) :
  Forall (fun x => length x = prod_shape s) datas ->
  tf_unstack (mkTensor d (length datas :: s) (concat datas))
  = map (mkTensor d s) datas.
Proof.
  intros H; unfold tf_unstack, slices, slice_shape, dim0; cbn [t_dtype t_shape t_data hd tl].
  rewrite chunks_concat by exact H; reflexivity.
Qed.

(** Joining along the first axis. *)
Lemma tf_concat0_mk (d : dtype) (m : nat) (s : list nat) (datas : list (list R)) :
  datas <> [] ->
  tf_concat0 (map (mkTensor d (m :: s)) datas)
  = Ok (mkTensor d ((length datas * m)%nat :: s) (concat datas)).
Proof.
  destruct datas as [| x rest]; [congruence | intros _].
  unfold tf_concat0; cbn [map rank t_shape length Nat.eqb t_dtype slice_shape tl].
  rewrite forallb_map_const
    by (intros; unfold slice_shape, rank; cbn [t_shape t_dtype tl length Nat.eqb];
        rewrite list_eqb_nat_refl, dtype_eqb_refl; reflexivity).
  change (mkTensor d (m :: s) x :: map (mkTensor d (m :: s)) rest)
    with (map (mkTensor d (m :: s)) (x :: rest)).
  rewrite !map_map; unfold dim0; cbn [t_shape t_data hd]; rewrite map_id.
  assert (Hsum : forall l : list (list R),
             fold_right Nat.add 0%nat (map (fun _ => m) l) = (length l * m)%nat).
  { intros l; induction l as [| y l IH]; [reflexivity |].
    cbn [map fold_right length]; rewrite IH; reflexivity. }
  specialize (Hsum (x :: rest)); cbn [map] in Hsum |- *; rewrite Hsum; reflexivity.
Qed.

End Structural.

(* ================================================================== *)
(** ** classifier_score *)
(* ================================================================== *)






Section ClassifierScoreProperties.

Import gan_metrics.



Lemma classifier_score_steps (images : tensor)
    (classifier_fn : tensor -> result tensor) (num_batches : nat) :
  classifier_score images classifier_fn num_batches
  = (logits <- logits_of_batches images classifier_fn num_batches ;;
     score_of_logits logits).
Proof.
  unfold classifier_score, logits_of_batches, score_of_logits.
  destruct (tf_split images num_batches) as [l | e]; [| reflexivity]; cbn [bind].
  destruct (tf_stack l) as [st | e]; [| reflexivity]; cbn [bind].
  destruct (map_fn classifier_fn st) as [lg | e]; [| reflexivity]; cbn [bind].
  destruct (tf_concat0 (tf_unstack lg)) as [c | e]; reflexivity.
Qed.

Lemma tf_split_even (dt : dtype) (N : nat) (rest : list nat) (data : list R) (nb : nat) :
  nb <> 0%nat -> (N mod nb = 0)%nat ->
  tf_split (mkTensor dt (N :: rest) data) nb
  = Ok (map (mkTensor dt ((N / nb)%nat :: rest))
            (chunks (N / nb * prod_shape rest)%nat nb data)).
Proof.
  intros Hnb Hmod; unfold tf_split; cbn [t_shape t_dtype t_data].
  apply Nat.eqb_neq in Hnb; rewrite Hnb.
  apply Nat.eqb_eq in Hmod; rewrite Hmod; reflexivity.
Qed.

(** Whatever the number of batches, a per-image classifier yields the
    logits of all images, in their order. *)
Lemma logits_of_batches_per_image
    (dt : dtype) (N : nat) (rest : list nat) (data : list R)
    (f : tensor -> result tensor) (D : nat) (g : list R -> list R) (nb : nat) :
  length data = (N * prod_shape rest)%nat ->
  nb <> 0%nat -> (N mod nb = 0)%nat ->
  per_image f dt D g ->
  logits_of_batches (mkTensor dt (N :: rest) data) f nb
  = Ok (mkTensor dt [N; D] (flat_map g (slices (mkTensor dt (N :: rest) data)))).
Proof.
  intros Hlen Hnb Hmod [Hg Hf].
  set (m := (N / nb)%nat).
  set (S0 := prod_shape rest).
  assert (HN : N = (nb * m)%nat) by (apply Nat.Div0.div_exact; exact Hmod).
  set (cks := chunks (m * S0) nb data).
  assert (Hcks_len : length cks = nb) by apply chunks_length.
  assert (Hcks_ne : cks <> []) by (intros E; rewrite E in Hcks_len; simpl in Hcks_len; lia).
  assert (Hcks_all : Forall (fun c => length c = (m * S0)%nat) cks)
    by (apply chunks_Forall_length; rewrite Hlen, HN; fold S0; lia).
  unfold logits_of_batches.
  rewrite tf_split_even by assumption; fold m S0 cks; cbn [bind].
  rewrite tf_stack_mk by exact Hcks_ne; cbn [bind].
  unfold map_fn.
  rewrite tf_unstack_mk by exact Hcks_all.
  rewrite (@mapM_all_ok _ _ f _ _ Hf); cbn [bind].
  set (rows := map (fun ck => flat_map g (chunks S0 m ck)) cks).
  assert (Houts : map (fun c => mkTensor dt [dim0 c; D] (flat_map g (slices c)))
                      (map (mkTensor dt (m :: rest)) cks)
                  = map (mkTensor dt [m; D]) rows).
  { unfold rows; rewrite !map_map; reflexivity. }
  rewrite Houts.
  assert (Hrows_len : length rows = nb) by (unfold rows; rewrite length_map; exact Hcks_len).
  assert (Hrows_ne : rows <> [])
    by (intros E; rewrite E in Hrows_len; simpl in Hrows_len; lia).
  assert (Hrows_all : Forall (fun r => length r = prod_shape [m; D]) rows).
  { unfold rows; apply Forall_map, Forall_forall; intros ck _.
    rewrite (length_flat_map_const _ (m := D)) by exact Hg.
    rewrite chunks_length; simpl; lia. }
  rewrite forallb_map_const by (intros; apply dtype_eqb_refl).
  rewrite tf_stack_mk by exact Hrows_ne; cbn [bind].
  rewrite tf_unstack_mk by exact Hrows_all.
  rewrite tf_concat0_mk by exact Hrows_ne.
  rewrite Hrows_len, <- HN; do 2 f_equal.
  unfold rows; rewrite <- (map_map (chunks S0 m) (flat_map g)).
  rewrite concat_map_flat_map; f_equal.
  unfold cks; rewrite concat_map_chunks, <- HN.
  reflexivity.
Qed.

Lemma kl_row_ext (p p' l l' : mat) (q q' : vec) (D i : nat) :
  (forall j, (j < D)%nat -> p i j = p' i j) ->
  (forall j, (j < D)%nat -> l i j = l' i j) ->
  (forall j, (j < D)%nat -> q j = q' j) ->
  kl_row p l q D i = kl_row p' l' q' D i.
Proof.
  intros Hp Hl Hq; unfold kl_row; apply sum_n_ext; intros j Hj.
  rewrite Hp, Hl, Hq by exact Hj.
  rewrite (@sum_n_ext D (fun k => exp (l i k)) (fun k => exp (l' i k)))
    by (intros k Hk; rewrite Hl by exact Hk; reflexivity).
  reflexivity.
Qed.

Lemma softmax_of_ext (L L' : mat) (D i j : nat) :
  (forall k, (k < D)%nat -> L i k = L' i k) -> (j < D)%nat ->
  softmax_of L D i j = softmax_of L' D i j.
Proof.
  intros H Hj; unfold softmax_of; rewrite (H j Hj).
  rewrite (@sum_n_ext D (fun k => exp (L i k)) (fun k => exp (L' i k)))
    by (intros k Hk; rewrite H by exact Hk; reflexivity).
  reflexivity.
Qed.

Lemma score_formula_ext (N D : nat) (L L' : mat) :
  (forall i j, (i < N)%nat -> (j < D)%nat -> L i j = L' i j) ->
  score_formula N D L = score_formula N D L'.
Proof.
  intros H; unfold score_formula; do 2 f_equal.
  apply sum_n_ext; intros i Hi; apply kl_row_ext; intros j Hj.
  - apply softmax_of_ext; [intros k Hk; apply H; assumption | exact Hj].
  - apply H; assumption.
  - unfold marginal; f_equal; apply sum_n_ext; intros i' Hi'.
    apply softmax_of_ext; [intros k Hk; apply H; assumption | exact Hj].
Qed.

(** From the logits to the score: the code computes the formula. *)
Lemma score_of_logits_formula (dt : dtype) (N D : nat) (data : list R) :
  score_of_logits (mkTensor dt [N; D] data)
  = Ok (cast_back dt (score_formula N D (entry2 (mkTensor dt [N; D] data)))).
Proof.
  unfold score_of_logits, assert_has_rank; cbn [rank t_shape t_dtype length Nat.eqb bind].
  set (L := entry2 (mkTensor dt [N; D] data)).
  assert (Hcast : (if negb (dtype_eqb dt float64)
                   then tf_cast float64 (mkTensor dt [N; D] data)
                   else mkTensor dt [N; D] data)
                  = mkTensor float64 [N; D] data) by (destruct dt; reflexivity).
  rewrite Hcast.
  set (lg := mkTensor float64 [N; D] data).
  assert (Hp : softmax lg = tabulate2 float64 N D (softmax_of L D)) by reflexivity.
  rewrite Hp.
  set (p := tabulate2 float64 N D (softmax_of L D)).
  assert (Hq : reduce_mean_axis0 p
               = tabulate1 float64 D (marginal (entry2 p) N)) by reflexivity.
  rewrite Hq.
  rewrite (@kl_divergence_same_shape p lg _ N D) by reflexivity.
  cbn [bind rank t_shape tabulate1 length Nat.eqb t_dtype].
  unfold cast_back; do 2 f_equal.
  assert (Hmean : forall F : nat -> R,
             reduce_mean_all (mkTensor float64 [N] (map F (seq 0 N)))
             = sum_n N F / INR N).
  { intros F; unfold reduce_mean_all, mean; cbn [t_data].
    rewrite rsum_map_seq, length_map, length_seq; reflexivity. }
  assert (Hscore : exp (reduce_mean_all
                     (mkTensor float64 [N]
                        (map (kl_row (entry2 p) (entry2 lg)
                                (entry1 (tabulate1 float64 D (marginal (entry2 p) N))) D)
                             (seq 0 N))))
                   = score_formula N D L).
  { rewrite Hmean; unfold score_formula; do 2 f_equal.
    apply sum_n_ext; intros i Hi; apply kl_row_ext; intros j Hj.
    - unfold p; apply entry2_tabulate2; assumption.
    - reflexivity.
    - rewrite entry1_tabulate1 by exact Hj.
      unfold marginal; f_equal; apply sum_n_ext; intros i' Hi'.
      unfold p; apply entry2_tabulate2; assumption. }
  destruct dt; cbn [dtype_eqb negb]; unfold tf_cast, scalar;
    cbn [t_shape t_data is_floating map]; rewrite <- Hscore; reflexivity.
Qed.


(** C1, as the code has it. For a classifier that maps each image to its
    logits independently of the rest of its batch, and a batch of [N]
    images split into a number of pieces that divides [N] (1, 2 and 4 among
    them), [classifier_score] returns [exp(mean_i KL(p_i || q))] computed
    from the logits of all [N] images: the same value for every such split,
    in particular the one of [num_batches = 1]. *)
Theorem classifier_score_split_invariant
    (dt : dtype) (N : nat) (rest : list nat) (data : list R)
    (f : tensor -> result tensor) (D : nat) (g : list R -> list R) (nb : nat) :
  length data = (N * prod_shape rest)%nat ->
  per_image f dt D g ->
  nb <> 0%nat -> (N mod nb = 0)%nat ->
  classifier_score (mkTensor dt (N :: rest) data) f nb
  = Ok (cast_back dt
          (score_formula N D (logit_of g (mkTensor dt (N :: rest) data)))) /\
  classifier_score (mkTensor dt (N :: rest) data) f nb
  = classifier_score (mkTensor dt (N :: rest) data) f 1.
Proof.
  intros Hlen Hf Hnb Hmod.
  assert (Hany : forall k, k <> 0%nat -> (N mod k = 0)%nat ->
             classifier_score (mkTensor dt (N :: rest) data) f k
             = Ok (cast_back dt
                     (score_formula N D (logit_of g (mkTensor dt (N :: rest) data))))).
  { intros k Hk Hmk.
    rewrite classifier_score_steps.
    rewrite (@logits_of_batches_per_image dt N rest data f D g k Hlen Hk Hmk Hf);
      cbn [bind].
    rewrite score_of_logits_formula; do 2 f_equal.
    apply score_formula_ext; intros i j Hi Hj.
    unfold entry2, logit_of, dim1; cbn [t_shape t_data nth].
    apply nth_flat_map_const; [exact (proj1 Hf) | | exact Hj].
    unfold slices, dim0; cbn [t_shape hd]; rewrite chunks_length; exact Hi. }
  split; [apply Hany; assumption |].
  rewrite (Hany nb Hnb Hmod), (Hany 1%nat) by (try discriminate; apply Nat.mod_1_r).
  reflexivity.
Qed.

End ClassifierScoreProperties.



Lemma first_pixel_per_image :
  per_image first_pixel_classifier float64 2 (fun x => [hd 0 x; 0]).
Proof. split; intros; reflexivity. Qed.

Lemma classifier_score_split_invariant_witness :
  gan_metrics.classifier_score four_images first_pixel_classifier 2
  = gan_metrics.classifier_score four_images first_pixel_classifier 1 /\
  gan_metrics.classifier_score four_images first_pixel_classifier 4
  = gan_metrics.classifier_score four_images first_pixel_classifier 1.
Proof.
  split.
  - refine (proj2 (@classifier_score_split_invariant float64 4 [1%nat; 1%nat; 1%nat]
              [1; 2; 3; 4] first_pixel_classifier 2 (fun x => [hd 0 x; 0]) 2
              eq_refl first_pixel_per_image _ eq_refl)).
    discriminate.
  - refine (proj2 (@classifier_score_split_invariant float64 4 [1%nat; 1%nat; 1%nat]
              [1; 2; 3; 4] first_pixel_classifier 2 (fun x => [hd 0 x; 0]) 4
              eq_refl first_pixel_per_image _ eq_refl)).
    discriminate.
Defined.



Lemma ln_half : ln (/ 2) = - ln 2.
Proof. apply ln_Rinv; lra. Qed.

Lemma ln_4 : ln 4 = 2 * ln 2.
Proof. replace 4 with (2 * 2) by lra; rewrite ln_mult by lra; lra. Qed.

Lemma score_uniform :
  score_formula 2 2 (entry2 (mkTensor float64 [2%nat; 2%nat] [0; 0; 0; 0])) = 1.
Proof.
  unfold score_formula, kl_row, marginal, softmax_of, entry2, dim1;
    cbn [sum_n t_shape t_data nth Nat.mul Nat.add].
  rewrite exp_0.
  replace (INR 2) with 2 by (simpl; lra).
  replace (0 + 1 + 1) with 2 by lra.
  replace ((0 + 1 / 2 + 1 / 2) / 2) with (/ 2) by lra.
  rewrite ln_half, <- exp_0; f_equal; lra.
Qed.

Lemma score_peaked :
  score_formula 2 2 (entry2 (mkTensor float64 [2%nat; 2%nat] [ln 3; 0; - ln 3; 0]))
  = exp (3 / 4 * ln 3 - ln 2).
Proof.
  unfold score_formula, kl_row, marginal, softmax_of, entry2, dim1;
    cbn [sum_n t_shape t_data nth Nat.mul Nat.add].
  rewrite exp_Ropp, exp_ln, exp_0 by lra.
  replace (INR 2) with 2 by (simpl; lra).
  replace (0 + 3 + 1) with 4 by lra.
  replace (0 + / 3 + 1) with (4 / 3) by lra.
  replace ((0 + 3 / 4 + / 3 / (4 / 3)) / 2) with (/ 2) by lra.
  replace ((0 + 1 / 4 + 1 / (4 / 3)) / 2) with (/ 2) by lra.
  replace (ln (4 / 3)) with (ln 4 - ln 3)
    by (unfold Rdiv; rewrite ln_mult, ln_Rinv by lra; lra).
  rewrite ln_half, ln_4; f_equal; lra.
Qed.

Lemma peaked_score_above_one : exp (3 / 4 * ln 3 - ln 2) <> 1.
Proof.
  intros H; rewrite <- exp_0 in H; apply exp_inv in H.
  assert (H27 : ln 16 < ln 27) by (apply ln_increasing; lra).
  replace 27 with (3 * (3 * 3)) in H27 by lra.
  replace 16 with (2 * (2 * (2 * 2))) in H27 by lra.
  rewrite !ln_mult in H27 by lra; lra.
Qed.

Lemma batch_centred_one_batch :
  gan_metrics.classifier_score two_images batch_centred_classifier 1
  = Ok (gan_metrics.scalar float64 (exp (3 / 4 * ln 3 - ln 2))).
Proof.
  rewrite classifier_score_steps.
  assert (Hl : logits_of_batches two_images batch_centred_classifier 1
               = Ok (mkTensor float64 [2%nat; 2%nat] [ln 3; 0; - ln 3; 0])).
  { cbn -[Rplus Rminus Rmult Rdiv Rinv INR ln].
    unfold mean; cbn [rsum length]; replace (INR 2) with 2 by (simpl; lra).
    do 2 f_equal; repeat (f_equal; try lra). }
  rewrite Hl; cbn [bind]; rewrite score_of_logits_formula, score_peaked; reflexivity.
Qed.

Lemma batch_centred_two_batches :
  gan_metrics.classifier_score two_images batch_centred_classifier 2
  = Ok (gan_metrics.scalar float64 1).
Proof.
  rewrite classifier_score_steps.
  assert (Hl : logits_of_batches two_images batch_centred_classifier 2
               = Ok (mkTensor float64 [2%nat; 2%nat] [0; 0; 0; 0])).
  { cbn -[Rplus Rminus Rmult Rdiv Rinv INR ln].
    unfold mean; cbn [rsum length]; replace (INR 1) with 1 by (simpl; lra).
    do 2 f_equal; repeat (f_equal; try lra). }
  rewrite Hl; cbn [bind]; rewrite score_of_logits_formula, score_uniform; reflexivity.
Qed.

(** The claim C1 as stated, for every classifier function, fails: a
    classifier whose output for an image depends on the batch it arrives in
    scores differently when the same two images are split in two. *)
Lemma classifier_score_batch_dependent_counterexample :
  gan_metrics.classifier_score two_images batch_centred_classifier 1
  <> gan_metrics.classifier_score two_images batch_centred_classifier 2.
Proof.
  rewrite batch_centred_one_batch, batch_centred_two_batches.
  intros H; inversion H as [Hv]; exact (peaked_score_above_one Hv).
Qed.

(* ================================================================== *)
(** ** Linear algebra for the matrix square root *)
(* ================================================================== *)

(** ** Finite sums *)

Lemma sum_n_plus (n : nat) (f g : nat -> R) :
  sum_n n (fun k => f k + g k) = sum_n n f + sum_n n g.
Proof. induction n as [| n IH]; simpl; [lra | rewrite IH; lra]. Qed.

Lemma sum_n_minus (n : nat) (f g : nat -> R) :
  sum_n n (fun k => f k - g k) = sum_n n f - sum_n n g.
Proof. induction n as [| n IH]; simpl; [lra | rewrite IH; lra]. Qed.

Lemma sum_n_scal_l (n : nat) (c : R) (f : nat -> R) :
  sum_n n (fun k => c * f k) = c * sum_n n f.
Proof. induction n as [| n IH]; simpl; [lra | rewrite IH; lra]. Qed.

Lemma sum_n_scal_r (n : nat) (c : R) (f : nat -> R) :
  sum_n n (fun k => f k * c) = sum_n n f * c.
Proof. induction n as [| n IH]; simpl; [lra | rewrite IH; lra]. Qed.

Lemma sum_n_zero (n : nat) : sum_n n (fun _ => 0) = 0.
Proof. induction n as [| n IH]; simpl; [reflexivity | rewrite IH; lra]. Qed.

Lemma sum_n_swap (n m : nat) (f : nat -> nat -> R) :
  sum_n n (fun i => sum_n m (fun j => f i j))
  = sum_n m (fun j => sum_n n (fun i => f i j)).
Proof.
  induction n as [| n IH]; simpl.
  - rewrite sum_n_zero; reflexivity.
  - rewrite IH, <- sum_n_plus; reflexivity.
Qed.

(** A sum with a single non-zero term. *)
Lemma sum_n_delta (n i : nat) (f : nat -> R) :
  (i < n)%nat ->
  sum_n n (fun k => if (i =? k)%nat then f k else 0) = f i.
Proof.
  induction n as [| n IH]; intros Hi; [lia |]; simpl.
  destruct (Nat.eqb_spec i n) as [-> | Hne].
  - rewrite (@sum_n_ext n _ (fun _ => 0)), sum_n_zero; [lra |].
    intros k Hk; destruct (Nat.eqb_spec n k); [lia | reflexivity].
  - rewrite IH by lia; lra.
Qed.

Lemma sum_n_nonneg (n : nat) (f : nat -> R) :
  (forall k, (k < n)%nat -> 0 <= f k) -> 0 <= sum_n n f.
Proof.
  induction n as [| n IH]; simpl; intros H; [lra |].
  assert (0 <= sum_n n f) by (apply IH; intros; apply H; lia).
  assert (0 <= f n) by (apply H; lia); lra.
Qed.

Lemma sum_n_nonneg_zero (n : nat) (f : nat -> R) :
  (forall k, (k < n)%nat -> 0 <= f k) -> sum_n n f = 0 ->
  forall k, (k < n)%nat -> f k = 0.
Proof.
  induction n as [| n IH]; simpl; intros H Hs k Hk; [lia |].
  assert (H1 : 0 <= sum_n n f) by (apply sum_n_nonneg; intros; apply H; lia).
  assert (H2 : 0 <= f n) by (apply H; lia).
  destruct (Nat.eq_dec k n) as [-> | Hne]; [lra |].
  apply IH; [intros; apply H; lia | lra | lia].
Qed.

(** ** Matrices of one dimension *)













#[export] Instance meq_equivalence (n : nat) : Equivalence (meq n).
Proof.
  split.
  - intros A i j _ _; reflexivity.
  - intros A B H i j Hi Hj; symmetry; apply H; assumption.
  - intros A B C H1 H2 i j Hi Hj; rewrite H1, H2 by assumption; reflexivity.
Qed.

#[export] Instance matmul_proper (n : nat) :
  Proper (meq n ==> meq n ==> meq n) (matmul n).
Proof.
  intros A A' HA B B' HB i j Hi Hj; unfold matmul.
  apply sum_n_ext; intros k Hk; rewrite HA, HB by assumption; reflexivity.
Qed.

#[export] Instance transpose_proper (n : nat) : Proper (meq n ==> meq n) transpose.
Proof. intros A A' HA i j Hi Hj; unfold transpose; apply HA; assumption. Qed.

#[export] Instance trace_proper (n : nat) : Proper (meq n ==> eq) (tf_trace n).
Proof.
  intros A A' HA; unfold tf_trace; apply sum_n_ext; intros k Hk; apply HA; assumption.
Qed.

#[export] Instance qform_proper (n : nat) : Proper (meq n ==> eq ==> eq) (qform n).
Proof.
  intros A A' HA x x' <-; unfold qform, dot, mulvec.
  apply sum_n_ext; intros i Hi; f_equal.
  apply sum_n_ext; intros j Hj; rewrite HA by assumption; reflexivity.
Qed.

Section Matrices.

Variable n : nat.

Local Notation "A == B" := (meq n A B) (at level 70).
Local Notation "A ** B" := (matmul n A B) (at level 40, left associativity).
Local Notation "A ^T" := (transpose A) (at level 1, format "A ^T").

Lemma matmul_assoc (A B C : mat) : (A ** B) ** C = A ** (B ** C).
Proof.
  extensionality i; extensionality j; unfold matmul.
  rewrite (@sum_n_ext n _ (fun k => sum_n n (fun l => A i l * B l k * C k j)))
    by (intros k _; rewrite <- sum_n_scal_r; reflexivity).
  rewrite sum_n_swap; apply sum_n_ext; intros l _.
  rewrite <- sum_n_scal_l; apply sum_n_ext; intros k _; lra.
Qed.

Lemma transpose_matmul (A B : mat) : (A ** B)^T = B^T ** A^T.
Proof.
  extensionality i; extensionality j; unfold matmul, transpose.
  apply sum_n_ext; intros k _; lra.
Qed.

Lemma transpose_involutive (A : mat) : (A^T)^T = A.
Proof. reflexivity. Qed.

Lemma transpose_diag (s : vec) : (diag s)^T == diag s.
Proof.
  intros i j _ _; unfold transpose, diag.
  rewrite Nat.eqb_sym; destruct (Nat.eqb_spec i j) as [-> | _]; reflexivity.
Qed.

Lemma matmul_diag_l (s : vec) (A : mat) (i j : nat) :
  (i < n)%nat -> (diag s ** A) i j = s i * A i j.
Proof.
  intros Hi; unfold matmul, diag.
  rewrite (@sum_n_ext n _ (fun k => if (i =? k)%nat then s i * A k j else 0))
    by (intros k _; destruct (i =? k)%nat; lra).
  apply (sum_n_delta (fun k => s i * A k j)); exact Hi.
Qed.

Lemma matmul_diag_r (s : vec) (A : mat) (i j : nat) :
  (j < n)%nat -> (A ** diag s) i j = A i j * s j.
Proof.
  intros Hj; unfold matmul, diag.
  rewrite (@sum_n_ext n _ (fun k => if (j =? k)%nat then A i k * s k else 0))
    by (intros k _; rewrite (Nat.eqb_sym k j); destruct (j =? k)%nat; lra).
  apply (sum_n_delta (fun k => A i k * s k)); exact Hj.
Qed.

Lemma matmul_id_l (A : mat) : identity ** A == A.
Proof. intros i j Hi _; unfold identity; rewrite matmul_diag_l by exact Hi; lra. Qed.

Lemma matmul_id_r (A : mat) : A ** identity == A.
Proof. intros i j _ Hj; unfold identity; rewrite matmul_diag_r by exact Hj; lra. Qed.

Lemma trace_cyclic (A B : mat) : tf_trace n (A ** B) = tf_trace n (B ** A).
Proof.
  unfold tf_trace, matmul; rewrite sum_n_swap.
  apply sum_n_ext; intros k _; apply sum_n_ext; intros i _; lra.
Qed.

(** The quadratic form as an entry of a matrix product. *)
Lemma qform_as_product (M : mat) (x : vec) :
  qform n M x = ((col x)^T ** (M ** col x)) 0%nat 0%nat.
Proof. reflexivity. Qed.

Lemma matmul_col (U : mat) (y : vec) : U ** col y = col (mulvec n U y).
Proof. reflexivity. Qed.

Lemma qform_conjugate (U M : mat) (y : vec) :
  qform n (U^T ** (M ** U)) y = qform n M (mulvec n U y).
Proof.
  rewrite !qform_as_product, <- matmul_col.
  rewrite transpose_matmul, !matmul_assoc; reflexivity.
Qed.

Lemma qform_identity (x : vec) : qform n identity x = dot n x x.
Proof.
  unfold qform, dot; apply sum_n_ext; intros i Hi; f_equal.
  unfold mulvec, identity, diag.
  rewrite (@sum_n_ext n _ (fun k => if (i =? k)%nat then x k else 0))
    by (intros k _; destruct (i =? k)%nat; lra).
  apply sum_n_delta; exact Hi.
Qed.

Lemma dot_orthogonal (U : mat) (y : vec) :
  orthogonal n U -> dot n (mulvec n U y) (mulvec n U y) = dot n y y.
Proof.
  intros [HU _].
  rewrite <- !qform_identity, <- qform_conjugate.
  assert (H : U^T ** (identity ** U) == identity)
    by (rewrite matmul_id_l; exact HU).
  rewrite H; reflexivity.
Qed.

Lemma dot_nonneg (x : vec) : 0 <= dot n x x.
Proof. apply sum_n_nonneg; intros k _; nra. Qed.


(** *** The positive semi-definite square root of a diagonal matrix *)

Section DiagonalRoot.

Variable N : mat.
Variable s : vec.

Hypothesis N_sym : symmetric n N.
Hypothesis N_psd : psd n N.
Hypothesis s_nonneg : forall i, (i < n)%nat -> 0 <= s i.
Hypothesis N_squared : N ** N == diag (fun i => s i * s i).

Lemma root_square_entry (i j : nat) :
  (i < n)%nat -> (j < n)%nat ->
  sum_n n (fun k => N i k * N k j) = if (i =? j)%nat then s i * s i else 0.
Proof. intros Hi Hj; exact (N_squared Hi Hj). Qed.

Lemma root_commutes_squares (i j : nat) :
  (i < n)%nat -> (j < n)%nat -> N i j * (s j * s j) = s i * s i * N i j.
Proof.
  intros Hi Hj.
  assert (H : ((N ** N) ** N) i j = (N ** (N ** N)) i j) by (rewrite matmul_assoc; reflexivity).
  assert (HL : ((N ** N) ** N) i j = s i * s i * N i j).
  { unfold matmul at 1.
    rewrite (@sum_n_ext n _ (fun k => if (i =? k)%nat then s i * s i * N k j else 0)).
    - apply (sum_n_delta (fun k => s i * s i * N k j)); exact Hi.
    - intros k Hk; rewrite (N_squared Hi Hk); unfold diag; destruct (i =? k)%nat; lra. }
  assert (HR : (N ** (N ** N)) i j = N i j * (s j * s j)).
  { unfold matmul at 1.
    rewrite (@sum_n_ext n _ (fun k => if (j =? k)%nat then N i k * (s k * s k) else 0)).
    - apply (sum_n_delta (fun k => N i k * (s k * s k))); exact Hj.
    - intros k Hk; rewrite (N_squared Hk Hj); unfold diag.
      rewrite (Nat.eqb_sym k j); destruct (j =? k)%nat; lra. }
  lra.
Qed.

Lemma root_commutes (i j : nat) :
  (i < n)%nat -> (j < n)%nat -> N i j * s j = s i * N i j.
Proof.
  intros Hi Hj.
  pose proof (root_commutes_squares Hi Hj) as H.
  pose proof (s_nonneg Hi) as Hsi; pose proof (s_nonneg Hj) as Hsj.
  destruct (Req_dec (s i + s j) 0) as [H0 | H0].
  - assert (s i = 0) by lra; assert (s j = 0) by lra; nra.
  - assert (Hf : (N i j * s j - s i * N i j) * (s i + s j) = 0) by nra.
    apply Rmult_integral in Hf; destruct Hf; [lra | contradiction].
Qed.


(** Column [j] of [N - diag s]. *)
Let residual : nat -> vec := residual_column N s.

Lemma residual_killed (i j : nat) :
  (i < n)%nat -> (j < n)%nat ->
  mulvec n N (residual j) i + s i * residual j i = 0.
Proof.
  intros Hi Hj; unfold mulvec, residual, residual_column.
  rewrite (@sum_n_ext n _ (fun k => N i k * N k j - (if (j =? k)%nat then N i k * s k else 0)))
    by (intros k _; unfold diag; rewrite (Nat.eqb_sym k j); destruct (j =? k)%nat; lra).
  rewrite sum_n_minus, root_square_entry by assumption.
  rewrite (sum_n_delta (fun k => N i k * s k)) by exact Hj.
  pose proof (root_commutes Hi Hj) as Hc.
  unfold diag; destruct (Nat.eqb_spec i j) as [-> | _]; lra.
Qed.

Lemma residual_forms (j : nat) :
  (j < n)%nat ->
  qform n N (residual j)
  + sum_n n (fun i => s i * (residual j i * residual j i)) = 0.
Proof.
  intros Hj; unfold qform, dot; rewrite <- sum_n_plus.
  rewrite (@sum_n_ext n _ (fun _ => 0)); [apply sum_n_zero |].
  intros i Hi; pose proof (residual_killed Hi Hj); nra.
Qed.

Lemma residual_zero (i j : nat) :
  (i < n)%nat -> (j < n)%nat -> residual j i = 0.
Proof.
  intros Hi Hj.
  pose proof (residual_forms Hj) as Hsum.
  pose proof (N_psd (residual j)) as Hq.
  assert (Hw : 0 <= sum_n n (fun i => s i * (residual j i * residual j i))).
  { apply sum_n_nonneg; intros k Hk; pose proof (s_nonneg Hk); nra. }
  assert (Hw0 : forall k, (k < n)%nat -> s k * (residual j k * residual j k) = 0).
  { apply sum_n_nonneg_zero; [| lra].
    intros k Hk; pose proof (s_nonneg Hk); nra. }
  assert (Hsz : forall k, (k < n)%nat -> s k * residual j k = 0).
  { intros k Hk; apply Rsqr_0_uniq; unfold Rsqr.
    replace (s k * residual j k * (s k * residual j k))
      with (s k * (s k * (residual j k * residual j k))) by ring.
    rewrite (Hw0 k Hk); ring. }
  assert (HNz : forall k, (k < n)%nat -> mulvec n N (residual j) k = 0).
  { intros k Hk; pose proof (residual_killed Hk Hj); pose proof (Hsz k Hk); lra. }
  assert (Hnorm : dot n (residual j) (residual j) = 0).
  { unfold dot.
    rewrite (@sum_n_ext n _
               (fun k => N j k * residual j k
                         - (if (j =? k)%nat then s k * residual j k else 0))).
    - rewrite sum_n_minus, (sum_n_delta (fun k => s k * residual j k)) by exact Hj.
      pose proof (HNz j Hj) as H1; unfold mulvec in H1; rewrite H1, Hsz by exact Hj; lra.
    - intros k Hk.
      assert (Hz : residual j k = N j k - (if (j =? k)%nat then s k else 0)).
      { unfold residual, residual_column, diag; rewrite (Nat.eqb_sym k j).
        pose proof (N_sym Hk Hj) as Hs; unfold transpose in Hs; rewrite Hs.
        reflexivity. }
      rewrite Hz at 1; destruct (j =? k)%nat; ring. }
  assert (Hsq : residual j i * residual j i = 0).
  { apply (sum_n_nonneg_zero (n := n) (fun k => residual j k * residual j k));
      [intros; nra | exact Hnorm | exact Hi]. }
  apply Rsqr_0_uniq; exact Hsq.
Qed.

(** A symmetric positive semi-definite matrix whose square is [diag(s^2)],
    [s >= 0], is [diag s]. *)
Lemma diagonal_root_unique : N == diag s.
Proof.
  intros i j Hi Hj; pose proof (residual_zero Hi Hj) as H.
  unfold residual, residual_column in H; lra.
Qed.

End DiagonalRoot.

Lemma diag_squared (s : vec) : diag s ** diag s == diag (fun i => s i * s i).
Proof.
  intros i j Hi _; rewrite matmul_diag_l by exact Hi.
  unfold diag; destruct (i =? j)%nat; lra.
Qed.

Lemma qform_diag (d x : vec) : qform n (diag d) x = sum_n n (fun i => d i * (x i * x i)).
Proof.
  unfold qform, dot; apply sum_n_ext; intros i Hi.
  change (mulvec n (diag d) x i) with ((diag d ** col x) i 0%nat).
  rewrite matmul_diag_l by exact Hi; unfold col; ring.
Qed.


Lemma dot_unit (i : nat) : (i < n)%nat -> dot n (unit_vec i) (unit_vec i) = 1.
Proof.
  intros Hi; unfold dot, unit_vec.
  rewrite (@sum_n_ext n _ (fun k => if (i =? k)%nat then 1 else 0))
    by (intros k _; destruct (i =? k)%nat; lra).
  apply (sum_n_delta (fun _ => 1)); exact Hi.
Qed.

Lemma qform_diag_unit (d : vec) (i : nat) :
  (i < n)%nat -> qform n (diag d) (unit_vec i) = d i.
Proof.
  intros Hi; rewrite qform_diag; unfold unit_vec.
  rewrite (@sum_n_ext n _ (fun k => if (i =? k)%nat then d k else 0))
    by (intros k _; destruct (i =? k)%nat; lra).
  apply sum_n_delta; exact Hi.
Qed.

(** *** The decomposition of a symmetric positive semi-definite matrix *)

Section DecompositionOfPsd.

Variable M : mat.
Variable s : vec.
Variables u v : mat.

Hypothesis M_sym : symmetric n M.
Hypothesis M_psd : psd n M.
Hypothesis s_nonneg : forall i, (i < n)%nat -> 0 <= s i.
Hypothesis u_orth : orthogonal n u.
Hypothesis v_orth : orthogonal n v.
Hypothesis M_usv : M == u ** diag s ** v^T.

(** [u^T M u], which turns out to be [diag s]. *)
Let N : mat := u^T ** (M ** u).
Let Q : mat := v^T ** u.

Lemma conj_is_sQ : N == diag s ** Q.
Proof.
  unfold N, Q; rewrite M_usv, !matmul_assoc.
  rewrite <- (matmul_assoc u^T u); rewrite (proj1 u_orth), matmul_id_l; reflexivity.
Qed.

Lemma conj_sym : symmetric n N.
Proof.
  unfold symmetric, N.
  rewrite !transpose_matmul, transpose_involutive, matmul_assoc.
  red in M_sym; rewrite M_sym; reflexivity.
Qed.

Lemma conj_psd : psd n N.
Proof. intros y; unfold N; rewrite qform_conjugate; apply M_psd. Qed.

Lemma Q_orth_r : Q ** Q^T == identity.
Proof.
  unfold Q; rewrite transpose_matmul, transpose_involutive, !matmul_assoc.
  rewrite <- (matmul_assoc u u^T); rewrite (proj2 u_orth), matmul_id_l.
  exact (proj1 v_orth).
Qed.

Lemma conj_squared : N ** N == diag (fun i => s i * s i).
Proof.
  assert (Hs : N^T == N) by exact conj_sym.
  assert (H : N ** N == N ** N^T) by (rewrite Hs; reflexivity).
  rewrite H, conj_is_sQ, transpose_matmul, !matmul_assoc.
  rewrite <- (matmul_assoc Q Q^T); rewrite Q_orth_r, matmul_id_l, transpose_diag.
  apply diag_squared.
Qed.

Lemma conj_is_diag : N == diag s.
Proof.
  apply diagonal_root_unique;
    [exact conj_sym | exact conj_psd | exact s_nonneg | exact conj_squared].
Qed.

Lemma sQ_is_diag (i j : nat) :
  (i < n)%nat -> (j < n)%nat -> s i * Q i j = diag s i j.
Proof.
  intros Hi Hj; rewrite <- (conj_is_diag Hi Hj), (conj_is_sQ Hi Hj).
  rewrite matmul_diag_l by exact Hi; reflexivity.
Qed.

(** The singular values are bounded below like the eigenvalues. *)
Lemma singular_values_at_least (c : R) (i : nat) :
  eigenvalues_at_least n M c -> (i < n)%nat -> c <= s i.
Proof.
  intros Hc Hi.
  rewrite <- (qform_diag_unit s Hi), <- conj_is_diag; unfold N.
  rewrite qform_conjugate.
  pose proof (Hc (mulvec n u (unit_vec i))) as H.
  rewrite (dot_orthogonal _ u_orth), (dot_unit Hi) in H; lra.
Qed.

(** Rebuilding with [f s] in place of [s], for [f] with [f x * f x = x] on
    the singular values, gives a square root of [M]. *)
Lemma rebuilt_root (si : vec) :
  (forall i, (i < n)%nat -> si i * si i = s i) ->
  (u ** diag si ** v^T) ** (u ** diag si ** v^T) == M.
Proof.
  intros Hsi.
  assert (Hmid : diag si ** Q ** diag si == diag s).
  { intros i j Hi Hj.
    rewrite matmul_diag_r, matmul_diag_l by assumption.
    pose proof (sQ_is_diag Hi Hj) as H; pose proof (Hsi i Hi) as H1.
    unfold diag in *; destruct (Nat.eqb_spec i j) as [<- | Hne].
    - destruct (Req_dec (s i) 0) as [H0 | H0].
      + assert (si i = 0) by (apply Rsqr_0_uniq; unfold Rsqr; lra). nra.
      + assert (Q i i = 1) by (apply (Rmult_eq_reg_l (s i)); lra). nra.
    - destruct (Req_dec (s i) 0) as [H0 | H0].
      + assert (si i = 0) by (apply Rsqr_0_uniq; unfold Rsqr; lra). nra.
      + assert (Q i j = 0) by (apply (Rmult_eq_reg_l (s i)); lra). nra. }
  rewrite M_usv, <- Hmid; unfold Q; rewrite !matmul_assoc; reflexivity.
Qed.

End DecompositionOfPsd.

Lemma diag_ext (s s' : vec) :
  (forall i, (i < n)%nat -> s i = s' i) -> diag s == diag s'.
Proof.
  intros H i j Hi _; unfold diag; rewrite (H i Hi); reflexivity.
Qed.

Lemma identity_symmetric : symmetric n identity.
Proof. exact (transpose_diag (fun _ => 1)). Qed.

Lemma identity_psd : psd n identity.
Proof. intros x; rewrite qform_identity; apply dot_nonneg. Qed.

(** *** _symmetric_matrix_square_root *)

Section SquareRootProperties.

Import gan_metrics.

Variable svd : nat -> mat -> vec * mat * mat.

Lemma square_root_unfold (M : mat) (eps : R) :
  _symmetric_matrix_square_root svd n M eps
  = u_of (svd n M) ** diag (guarded_sqrt eps (s_of (svd n M))) ** (v_of (svd n M))^T.
Proof.
  unfold _symmetric_matrix_square_root, u_of, s_of, v_of.
  destruct (svd n M) as [[s u] v]; reflexivity.
Qed.

Lemma svd_spec_parts (M : mat) :
  svd_spec n M (svd n M) ->
  (forall i, (i < n)%nat -> 0 <= s_of (svd n M) i) /\
  orthogonal n (u_of (svd n M)) /\ orthogonal n (v_of (svd n M)) /\
  M == u_of (svd n M) ** diag (s_of (svd n M)) ** (v_of (svd n M))^T.
Proof.
  unfold svd_spec, s_of, u_of, v_of; destruct (svd n M) as [[s u] v]; simpl; tauto.
Qed.

Lemma guarded_sqrt_cases (eps : R) (s : vec) (i : nat) :
  (s i < eps -> guarded_sqrt eps s i = s i) /\
  (~ s i < eps -> guarded_sqrt eps s i = sqrt (s i)).
Proof.
  unfold guarded_sqrt; destruct (Rlt_dec (s i) eps); split; intros H;
    try reflexivity; contradiction.
Qed.

Lemma square_root_squares (M : mat) (eps : R) :
  symmetric n M -> psd n M -> eigenvalues_at_least n M eps ->
  svd_spec n M (svd n M) ->
  _symmetric_matrix_square_root svd n M eps
    ** _symmetric_matrix_square_root svd n M eps == M.
Proof.
  intros Hsym Hpsd Heig Hsvd.
  destruct (@svd_spec_parts _ Hsvd) as (Hs & Hu & Hv & HM).
  rewrite square_root_unfold.
  apply (rebuilt_root Hsym Hpsd Hs Hu Hv HM).
  intros i Hi.
  pose proof (singular_values_at_least Hsym Hpsd Hs Hu Hv HM Heig Hi) as Hle.
  rewrite (proj2 (guarded_sqrt_cases eps _ i)) by lra.
  apply sqrt_sqrt, Hs, Hi.
Qed.

Lemma square_root_identity (eps : R) :
  svd_spec n identity (svd n identity) ->
  _symmetric_matrix_square_root svd n identity eps == identity.
Proof.
  intros Hsvd.
  destruct (@svd_spec_parts _ Hsvd) as (Hs & Hu & Hv & HM).
  rewrite square_root_unfold.
  set (s := s_of (svd n identity)) in *.
  set (u := u_of (svd n identity)) in *.
  set (v := v_of (svd n identity)) in *.
  assert (Hdiag : u^T ** (identity ** u) == diag s)
    by exact (conj_is_diag identity_symmetric identity_psd Hs Hu Hv HM).
  assert (Hone : forall i, (i < n)%nat -> s i = 1).
  { intros i Hi.
    assert (H : u^T ** (identity ** u) == identity)
      by (rewrite matmul_id_l; exact (proj1 Hu)).
    rewrite H in Hdiag; specialize (Hdiag i i Hi Hi).
    unfold identity, diag in Hdiag; rewrite Nat.eqb_refl in Hdiag; lra. }
  rewrite (@diag_ext (guarded_sqrt eps s) s).
  - symmetry; exact HM.
  - intros i Hi; unfold guarded_sqrt; rewrite (Hone i Hi).
    destruct (Rlt_dec 1 eps); [reflexivity | apply sqrt_1].
Qed.

(** C2. For a symmetric positive semi-definite matrix [M] all of whose
    eigenvalues are at least [eps], decomposed by [tf.svd], the matrix
    [M'] returned by [_symmetric_matrix_square_root] satisfies
    [M' M' = M]; the identity matrix is mapped to itself; and the result is
    always [u diag(si) v^T] where [si] keeps the singular values below
    [eps] as they are and is the square root of the others. *)
Theorem symmetric_matrix_square_root_correct (eps : R) :
  (forall M,
     symmetric n M -> psd n M -> eigenvalues_at_least n M eps ->
     svd_spec n M (svd n M) ->
     _symmetric_matrix_square_root svd n M eps
       ** _symmetric_matrix_square_root svd n M eps == M) /\
  (svd_spec n identity (svd n identity) ->
   _symmetric_matrix_square_root svd n identity eps == identity) /\
  (forall M,
     exists si,
       _symmetric_matrix_square_root svd n M eps
       = u_of (svd n M) ** diag si ** (v_of (svd n M))^T /\
       forall i,
         (s_of (svd n M) i < eps -> si i = s_of (svd n M) i) /\
         (~ s_of (svd n M) i < eps -> si i = sqrt (s_of (svd n M) i))).
Proof.
  split; [| split].
  - intros M; apply square_root_squares.
  - apply square_root_identity.
  - intros M; exists (guarded_sqrt eps (s_of (svd n M))); split.
    + apply square_root_unfold.
    + intros i; apply guarded_sqrt_cases.
Qed.

End SquareRootProperties.

End Matrices.


Lemma svd_1x1_spec (M : mat) : svd_spec 1 M (svd_1x1 1 M).
Proof.
  unfold svd_spec, svd_1x1; repeat split.
  - intros i _; apply Rabs_pos.
  - intros i j Hi Hj; replace i with 0%nat by lia; replace j with 0%nat by lia.
    unfold matmul, transpose, identity, diag; simpl.
    destruct (Rle_dec 0 (M 0%nat 0%nat)); lra.
  - intros i j Hi Hj; replace i with 0%nat by lia; replace j with 0%nat by lia.
    unfold matmul, transpose, identity, diag; simpl.
    destruct (Rle_dec 0 (M 0%nat 0%nat)); lra.
  - intros i j Hi Hj; replace i with 0%nat by lia; replace j with 0%nat by lia.
    unfold matmul, transpose, identity, diag; simpl; lra.
  - intros i j Hi Hj; replace i with 0%nat by lia; replace j with 0%nat by lia.
    unfold matmul, transpose, identity, diag; simpl; lra.
  - intros i j Hi Hj; replace i with 0%nat by lia; replace j with 0%nat by lia.
    unfold matmul, transpose, diag; simpl.
    destruct (Rle_dec 0 (M 0%nat 0%nat)) as [H | H].
    + rewrite Rabs_right by lra; lra.
    + rewrite Rabs_left by lra; lra.
Qed.

Lemma default_eps_bounds : 0 < gan_metrics.default_eps < 1.
Proof.
  unfold gan_metrics.default_eps.
  assert (H : 1 < 10 ^ 10) by (simpl; lra).
  split.
  - apply Rinv_0_lt_compat; lra.
  - rewrite <- Rinv_1; apply Rinv_lt_contravar; lra.
Qed.


Lemma constant_matrix_symmetric (c : R) : symmetric 1 (constant_matrix c).
Proof. intros i j _ _; reflexivity. Qed.

Lemma constant_matrix_qform (c : R) (x : vec) :
  qform 1 (constant_matrix c) x = c * (x 0%nat * x 0%nat).
Proof. unfold qform, dot, mulvec, constant_matrix; simpl; ring. Qed.

Lemma dot_1 (x : vec) : dot 1 x x = x 0%nat * x 0%nat.
Proof. unfold dot; simpl; ring. Qed.

Lemma constant_matrix_psd (c : R) : 0 <= c -> psd 1 (constant_matrix c).
Proof. intros Hc x; rewrite constant_matrix_qform; nra. Qed.

Lemma constant_matrix_eigenvalues (c a : R) :
  a <= c -> eigenvalues_at_least 1 (constant_matrix c) a.
Proof. intros Hc x; rewrite constant_matrix_qform, dot_1; nra. Qed.

Lemma symmetric_matrix_square_root_correct_witness :
  matmul 1
    (gan_metrics._symmetric_matrix_square_root svd_1x1 1 (constant_matrix 4)
       gan_metrics.default_eps)
    (gan_metrics._symmetric_matrix_square_root svd_1x1 1 (constant_matrix 4)
       gan_metrics.default_eps) 0%nat 0%nat
  = 4.
Proof.
  apply (proj1 (symmetric_matrix_square_root_correct 1 svd_1x1 gan_metrics.default_eps)
           (constant_matrix 4)).
  - apply constant_matrix_symmetric.
  - apply constant_matrix_psd; lra.
  - apply constant_matrix_eigenvalues; pose proof default_eps_bounds; lra.
  - apply svd_1x1_spec.
  - lia.
  - lia.
Defined.

(* ================================================================== *)
(** ** The trace of the square root of a product *)
(* ================================================================== *)

Section TraceOfRoots.

Variable n : nat.

Local Notation "A == B" := (meq n A B) (at level 70).
Local Notation "A ** B" := (matmul n A B) (at level 40, left associativity).
Local Notation "A ^T" := (transpose A) (at level 1, format "A ^T").


Lemma conjugate_diag_symmetric (u : mat) (d : vec) :
  symmetric n (u ** diag d ** u^T).
Proof.
  unfold symmetric.
  rewrite !transpose_matmul, transpose_involutive, transpose_diag, matmul_assoc.
  reflexivity.
Qed.

Lemma qform_diag_nonneg (d x : vec) :
  (forall i, (i < n)%nat -> 0 <= d i) -> 0 <= qform n (diag d) x.
Proof.
  intros Hd; rewrite qform_diag; apply sum_n_nonneg; intros i Hi.
  pose proof (Hd i Hi); nra.
Qed.

Lemma conjugate_diag_psd (u : mat) (d : vec) :
  (forall i, (i < n)%nat -> 0 <= d i) -> psd n (u ** diag d ** u^T).
Proof.
  intros Hd x.
  assert (H : u ** diag d ** u^T = (u^T)^T ** (diag d ** u^T))
    by (rewrite transpose_involutive, matmul_assoc; reflexivity).
  rewrite H, qform_conjugate; apply qform_diag_nonneg; exact Hd.
Qed.

Lemma diag_product (d e : vec) : diag d ** diag e == diag (fun i => d i * e i).
Proof.
  intros i j Hi _; rewrite matmul_diag_l by exact Hi.
  unfold diag; destruct (i =? j)%nat; lra.
Qed.

Lemma conjugate_diag_product (u : mat) (d e : vec) :
  orthogonal n u ->
  (u ** diag d ** u^T) ** (u ** diag e ** u^T) == u ** diag (fun i => d i * e i) ** u^T.
Proof.
  intros [Hu _].
  rewrite !matmul_assoc, <- (matmul_assoc n u^T u), Hu, matmul_id_l.
  rewrite <- (matmul_assoc n (diag d) (diag e)), diag_product; reflexivity.
Qed.

Lemma conjugate_identity (u : mat) :
  orthogonal n u -> u ** diag (fun _ => 1) ** u^T == identity.
Proof.
  intros [_ Hu]; fold identity; rewrite matmul_id_r; exact Hu.
Qed.

Section Roots.

Variables P u : mat.
Variable d : vec.

Hypothesis P_form : spd_form n P u d.

(** The inverse of [P]. *)
Let Pinv : mat := u ** diag (fun i => / d i) ** u^T.

Lemma Pinv_right : P ** Pinv == identity.
Proof.
  destruct P_form as (Hu & Hd & HP); unfold Pinv.
  rewrite HP, (conjugate_diag_product _ _ Hu).
  rewrite (@diag_ext n (fun i => d i * / d i) (fun _ => 1))
    by (intros i Hi; pose proof (Hd i Hi); field; lra).
  apply conjugate_identity; exact Hu.
Qed.

Lemma Pinv_left : Pinv ** P == identity.
Proof.
  destruct P_form as (Hu & Hd & HP); unfold Pinv.
  rewrite HP, (conjugate_diag_product _ _ Hu).
  rewrite (@diag_ext n (fun i => / d i * d i) (fun _ => 1))
    by (intros i Hi; pose proof (Hd i Hi); field; lra).
  apply conjugate_identity; exact Hu.
Qed.

End Roots.

Lemma symmetric_meq (A A' : mat) : A == A' -> symmetric n A' -> symmetric n A.
Proof. unfold symmetric; intros H H'; rewrite H; exact H'. Qed.

Lemma eigenvalues_psd (M : mat) (c : R) :
  0 <= c -> eigenvalues_at_least n M c -> psd n M.
Proof. intros Hc H x; pose proof (H x); pose proof (dot_nonneg n x); nra. Qed.

Lemma eigenvalues_weaken (M : mat) (c c' : R) :
  c' <= c -> eigenvalues_at_least n M c -> eigenvalues_at_least n M c'.
Proof. intros Hc H x; pose proof (H x); pose proof (dot_nonneg n x); nra. Qed.

Section RootForm.

Import gan_metrics.

Variable svd : nat -> mat -> vec * mat * mat.

(** With all eigenvalues at least [c >= eps > 0] nothing is kept
    un-rooted, [u] and [v] agree, and the square root is symmetric positive
    definite. *)
Lemma square_root_spd_form (M : mat) (eps c : R) :
  0 < eps -> eps <= c ->
  symmetric n M -> eigenvalues_at_least n M c ->
  svd_spec n M (svd n M) ->
  spd_form n (_symmetric_matrix_square_root svd n M eps)
    (u_of (svd n M)) (fun i => sqrt (s_of (svd n M) i)) /\
  _symmetric_matrix_square_root svd n M eps
    ** _symmetric_matrix_square_root svd n M eps == M.
Proof.
  intros Heps Hc Hsym Heig Hsvd.
  assert (Hpsd : psd n M) by (apply (@eigenvalues_psd M c); [lra | exact Heig]).
  assert (Heig' : eigenvalues_at_least n M eps)
    by (apply (@eigenvalues_weaken M c); assumption).
  split; [| apply square_root_squares; assumption].
  destruct (@svd_spec_parts n svd M Hsvd) as (Hs & Hu & Hv & HM).
  set (s := s_of (svd n M)) in *.
  set (u := u_of (svd n M)) in *.
  set (v := v_of (svd n M)) in *.
  assert (Hspos : forall i, (i < n)%nat -> eps <= s i).
  { intros i Hi.
    exact (singular_values_at_least Hsym Hpsd Hs Hu Hv HM Heig' Hi). }
  assert (HQ : v^T ** u == identity).
  { intros i j Hi Hj.
    pose proof (sQ_is_diag Hsym Hpsd Hs Hu Hv HM Hi Hj) as H.
    pose proof (Hspos i Hi) as Hsi.
    apply (Rmult_eq_reg_l (s i)); [| lra].
    rewrite H; unfold identity, diag; destruct (i =? j)%nat; lra. }
  assert (Hvu : v == u).
  { assert (H : v == v ** (v^T ** u)) by (rewrite HQ, matmul_id_r; reflexivity).
    rewrite H, <- matmul_assoc, (proj2 Hv), matmul_id_l; reflexivity. }
  repeat split.
  - exact (proj1 Hu).
  - exact (proj2 Hu).
  - intros i Hi; apply sqrt_lt_R0; pose proof (Hspos i Hi); lra.
  - rewrite square_root_unfold; fold s u v.
    rewrite Hvu.
    rewrite (@diag_ext n (guarded_sqrt eps s) (fun i => sqrt (s i))); [reflexivity |].
    intros i Hi; pose proof (Hspos i Hi).
    apply (proj2 (guarded_sqrt_cases eps s i)); lra.
Qed.

Lemma conjugated_symmetric (A S_v : mat) :
  symmetric n A -> symmetric n S_v -> symmetric n (A ** (S_v ** A)).
Proof.
  unfold symmetric; intros HA HS.
  rewrite !transpose_matmul, HA, HS, matmul_assoc; reflexivity.
Qed.

Lemma conjugated_eigenvalues (A S S_v : mat) (a b : R) :
  symmetric n A -> A ** A == S ->
  eigenvalues_at_least n S a -> eigenvalues_at_least n S_v b -> 0 <= b ->
  eigenvalues_at_least n (A ** (S_v ** A)) (a * b).
Proof.
  intros HA HAA HS HSv Hb x.
  red in HA.
  assert (H1 : A ** (S_v ** A) == A^T ** (S_v ** A)) by (rewrite HA; reflexivity).
  rewrite H1, qform_conjugate.
  pose proof (HSv (mulvec n A x)) as H2.
  assert (H3 : dot n (mulvec n A x) (mulvec n A x) = qform n S x).
  { rewrite <- qform_identity, <- qform_conjugate.
    assert (H : A^T ** (identity ** A) == S) by (rewrite matmul_id_l, HA; exact HAA).
    rewrite H; reflexivity. }
  rewrite H3 in H2; pose proof (HS x) as H4.
  pose proof (dot_nonneg n x); nra.
Qed.

End RootForm.

(** *** Roots with the guard, of matrices that may be singular *)

Section GuardedRoots.

Import gan_metrics.

Variable svd : nat -> mat -> vec * mat * mat.

Section OfPsd.

Variable M : mat.
Hypothesis M_sym : symmetric n M.
Hypothesis M_psd : psd n M.
Hypothesis M_svd : svd_spec n M (svd n M).

Let s : vec := s_of (svd n M).
Let u : mat := u_of (svd n M).
Let v : mat := v_of (svd n M).

Lemma psd_parts :
  (forall i, (i < n)%nat -> 0 <= s i) /\ orthogonal n u /\ orthogonal n v /\
  M == u ** diag s ** v^T.
Proof. exact (@svd_spec_parts n svd M M_svd). Qed.

(** A symmetric positive semi-definite matrix is diagonalised by the
    [u] of its decomposition, the singular values being its eigenvalues. *)
Lemma psd_conjugated : u^T ** (M ** u) == diag s.
Proof.
  destruct psd_parts as (Hs & Hu & Hv & HM).
  exact (conj_is_diag M_sym M_psd Hs Hu Hv HM).
Qed.

Lemma psd_columns : M ** u == u ** diag s.
Proof.
  destruct psd_parts as (Hs & Hu & Hv & HM).
  rewrite <- psd_conjugated, <- matmul_assoc, (proj2 Hu), matmul_id_l; reflexivity.
Qed.

Lemma psd_diagonalised : M == u ** diag s ** u^T.
Proof.
  destruct psd_parts as (Hs & Hu & Hv & HM).
  rewrite <- psd_columns, matmul_assoc, (proj2 Hu), matmul_id_r; reflexivity.
Qed.

Lemma singular_value_is_eigenvalue (i : nat) :
  (i < n)%nat -> eigenvalue n M (s i).
Proof.
  intros Hi; destruct psd_parts as (Hs & Hu & Hv & HM).
  exists (fun k => u k i); split.
  - pose proof (proj1 Hu i i Hi Hi) as H; unfold matmul, transpose in H.
    unfold dot; rewrite H; unfold identity, diag; rewrite Nat.eqb_refl; lra.
  - intros k Hk; pose proof (psd_columns Hk Hi) as H.
    rewrite matmul_diag_r in H by exact Hi.
    unfold mulvec; unfold matmul in H; rewrite H; ring.
Qed.

(** Without eigenvalues strictly between 0 and [eps], every singular
    value is 0 or at least [eps]. *)
Lemma singular_values_outside (eps : R) (i : nat) :
  no_eigenvalue_between n M 0 eps -> (i < n)%nat -> s i = 0 \/ eps <= s i.
Proof.
  intros Hno Hi; destruct psd_parts as (Hs & _).
  pose proof (Hno _ (singular_value_is_eigenvalue Hi)) as H.
  pose proof (Hs i Hi) as H0.
  destruct (Req_dec (s i) 0) as [Hz | Hz]; [left; exact Hz | right].
  destruct (Rle_dec eps (s i)) as [Hle | Hnle]; [exact Hle |].
  exfalso; apply H; lra.
Qed.

(** Where the singular value is not 0 the columns of [u] and [v] agree. *)
Lemma psd_same_columns (i k : nat) :
  (i < n)%nat -> (k < n)%nat -> s i <> 0 -> v k i = u k i.
Proof.
  intros Hi Hk Hsi; destruct psd_parts as (Hs & Hu & Hv & HM).
  assert (HQ : forall j, (j < n)%nat -> (v^T ** u) i j = identity i j).
  { intros j Hj; pose proof (sQ_is_diag M_sym M_psd Hs Hu Hv HM Hi Hj) as H.
    apply (Rmult_eq_reg_l (s i)); [| exact Hsi].
    rewrite H; unfold identity, diag; destruct (i =? j)%nat; lra. }
  assert (Hv' : v^T == (v^T ** u) ** u^T)
    by (rewrite matmul_assoc, (proj2 Hu), matmul_id_r; reflexivity).
  pose proof (Hv' i k Hi Hk) as H; unfold transpose at 1 in H; rewrite H.
  unfold matmul at 1.
  rewrite (@sum_n_ext n _ (fun j => identity i j * u^T j k))
    by (intros j Hj; rewrite (HQ j Hj); reflexivity).
  change (sum_n n (fun j => identity i j * u^T j k)) with ((identity ** u^T) i k).
  rewrite (matmul_id_l _ Hi Hk); reflexivity.
Qed.

(** Rebuilding with values [f] that vanish where the singular value
    does: [v] may be replaced by [u], and the trace is the sum of [f]. *)
Lemma rebuilt_with_u (f : vec) :
  (forall i, (i < n)%nat -> s i = 0 -> f i = 0) ->
  u ** diag f ** v^T == u ** diag f ** u^T.
Proof.
  intros Hf.
  assert (H : diag f ** v^T == diag f ** u^T).
  { intros i k Hi Hk; rewrite !matmul_diag_l by exact Hi; unfold transpose.
    destruct (Req_dec (s i) 0) as [Hz | Hz].
    - rewrite (Hf i Hi Hz); ring.
    - rewrite (psd_same_columns Hi Hk Hz); reflexivity. }
  rewrite !matmul_assoc, H; reflexivity.
Qed.

Lemma trace_diag (f : vec) : tf_trace n (diag f) = sum_n n f.
Proof.
  unfold tf_trace; apply sum_n_ext; intros i _; unfold diag.
  rewrite Nat.eqb_refl; reflexivity.
Qed.

Lemma rebuilt_trace (f : vec) :
  (forall i, (i < n)%nat -> s i = 0 -> f i = 0) ->
  tf_trace n (u ** diag f ** v^T) = sum_n n f.
Proof.
  intros Hf; destruct psd_parts as (Hs & Hu & Hv & HM).
  rewrite (rebuilt_with_u f Hf), matmul_assoc, trace_cyclic, matmul_assoc.
  rewrite (proj1 Hu), matmul_id_r; apply trace_diag.
Qed.

Lemma guarded_sqrt_zero (eps : R) (i : nat) :
  0 < eps -> s i = 0 -> guarded_sqrt eps s i = 0.
Proof.
  intros Heps Hz; rewrite (proj1 (guarded_sqrt_cases eps s i)); [exact Hz | lra].
Qed.

(** The trace of the square root the code computes: the sum of the
    guarded roots of the singular values. *)
Lemma square_root_trace (eps : R) :
  0 < eps ->
  tf_trace n (_symmetric_matrix_square_root svd n M eps)
  = sum_n n (guarded_sqrt eps s).
Proof.
  intros Heps; rewrite square_root_unfold; fold s u v.
  apply rebuilt_trace; intros i _; apply guarded_sqrt_zero; exact Heps.
Qed.

(** Without eigenvalues strictly between 0 and [eps] the guard changes
    nothing: the code computes the symmetric positive semi-definite
    square root. *)
Lemma square_root_psd_form (eps : R) :
  0 < eps -> no_eigenvalue_between n M 0 eps ->
  let A := _symmetric_matrix_square_root svd n M eps in
  A == u ** diag (fun i => sqrt (s i)) ** u^T /\
  symmetric n A /\ psd n A /\ A ** A == M.
Proof.
  intros Heps Hno A; destruct psd_parts as (Hs & Hu & Hv & HM).
  assert (Hg : forall i, (i < n)%nat -> guarded_sqrt eps s i = sqrt (s i)).
  { intros i Hi; destruct (singular_values_outside Hno Hi) as [Hz | Hge].
    - rewrite (guarded_sqrt_zero i Heps Hz), Hz, sqrt_0; reflexivity.
    - apply (proj2 (guarded_sqrt_cases eps s i)); lra. }
  assert (HA : A == u ** diag (fun i => sqrt (s i)) ** u^T).
  { unfold A; rewrite square_root_unfold; fold s u v.
    rewrite rebuilt_with_u by (intros i _; apply guarded_sqrt_zero; exact Heps).
    rewrite (@diag_ext n _ _ Hg); reflexivity. }
  split; [exact HA |]; split; [| split].
  - apply (symmetric_meq HA), conjugate_diag_symmetric.
  - intros x; rewrite HA; apply conjugate_diag_psd.
    intros i Hi; apply sqrt_pos.
  - rewrite HA, (conjugate_diag_product _ _ Hu).
    rewrite (@diag_ext n (fun i => sqrt (s i) * sqrt (s i)) s)
      by (intros i Hi; apply sqrt_sqrt, Hs; exact Hi).
    symmetry; exact psd_diagonalised.
Qed.

End OfPsd.

(** Sums over the spectra of [W W^T] and [W^T W], which agree up to
    zeros. *)
Lemma sum_intertwined (W : mat) (s1 s2 : vec) (f : R -> R) :
  f 0 = 0 ->
  W ** W^T == diag s2 -> W^T ** W == diag s1 ->
  sum_n n (fun i => f (s2 i)) = sum_n n (fun j => f (s1 j)).
Proof.
  intros Hf H2 H1.
  assert (Hc : forall i j, (i < n)%nat -> (j < n)%nat -> s2 i * W i j = W i j * s1 j).
  { intros i j Hi Hj.
    assert (H : diag s2 ** W == W ** diag s1)
      by (rewrite <- H2, <- H1, matmul_assoc; reflexivity).
    pose proof (H i j Hi Hj) as E.
    rewrite matmul_diag_l, matmul_diag_r in E by assumption; exact E. }
  assert (Hr : forall i, (i < n)%nat -> sum_n n (fun j => W i j * W i j) = s2 i).
  { intros i Hi; pose proof (H2 i i Hi Hi) as E.
    unfold diag in E; rewrite Nat.eqb_refl in E; exact E. }
  assert (Hk : forall j, (j < n)%nat -> sum_n n (fun i => W i j * W i j) = s1 j).
  { intros j Hj; pose proof (H1 j j Hj Hj) as E.
    unfold diag in E; rewrite Nat.eqb_refl in E; exact E. }
  set (h := fun x => f x / x).
  assert (Hh : forall x t, t = x -> f x = h x * t).
  { intros x t ->; unfold h; destruct (Req_dec x 0) as [-> | Hx].
    - rewrite Hf; unfold Rdiv; ring.
    - field; exact Hx. }
  rewrite (@sum_n_ext n _ (fun i => sum_n n (fun j => h (s2 i) * (W i j * W i j)))).
  2:{ intros i Hi; rewrite sum_n_scal_l; apply Hh, Hr; exact Hi. }
  rewrite (@sum_n_ext n (fun j => f (s1 j))
             (fun j => sum_n n (fun i => h (s2 i) * (W i j * W i j)))).
  - apply sum_n_swap.
  - intros j Hj.
    rewrite (@sum_n_ext n _ (fun i => h (s1 j) * (W i j * W i j))).
    + rewrite sum_n_scal_l; apply Hh, Hk; exact Hj.
    + intros i Hi; destruct (Req_dec (W i j) 0) as [Hz | Hz].
      * rewrite Hz; ring.
      * assert (s2 i = s1 j)
          by (apply (Rmult_eq_reg_r (W i j)); [rewrite (Hc i j Hi Hj); ring | exact Hz]).
        congruence.
Qed.

Lemma conjugated_psd (A S_v : mat) :
  symmetric n A -> psd n S_v -> psd n (A ** (S_v ** A)).
Proof.
  intros HA HS x; red in HA.
  assert (H : A ** (S_v ** A) == A^T ** (S_v ** A)) by (rewrite HA; reflexivity).
  rewrite H, qform_conjugate; apply HS.
Qed.

(** The trace that [trace_sqrt_product] returns, in terms of the
    singular values of [A S_v A]. *)
Lemma trace_sqrt_product_sum (S S_v : mat) :
  (forall M, symmetric n M -> svd_spec n M (svd n M)) ->
  symmetric n S -> psd n S -> symmetric n S_v -> psd n S_v ->
  no_eigenvalue_between n S 0 default_eps ->
  let A := _symmetric_matrix_square_root svd n S default_eps in
  let G := A ** (S_v ** A) in
  symmetric n A /\ psd n A /\ A ** A == S /\
  symmetric n G /\ psd n G /\
  trace_sqrt_product svd n S S_v
  = sum_n n (guarded_sqrt default_eps (s_of (svd n G))).
Proof.
  intros svd_ok HS HSp HSv HSvp Hno A G.
  pose proof (proj1 default_eps_bounds) as Heps.
  destruct (square_root_psd_form HS HSp (svd_ok S HS) Heps Hno) as (_ & HAs & HAp & HAA).
  fold A in HAs, HAp, HAA.
  assert (HGs : symmetric n G) by (apply conjugated_symmetric; assumption).
  assert (HGp : psd n G) by (apply conjugated_psd; assumption).
  repeat split; try assumption.
  unfold trace_sqrt_product; fold A; fold G.
  apply square_root_trace; try assumption.
  apply svd_ok; exact HGs.
Qed.

(** Under a correct decomposition, [trace_sqrt_product] does not depend
    on the order of its arguments when neither matrix has an eigenvalue
    strictly between 0 and [eps]. *)
Lemma trace_sqrt_product_commutes (S S_v : mat) :
  (forall M, symmetric n M -> svd_spec n M (svd n M)) ->
  symmetric n S -> psd n S -> symmetric n S_v -> psd n S_v ->
  no_eigenvalue_between n S 0 default_eps ->
  no_eigenvalue_between n S_v 0 default_eps ->
  trace_sqrt_product svd n S S_v = trace_sqrt_product svd n S_v S.
Proof.
  intros svd_ok HS HSp HSv HSvp Hno Hnov.
  pose proof (proj1 default_eps_bounds) as Heps.
  destruct (trace_sqrt_product_sum svd_ok HS HSp HSv HSvp Hno)
    as (HAs & HAp & HAA & HG1s & HG1p & ->).
  destruct (trace_sqrt_product_sum svd_ok HSv HSvp HS HSp Hnov)
    as (HBs & HBp & HBB & HG2s & HG2p & ->).
  set (A := _symmetric_matrix_square_root svd n S default_eps) in *.
  set (B := _symmetric_matrix_square_root svd n S_v default_eps) in *.
  set (G1 := A ** (S_v ** A)) in *.
  set (G2 := B ** (S ** B)) in *.
  set (C := A ** B).
  assert (HC1 : G1 == C ** C^T).
  { unfold G1, C; red in HAs, HBs.
    rewrite transpose_matmul, HAs, HBs, <- HBB, !matmul_assoc; reflexivity. }
  assert (HC2 : G2 == C^T ** C).
  { unfold G2, C; red in HAs, HBs.
    rewrite transpose_matmul, HAs, HBs, <- HAA, !matmul_assoc; reflexivity. }
  pose proof (psd_conjugated HG1s HG1p (svd_ok G1 HG1s)) as HD1.
  pose proof (psd_conjugated HG2s HG2p (svd_ok G2 HG2s)) as HD2.
  destruct (@svd_spec_parts n svd G1 (svd_ok G1 HG1s)) as (_ & Hu1 & _ & _).
  destruct (@svd_spec_parts n svd G2 (svd_ok G2 HG2s)) as (_ & Hu2 & _ & _).
  set (s1 := s_of (svd n G1)) in *; set (u1 := u_of (svd n G1)) in *.
  set (s2 := s_of (svd n G2)) in *; set (u2 := u_of (svd n G2)) in *.
  set (W := u2^T ** (C^T ** u1)).
  symmetry.
  apply (@sum_intertwined W s1 s2 (fun x => if Rlt_dec x default_eps then x else sqrt x)).
  - destruct (Rlt_dec 0 default_eps); [reflexivity | apply sqrt_0].
  - unfold W; rewrite !transpose_matmul, !transpose_involutive, !matmul_assoc.
    rewrite <- (matmul_assoc n u1 u1^T), (proj2 Hu1), matmul_id_l.
    rewrite <- (matmul_assoc n C^T C), <- HC2; exact HD2.
  - unfold W; rewrite !transpose_matmul, !transpose_involutive, !matmul_assoc.
    rewrite <- (matmul_assoc n u2 u2^T), (proj2 Hu2), matmul_id_l.
    rewrite <- (matmul_assoc n C C^T), <- HC1; exact HD1.
Qed.

End GuardedRoots.

(** *** The square root of the product of two covariance matrices *)

Section RootOfProduct.

Import gan_metrics.

Variable svd : nat -> mat -> vec * mat * mat.

















End RootOfProduct.



End TraceOfRoots.

(* ================================================================== *)
(** ** frechet_classifier_distance *)
(* ================================================================== *)




Section FrechetProperties.

Import gan_metrics.

Variable svd : nat -> mat -> vec * mat * mat.



Lemma frechet_steps (real_images generated_images : tensor)
    (classifier_fn : tensor -> result tensor) (num_batches : nat) :
  frechet_classifier_distance svd real_images generated_images classifier_fn num_batches
  = (a <- fid_activations real_images generated_images classifier_fn num_batches ;;
     fid_of_tensors svd (fst (fst a)) (snd (fst a)) (snd a)).
Proof.
  unfold frechet_classifier_distance, fid_activations, fid_of_tensors.
  destruct (tf_split real_images num_batches) as [lr | e]; [| reflexivity]; cbn [bind].
  destruct (tf_split generated_images num_batches) as [lg | e]; [| reflexivity]; cbn [bind].
  destruct (tf_stack (lr ++ lg)) as [imgs | e]; [| reflexivity]; cbn [bind].
  destruct (map_fn classifier_fn imgs) as [acts | e]; [| reflexivity]; cbn [bind].
  destruct (tf_split_sizes acts num_batches num_batches) as [[pr pg] | e];
    [| reflexivity]; cbn [bind fst snd].
  destruct (tf_concat0 (tf_unstack pr)) as [ra | e]; [| reflexivity]; cbn [bind].
  destruct (tf_concat0 (tf_unstack pg)) as [ga | e]; reflexivity.
Qed.

Lemma tf_concat0_map_inv (d : dtype) (sh : list nat) (L : list (list R)) (r : tensor) :
  tf_concat0 (map (mkTensor d sh) L) = Ok r ->
  exists m s', sh = m :: s' /\ r = mkTensor d ((length L * m)%nat :: s') (concat L).
Proof.
  destruct L as [| x L]; [discriminate |].
  destruct sh as [| m s']; [discriminate |].
  intros H; exists m, s'; split; [reflexivity |].
  rewrite tf_concat0_mk in H by discriminate.
  inversion H; reflexivity.
Qed.

(** The two activation matrices always have one shape and one dtype. *)
Lemma fid_activations_shapes (real_images generated_images : tensor)
    (f : tensor -> result tensor) (nb : nat) (dt : dtype) (real_a gen_a : tensor) :
  fid_activations real_images generated_images f nb = Ok (dt, real_a, gen_a) ->
  t_shape gen_a = t_shape real_a /\ t_dtype real_a = dt /\ t_dtype gen_a = dt.
Proof.
  unfold fid_activations; intros H.
  inv_bind H; inv_bind H; inv_bind H; inv_bind H; inv_bind H.
  rename a2 into acts, a3 into parts.
  unfold tf_split_sizes in Ha3.
  destruct (dim0 acts =? nb + nb)%nat; [| discriminate Ha3].
  inversion Ha3; subst parts; clear Ha3; cbn [fst snd] in H.
  unfold tf_unstack, slices, slice_shape, dim0 in H; cbn [t_dtype t_shape t_data hd tl] in H.
  apply bind_ok in H; destruct H as [ra [Hra H]].
  apply bind_ok in H; destruct H as [ga [Hga H]].
  inversion H; subst; clear H.
  apply tf_concat0_map_inv in Hra; destruct Hra as (m & s' & Hs & ->).
  apply tf_concat0_map_inv in Hga; destruct Hga as (m2 & s2 & Hs2 & ->).
  rewrite Hs in Hs2; inversion Hs2; subst.
  rewrite !chunks_length; repeat split.
Qed.

Lemma squared_norm (D : nat) (v : vec) :
  Rsqr (tf_norm D v) = sum_n D (fun j => v j * v j).
Proof.
  unfold tf_norm; apply Rsqr_sqrt, sum_n_nonneg; intros k _; nra.
Qed.

(** The arithmetic of the code is the formula of the spec when the two
    activation matrices have the same number of rows. *)
Lemma fid_of_activations_formula (N D : nat) (X Y : mat) :
  fid_of_activations svd N N D X Y
  = frechet_formula svd D (sample_mean N X) (sample_mean N Y)
      (sample_covariance N X) (sample_covariance N Y).
Proof.
  unfold fid_of_activations, frechet_formula; rewrite squared_norm; reflexivity.
Qed.

Lemma fid_of_tensors_formula (dt : dtype) (real_a gen_a fid : tensor) :
  t_shape gen_a = t_shape real_a ->
  fid_of_tensors svd dt real_a gen_a = Ok fid ->
  rank real_a = 2%nat /\
  fid = cast_back dt
          (frechet_formula svd (dim1 real_a)
             (sample_mean (dim0 real_a) (entry2 real_a))
             (sample_mean (dim0 gen_a) (entry2 gen_a))
             (sample_covariance (dim0 real_a) (entry2 real_a))
             (sample_covariance (dim0 gen_a) (entry2 gen_a))).
Proof.
  intros Hsh; unfold fid_of_tensors.
  set (ra := if negb (dtype_eqb dt float64) then tf_cast float64 real_a else real_a).
  set (ga := if negb (dtype_eqb dt float64) then tf_cast float64 gen_a else gen_a).
  assert (Hra : t_shape ra = t_shape real_a /\ t_data ra = t_data real_a)
    by (unfold ra; destruct (negb (dtype_eqb dt float64)); split; reflexivity).
  assert (Hga : t_shape ga = t_shape gen_a /\ t_data ga = t_data gen_a)
    by (unfold ga; destruct (negb (dtype_eqb dt float64)); split; reflexivity).
  destruct Hra as [Hras Hrad]; destruct Hga as [Hgas Hgad].
  unfold assert_has_rank, rank; rewrite Hras, Hgas, Hsh.
  destruct (Nat.eqb_spec (length (t_shape real_a)) 2) as [Hr | Hr];
    [| discriminate]; cbn [bind].
  intros H; inversion H; clear H; split; [exact Hr |].
  assert (Hera : entry2 ra = entry2 real_a)
    by (unfold entry2, dim1; rewrite Hras, Hrad; reflexivity).
  assert (Hega : entry2 ga = entry2 gen_a)
    by (unfold entry2, dim1; rewrite Hgas, Hgad; reflexivity).
  unfold dim0, dim1; rewrite Hras, Hgas, Hera, Hega, Hsh.
  rewrite fid_of_activations_formula; reflexivity.
Qed.

Lemma mapM_app {A B : Type} (f : A -> result B) (l1 l2 : list A) (o1 o2 : list B) :
  mapM f l1 = Ok o1 -> mapM f l2 = Ok o2 -> mapM f (l1 ++ l2) = Ok (o1 ++ o2).
Proof.
  revert o1; induction l1 as [| a l1 IH]; intros o1 H1 H2.
  - inversion H1; exact H2.
  - cbn [mapM app] in *.
    destruct (f a) as [b | e]; [| discriminate H1]; cbn [bind] in *.
    destruct (mapM f l1) as [bs | e]; [| discriminate H1]; cbn [bind] in *.
    inversion H1; subst; rewrite (IH bs eq_refl H2); reflexivity.
Qed.

Lemma outs_as_map (dt : dtype) (sh : list nat) (outs : list tensor) :
  Forall (fun o => t_dtype o = dt /\ t_shape o = sh /\ wf o) outs ->
  outs = map (mkTensor dt sh) (map t_data outs) /\
  Forall (fun x => length x = prod_shape sh) (map t_data outs).
Proof.
  induction 1 as [| o outs [Hd [Hs Hw]] _ [IH1 IH2]]; [split; constructor |].
  cbn [map]; split.
  - rewrite <- IH1; f_equal; destruct o; simpl in *; subst; reflexivity.
  - constructor; [unfold wf in Hw; rewrite Hw, Hs; reflexivity | exact IH2].
Qed.

Lemma length_concat_const {A : Type} (k : nat) (ls : list (list A)) :
  Forall (fun l => length l = k) ls -> length (concat ls) = (length ls * k)%nat.
Proof.
  induction 1 as [| l ls Hl _ IH]; [reflexivity |].
  cbn [concat length]; rewrite length_app, Hl, IH; reflexivity.
Qed.

Lemma firstn_exact_app {A : Type} (a b : list A) (k : nat) :
  length a = k -> firstn k (a ++ b) = a /\ skipn k (a ++ b) = b.
Proof.
  intros <-; split.
  - rewrite firstn_app, Nat.sub_diag, firstn_all; simpl; apply app_nil_r.
  - rewrite skipn_app, Nat.sub_diag, skipn_all; reflexivity.
Qed.

Lemma tf_split_batches (dt : dtype) (N : nat) (rest : list nat) (data : list R) (nb : nat) :
  nb <> 0%nat -> (N mod nb = 0)%nat ->
  tf_split (mkTensor dt (N :: rest) data) nb
  = Ok (batches (mkTensor dt (N :: rest) data) nb).
Proof. intros Hnb Hmod; rewrite tf_split_even by assumption; reflexivity. Qed.

(** The classifier running well on every batch is all that
    [frechet_classifier_distance] needs of two image sets of one shape. *)
Lemma fid_activations_ok
    (dt : dtype) (N : nat) (rest : list nat) (data_a data_b : list R)
    (f : tensor -> result tensor) (nb : nat) (sh : list nat)
    (outs_a outs_b : list tensor) :
  length data_a = (N * prod_shape rest)%nat ->
  length data_b = (N * prod_shape rest)%nat ->
  nb <> 0%nat -> (N mod nb = 0)%nat ->
  mapM f (batches (mkTensor dt (N :: rest) data_a) nb) = Ok outs_a ->
  mapM f (batches (mkTensor dt (N :: rest) data_b) nb) = Ok outs_b ->
  Forall (fun o => t_dtype o = dt /\ t_shape o = sh /\ wf o) (outs_a ++ outs_b) ->
  sh <> [] ->
  fid_activations (mkTensor dt (N :: rest) data_a) (mkTensor dt (N :: rest) data_b) f nb
  = Ok (dt, joined dt sh nb outs_a, joined dt sh nb outs_b).
Proof.
  intros Hla Hlb Hnb Hmod Hfa Hfb Hall Hsh.
  set (m := (N / nb)%nat) in *.
  set (S0 := prod_shape rest) in *.
  assert (HN : N = (nb * m)%nat) by (apply Nat.Div0.div_exact; exact Hmod).
  set (cka := chunks (m * S0) nb data_a).
  set (ckb := chunks (m * S0) nb data_b).
  assert (Hba : batches (mkTensor dt (N :: rest) data_a) nb
                = map (mkTensor dt (m :: rest)) cka) by reflexivity.
  assert (Hbb : batches (mkTensor dt (N :: rest) data_b) nb
                = map (mkTensor dt (m :: rest)) ckb) by reflexivity.
  assert (Hcka : Forall (fun c => length c = (m * S0)%nat) cka)
    by (apply chunks_Forall_length; rewrite Hla, HN; fold S0; lia).
  assert (Hckb : Forall (fun c => length c = (m * S0)%nat) ckb)
    by (apply chunks_Forall_length; rewrite Hlb, HN; fold S0; lia).
  assert (Hlen_a : length outs_a = nb)
    by (rewrite (mapM_ok_length _ _ Hfa), Hba, length_map; apply chunks_length).
  assert (Hlen_b : length outs_b = nb)
    by (rewrite (mapM_ok_length _ _ Hfb), Hbb, length_map; apply chunks_length).
  unfold fid_activations.
  rewrite !tf_split_batches by assumption; cbn [bind].
  rewrite Hba, Hbb, <- map_app.
  assert (Hne : cka ++ ckb <> []).
  { intros E; apply (f_equal (@length _)) in E.
    rewrite length_app in E; unfold cka, ckb in E; rewrite !chunks_length in E.
    simpl in E; lia. }
  rewrite tf_stack_mk by exact Hne; cbn [bind].
  unfold map_fn.
  rewrite tf_unstack_mk by (apply Forall_app; split; assumption).
  rewrite map_app, <- Hba, <- Hbb, (mapM_app _ _ _ Hfa Hfb); cbn [bind t_dtype].
  destruct (outs_as_map Hall) as [Hmap Hdatas].
  destruct sh as [| m' s']; [congruence |].
  assert (Hdt : forallb (fun o => dtype_eqb (t_dtype o) dt) (outs_a ++ outs_b) = true).
  { apply forallb_forall; intros o Ho.
    apply (proj1 (Forall_forall _ _) Hall) in Ho; destruct Ho as [-> _].
    apply dtype_eqb_refl. }
  rewrite Hdt, Hmap.
  assert (Hne2 : map t_data (outs_a ++ outs_b) <> []).
  { intros E; apply (f_equal (@length _)) in E.
    rewrite length_map, length_app in E; simpl in E; lia. }
  rewrite tf_stack_mk by exact Hne2; cbn [bind t_dtype].
  rewrite map_app in Hdatas |- *; apply Forall_app in Hdatas.
  destruct Hdatas as [Hda Hdb].
  unfold tf_split_sizes, dim0, slice_shape; cbn [t_shape t_dtype t_data hd tl].
  rewrite length_app, !length_map, Hlen_a, Hlen_b, Nat.eqb_refl; cbn [bind fst snd].
  rewrite concat_app.
  assert (Hca : length (concat (map t_data outs_a)) = (nb * prod_shape (m' :: s'))%nat)
    by (rewrite (length_concat_const Hda), length_map, Hlen_a; reflexivity).
  destruct (firstn_exact_app (concat (map t_data outs_a)) (concat (map t_data outs_b)) Hca)
    as [-> ->].
  rewrite <- Hlen_a at 1; rewrite <- (length_map t_data outs_a).
  rewrite tf_unstack_mk by exact Hda.
  rewrite tf_concat0_mk
    by (intros E; apply (f_equal (@length _)) in E; rewrite length_map in E; simpl in E; lia).
  cbn [bind].
  rewrite <- Hlen_b at 1; rewrite <- (length_map t_data outs_b).
  rewrite tf_unstack_mk by exact Hdb.
  rewrite tf_concat0_mk
    by (intros E; apply (f_equal (@length _)) in E; rewrite length_map in E; simpl in E; lia).
  cbn [bind]; unfold joined; cbn [hd tl].
  rewrite !length_map, Hlen_a, Hlen_b; reflexivity.
Qed.

End FrechetProperties.

(* ================================================================== *)
(** ** Symmetry of the Frechet distance *)
(* ================================================================== *)

Section FrechetSymmetry.

Import gan_metrics.

Variable svd : nat -> mat -> vec * mat * mat.

(** The quadratic form of the covariance matrix of the code is a sum of
    squares. *)
Lemma covariance_qform (n N : nat) (X : mat) (x : vec) :
  qform n (mscale (matmul_ta N (centered X (reduce_mean_rows N X))
                               (centered X (reduce_mean_rows N X))) (INR N - 1)) x
  = sum_n N (fun i =>
      Rsqr (sum_n n (fun j => centered X (reduce_mean_rows N X) i j * x j)))
    * / (INR N - 1).
Proof.
  set (Z := centered X (reduce_mean_rows N X)).
  set (c := / (INR N - 1)).
  set (T := fun i j k => x j * Z i j * Z i k * x k * c).
  transitivity (sum_n n (fun j => sum_n n (fun k => sum_n N (fun i => T i j k)))).
  - unfold qform, dot, mulvec, mscale, matmul_ta, Rdiv; fold c.
    apply sum_n_ext; intros j _.
    rewrite <- sum_n_scal_l; apply sum_n_ext; intros k _.
    replace (x j * (sum_n N (fun i => Z i j * Z i k) * c * x k))
      with (sum_n N (fun i => Z i j * Z i k) * (x j * c * x k)) by ring.
    rewrite <- sum_n_scal_r; apply sum_n_ext; intros i _; unfold T; ring.
  - transitivity (sum_n N (fun i => sum_n n (fun j => sum_n n (fun k => T i j k)))).
    + rewrite (@sum_n_ext n _ (fun j => sum_n N (fun i => sum_n n (fun k => T i j k))))
        by (intros j _; apply sum_n_swap).
      apply sum_n_swap.
    + rewrite <- sum_n_scal_r; apply sum_n_ext; intros i _.
      unfold Rsqr; rewrite <- sum_n_scal_r, <- sum_n_scal_r.
      apply sum_n_ext; intros j _.
      replace (Z i j * x j * sum_n n (fun j0 => Z i j0 * x j0) * c)
        with (sum_n n (fun k => Z i k * x k) * (Z i j * x j * c)) by ring.
      rewrite <- sum_n_scal_r; apply sum_n_ext; intros k _; unfold T; ring.
Qed.

Lemma sample_covariance_psd (N D : nat) (X : mat) :
  (2 <= N)%nat -> psd D (sample_covariance N X).
Proof.
  intros HN x.
  change (sample_covariance N X)
    with (gan_metrics.mscale
            (gan_metrics.matmul_ta N
               (gan_metrics.centered X (gan_metrics.reduce_mean_rows N X))
               (gan_metrics.centered X (gan_metrics.reduce_mean_rows N X)))
            (INR N - 1)).
  rewrite covariance_qform.
  assert (Hc : 0 < INR N - 1).
  { apply le_INR in HN; simpl in HN; lra. }
  apply Rmult_le_pos; [| left; apply Rinv_0_lt_compat; exact Hc].
  apply sum_n_nonneg; intros i _; apply Rle_0_sqr.
Qed.

Lemma fid_of_tensors_ok (dt : dtype) (N D : nat) (real_a gen_a : tensor) :
  t_shape real_a = [N; D] -> t_shape gen_a = [N; D] ->
  fid_of_tensors svd dt real_a gen_a
  = Ok (cast_back dt
          (frechet_formula svd D
             (sample_mean N (entry2 real_a)) (sample_mean N (entry2 gen_a))
             (sample_covariance N (entry2 real_a))
             (sample_covariance N (entry2 gen_a)))).
Proof.
  intros Hr Hg.
  destruct (fid_of_tensors svd dt real_a gen_a) as [fid | e] eqn:E.
  - destruct (@fid_of_tensors_formula svd dt real_a gen_a fid) as [_ ->];
      [congruence | exact E |].
    unfold dim0, dim1; rewrite Hr, Hg; reflexivity.
  - exfalso; revert E; unfold fid_of_tensors, assert_has_rank, rank.
    destruct (negb (dtype_eqb dt float64)); cbn [tf_cast t_shape];
      rewrite Hr, Hg; discriminate.
Qed.

Lemma sample_covariance_symmetric (N D : nat) (X : mat) :
  symmetric D (sample_covariance N X).
Proof.
  intros j k _ _; unfold transpose, sample_covariance; f_equal.
  apply sum_n_ext; intros i _; ring.
Qed.

(** The formula is symmetric when [trace_sqrt_product] is. *)
Lemma frechet_formula_symmetric (D : nat) (m m_v : vec) (S S_v : mat) :
  (forall M, symmetric D M -> svd_spec D M (svd D M)) ->
  symmetric D S -> psd D S -> symmetric D S_v -> psd D S_v ->
  no_eigenvalue_between D S 0 default_eps ->
  no_eigenvalue_between D S_v 0 default_eps ->
  frechet_formula svd D m m_v S S_v = frechet_formula svd D m_v m S_v S.
Proof.
  intros Hsvd HS HSp HSv HSvp Hno Hnov; unfold frechet_formula.
  rewrite (@trace_sqrt_product_commutes D svd S S_v) by assumption.
  f_equal; [f_equal |].
  - unfold tf_trace, madd; apply sum_n_ext; intros i _; ring.
  - apply sum_n_ext; intros j _; ring.
Qed.

(** C4, as the code has it. For two image sets of one shape on whose
    batches the classifier returns well-formed activations of one shape
    [m; D], at least two images in each set, a decomposition [tf.svd] that
    is correct on symmetric matrices, and covariance matrices neither of
    which has an eigenvalue strictly between 0 and [eps = 1e-10] (such an
    eigenvalue is kept un-rooted by [_symmetric_matrix_square_root]; an
    eigenvalue 0 does no harm), [frechet_classifier_distance] returns the
    same distance for [(A, B)] and for [(B, A)]. *)
Theorem frechet_distance_symmetric
    (dt : dtype) (N : nat) (rest : list nat) (data_a data_b : list R)
    (f : tensor -> result tensor) (nb m D : nat)
    (outs_a outs_b : list tensor) :
  (forall M, symmetric D M -> svd_spec D M (svd D M)) ->
  length data_a = (N * prod_shape rest)%nat ->
  length data_b = (N * prod_shape rest)%nat ->
  nb <> 0%nat -> (N mod nb = 0)%nat ->
  mapM f (batches (mkTensor dt (N :: rest) data_a) nb) = Ok outs_a ->
  mapM f (batches (mkTensor dt (N :: rest) data_b) nb) = Ok outs_b ->
  Forall (fun o => t_dtype o = dt /\ t_shape o = [m; D] /\ wf o) (outs_a ++ outs_b) ->
  (2 <= nb * m)%nat ->
  no_eigenvalue_between D
    (sample_covariance (nb * m) (entry2 (joined dt [m; D] nb outs_a))) 0 default_eps ->
  no_eigenvalue_between D
    (sample_covariance (nb * m) (entry2 (joined dt [m; D] nb outs_b))) 0 default_eps ->
  exists fid,
    frechet_classifier_distance svd (mkTensor dt (N :: rest) data_a)
      (mkTensor dt (N :: rest) data_b) f nb = Ok fid /\
    frechet_classifier_distance svd (mkTensor dt (N :: rest) data_b)
      (mkTensor dt (N :: rest) data_a) f nb = Ok fid.
Proof.
  intros Hsvd Hla Hlb Hnb Hmod Hfa Hfb Hall HN Ha Hb.
  assert (Hall' : Forall (fun o => t_dtype o = dt /\ t_shape o = [m; D] /\ wf o)
                    (outs_b ++ outs_a)).
  { apply Forall_app in Hall; destruct Hall; apply Forall_app; split; assumption. }
  rewrite !frechet_steps.
  rewrite (@fid_activations_ok dt N rest data_a data_b f nb [m; D] outs_a outs_b)
    by (try assumption; discriminate).
  rewrite (@fid_activations_ok dt N rest data_b data_a f nb [m; D] outs_b outs_a)
    by (try assumption; discriminate).
  cbn [bind fst snd].
  rewrite !(@fid_of_tensors_ok dt (nb * m) D) by reflexivity.
  eexists; split; [reflexivity |].
  do 2 f_equal.
  apply frechet_formula_symmetric; try assumption;
    try apply sample_covariance_symmetric; apply sample_covariance_psd; exact HN.
Qed.


End FrechetSymmetry.




Lemma pair_covariance (v : R) :
  sample_covariance 2 (entry2 (pair_activations v)) 0%nat 0%nat = v * v / 2.
Proof.
  unfold sample_covariance, sample_mean, entry2, dim1, pair_activations;
    cbn [sum_n t_shape t_data nth Nat.mul Nat.add].
  replace (INR 2) with 2 by (simpl; lra); field.
Qed.

Lemma eigenvalues_1x1 (M : mat) (c : R) :
  c <= M 0%nat 0%nat -> eigenvalues_at_least 1 M c.
Proof.
  intros Hc x; unfold qform, dot, mulvec; cbn [sum_n].
  assert (0 <= x 0%nat * x 0%nat) by nra; nra.
Qed.

Lemma default_eps_value : gan_metrics.default_eps = / 10000000000.
Proof. unfold gan_metrics.default_eps; f_equal; simpl; lra. Qed.

Lemma pair_runs (v : R) :
  mapM pixel_classifier (batches (pair_of_images v) 1) = Ok [pair_activations v].
Proof. reflexivity. Qed.

Lemma pair_joined (v : R) :
  joined float64 [2%nat; 1%nat] 1 [pair_activations v] = mkTensor float64 [2%nat; 1%nat] [0; v].
Proof. reflexivity. Qed.

Lemma no_eigenvalue_1x1 (M : mat) (lo hi : R) :
  ~ (lo < M 0%nat 0%nat < hi) -> no_eigenvalue_between 1 M lo hi.
Proof.
  intros HM lam [x [Hx Hlam]] Hin; apply HM.
  specialize (Hlam 0%nat (le_n 1)).
  unfold mulvec in Hlam; unfold dot in Hx; cbn [sum_n] in Hlam, Hx.
  rewrite Rplus_0_l in Hlam, Hx.
  assert (Hx0 : x 0%nat <> 0) by (intros H0; apply Hx; rewrite H0; ring).
  assert (M 0%nat 0%nat = lam) by (apply (Rmult_eq_reg_r (x 0%nat)); assumption).
  lra.
Qed.

Lemma frechet_distance_symmetric_witness :
  exists fid,
    gan_metrics.frechet_classifier_distance svd_1x1 (pair_of_images 0)
      (pair_of_images 4) pixel_classifier 1 = Ok fid /\
    gan_metrics.frechet_classifier_distance svd_1x1 (pair_of_images 4)
      (pair_of_images 0) pixel_classifier 1 = Ok fid.
Proof.
  apply (@frechet_distance_symmetric svd_1x1 float64 2 [1%nat; 1%nat; 1%nat]
           [0; 0] [0; 4] pixel_classifier 1 2 1
           [pair_activations 0] [pair_activations 4]).
  - intros M _; apply svd_1x1_spec.
  - reflexivity.
  - reflexivity.
  - discriminate.
  - reflexivity.
  - reflexivity.
  - reflexivity.
  - repeat constructor.
  - simpl; lia.
  - apply no_eigenvalue_1x1.
    change (joined float64 [2%nat; 1%nat] 1 [pair_activations 0]) with (pair_activations 0).
    change (1 * 2)%nat with 2%nat; rewrite pair_covariance, default_eps_value; lra.
  - apply no_eigenvalue_1x1.
    change (joined float64 [2%nat; 1%nat] 1 [pair_activations 4]) with (pair_activations 4).
    change (1 * 2)%nat with 2%nat; rewrite pair_covariance, default_eps_value; lra.
Defined.


Lemma square_root_1x1 (M : mat) :
  0 <= M 0%nat 0%nat ->
  gan_metrics._symmetric_matrix_square_root svd_1x1 1 M gan_metrics.default_eps
    0%nat 0%nat
  = guarded_root (M 0%nat 0%nat).
Proof.
  intros HM; unfold gan_metrics._symmetric_matrix_square_root, svd_1x1, guarded_root.
  unfold matmul, transpose, diag; cbn [sum_n Nat.eqb].
  destruct (Rle_dec 0 (M 0%nat 0%nat)) as [_ | H]; [| contradiction].
  rewrite Rabs_right by lra.
  destruct (Rlt_dec (M 0%nat 0%nat) gan_metrics.default_eps); lra.
Qed.

Lemma guarded_root_nonneg (x : R) : 0 <= x -> 0 <= guarded_root x.
Proof.
  intros Hx; unfold guarded_root; destruct (Rlt_dec x gan_metrics.default_eps);
    [exact Hx | apply sqrt_pos].
Qed.

Lemma trace_sqrt_product_1x1 (S S_v : mat) :
  0 <= S 0%nat 0%nat -> 0 <= S_v 0%nat 0%nat ->
  gan_metrics.trace_sqrt_product svd_1x1 1 S S_v
  = guarded_root (guarded_root (S 0%nat 0%nat)
                  * (S_v 0%nat 0%nat * guarded_root (S 0%nat 0%nat))).
Proof.
  intros HS HSv; unfold gan_metrics.trace_sqrt_product, tf_trace; cbn [sum_n].
  pose proof (guarded_root_nonneg HS) as Hr.
  rewrite square_root_1x1.
  - unfold matmul at 1 2; cbn [sum_n]; rewrite square_root_1x1 by exact HS.
    rewrite !Rplus_0_l; reflexivity.
  - unfold matmul; cbn [sum_n]; rewrite square_root_1x1 by exact HS.
    assert (0 <= S_v 0%nat 0%nat * guarded_root (S 0%nat 0%nat)) by nra; nra.
Qed.

Lemma pair_distance (v w : R) :
  gan_metrics.frechet_classifier_distance svd_1x1 (pair_of_images v)
    (pair_of_images w) pixel_classifier 1
  = Ok (cast_back float64
          (frechet_formula svd_1x1 1
             (sample_mean 2 (entry2 (pair_activations v)))
             (sample_mean 2 (entry2 (pair_activations w)))
             (sample_covariance 2 (entry2 (pair_activations v)))
             (sample_covariance 2 (entry2 (pair_activations w))))).
Proof.
  rewrite frechet_steps.
  unfold pair_of_images.
  rewrite (@fid_activations_ok float64 2 [1%nat; 1%nat; 1%nat] [0; v] [0; w]
             pixel_classifier 1 [2%nat; 1%nat]
             [pair_activations v] [pair_activations w]);
    try reflexivity; try discriminate; [| repeat constructor].
  cbn [bind fst snd].
  rewrite (@fid_of_tensors_ok svd_1x1 float64 2 1) by reflexivity.
  reflexivity.
Qed.

(** The claim C4 as stated fails, and by more than rounding: when one
    covariance is below [eps] the guard leaves it un-rooted on one side
    only. Here the variances are 8 and 5e-11; with the larger one first the
    trace term is sqrt(4e-10) = 2e-5, with the smaller one first it is
    2e-20, and the two distances differ by more than 3e-5. *)
Lemma frechet_distance_asymmetric_counterexample :
  (forall M, svd_spec 1 M (svd_1x1 1 M)) /\
  exists x y : R,
    gan_metrics.frechet_classifier_distance svd_1x1 (pair_of_images 4)
      (pair_of_images (/ 100000)) pixel_classifier 1 = Ok (cast_back float64 x) /\
    gan_metrics.frechet_classifier_distance svd_1x1 (pair_of_images (/ 100000))
      (pair_of_images 4) pixel_classifier 1 = Ok (cast_back float64 y) /\
    3 / 100000 < y - x.
Proof.
  split; [exact svd_1x1_spec |].
  do 2 eexists; split; [apply pair_distance | split; [apply pair_distance |]].
  unfold frechet_formula.
  assert (Hc1 : sample_covariance 2 (entry2 (pair_activations 4)) 0%nat 0%nat = 8)
    by (rewrite pair_covariance; lra).
  assert (Hc2 : sample_covariance 2 (entry2 (pair_activations (/ 100000))) 0%nat 0%nat
                = 5 / 100000000000)
    by (rewrite pair_covariance; lra).
  rewrite !trace_sqrt_product_1x1 by (rewrite ?Hc1, ?Hc2; lra).
  rewrite Hc1, Hc2.
  assert (Hbig : forall x, / 10000000000 <= x -> guarded_root x = sqrt x).
  { intros x Hx; unfold guarded_root; rewrite default_eps_value.
    destruct (Rlt_dec x (/ 10000000000)); [lra | reflexivity]. }
  assert (Hsmall : forall x, x < / 10000000000 -> guarded_root x = x).
  { intros x Hx; unfold guarded_root; rewrite default_eps_value.
    destruct (Rlt_dec x (/ 10000000000)); [reflexivity | contradiction]. }
  rewrite (Hbig 8), (Hsmall (5 / 100000000000)) by lra.
  replace (sqrt 8 * (5 / 100000000000 * sqrt 8))
    with (5 / 100000000000 * (sqrt 8 * sqrt 8)) by ring.
  rewrite sqrt_sqrt by lra.
  replace (5 / 100000000000 * 8) with (2 / 100000 * (2 / 100000)) by lra.
  assert (Hp : 2 / 100000 * (2 / 100000) = 4 / 10000000000) by field.
  rewrite (Hbig (2 / 100000 * (2 / 100000))) by (rewrite Hp; lra).
  rewrite sqrt_square by lra.
  assert (Hq : 5 / 100000000000 * (8 * (5 / 100000000000))
               = 2 / 100000000000000000000) by field.
  rewrite Hq, Hsmall by lra.
  unfold tf_trace, madd; cbn [sum_n]; rewrite Hc1, Hc2.
  assert (Hm : forall p q : R, (p - q) * (p - q) = (q - p) * (q - p)) by (intros; ring).
  rewrite (Hm (sample_mean 2 (entry2 (pair_activations 4)) 0%nat)).
  lra.
Qed.




(* ================================================================== *)
(** * Part III. Further properties *)
(* ================================================================== *)

(** ** prediction.py *)

Lemma rsum_le_map (f g : R -> R) (l : list R) :
  (forall x, In x l -> f x <= g x) -> rsum (map f l) <= rsum (map g l).
Proof.
  induction l as [| x l IH]; intros H; simpl; [lra |].
  pose proof (H x (or_introl eq_refl)).
  assert (rsum (map f l) <= rsum (map g l)) by (apply IH; intros y Hy; apply H; right; exact Hy).
  lra.
Qed.

Lemma rsum_map_affine (a b : R) (l : list R) :
  rsum (map (fun x => a + b * x) l) = INR (length l) * a + b * rsum l.
Proof.
  induction l as [| x l IH]; [simpl; lra |].
  cbn [map rsum]; rewrite IH; change (length (x :: l)) with (S (length l)).
  rewrite S_INR; ring.
Qed.

Lemma rsum_map_id (l : list R) : rsum (map (fun x => x) l) = rsum l.
Proof. rewrite map_id; reflexivity. Qed.

Lemma rsum_bounds (lo hi : R) (l : list R) :
  Forall (fun v => lo <= v <= hi) l ->
  INR (length l) * lo <= rsum l <= INR (length l) * hi.
Proof.
  induction 1 as [| x l Hx _ IH]; [simpl; lra |].
  change (length (x :: l)) with (S (length l)); rewrite S_INR; cbn [rsum]; lra.
Qed.

Lemma INR_length_pos {A : Type} (l : list A) : l <> [] -> 0 < INR (length l).
Proof.
  intros H; destruct l; [congruence |]; apply lt_0_INR; simpl; lia.
Qed.

Lemma mean_bounds (lo hi : R) (l : list R) :
  l <> [] -> Forall (fun v => lo <= v <= hi) l -> lo <= mean l <= hi.
Proof.
  intros Hne Hall; pose proof (INR_length_pos Hne) as Hn.
  destruct (rsum_bounds Hall) as [H1 H2]; unfold mean, Rdiv.
  split.
  - apply (Rmult_le_reg_r (INR (length l))); [exact Hn |].
    rewrite Rmult_assoc, Rinv_l by lra; lra.
  - apply (Rmult_le_reg_r (INR (length l))); [exact Hn |].
    rewrite Rmult_assoc, Rinv_l by lra; lra.
Qed.

Lemma ln_le_linear (x m : R) : 0 < x -> 0 < m -> ln x <= ln m + (/ m) * x - 1.
Proof.
  intros Hx Hm.
  assert (Hq : 0 < x / m) by (apply Rdiv_lt_0_compat; assumption).
  pose proof (exp_ineq1_le (ln (x / m))) as H.
  rewrite exp_ln in H by exact Hq.
  unfold Rdiv in H at 1; rewrite ln_mult, ln_Rinv in H by (try apply Rinv_0_lt_compat; assumption).
  unfold Rdiv in H; lra.
Qed.

(** The inequality of the arithmetic and the geometric mean. *)
Lemma geometric_mean_le_mean (l : list R) :
  l <> [] -> Forall (fun v => 0 < v) l -> exp (mean (map ln l)) <= mean l.
Proof.
  intros Hne Hall; pose proof (INR_length_pos Hne) as Hn.
  assert (Hm : 0 < mean l).
  { unfold mean; apply Rdiv_lt_0_compat; [| exact Hn].
    destruct l as [| x l]; [congruence |].
    inversion Hall; subst.
    assert (0 <= rsum l).
    { clear - H2; induction H2; simpl; lra. }
    simpl; lra. }
  set (m := mean l) in *.
  apply Rle_trans with (exp (ln m)); [| rewrite exp_ln by exact Hm; lra].
  assert (Hle : mean (map ln l) <= ln m);
    [| destruct Hle as [Hlt | ->];
       [left; apply exp_increasing; exact Hlt | right; reflexivity]].
  unfold mean at 1; rewrite length_map.
  apply (Rmult_le_reg_r (INR (length l))); [exact Hn |].
  unfold Rdiv; rewrite Rmult_assoc, Rinv_l, Rmult_1_r by lra.
  apply Rle_trans with (rsum (map (fun x => (ln m - 1) + / m * x) l)).
  - apply rsum_le_map; intros x Hx.
    pose proof (proj1 (Forall_forall _ _) Hall x Hx) as Hpos.
    pose proof (ln_le_linear Hpos Hm); lra.
  - rewrite rsum_map_affine.
    assert (Hr : rsum l = m * INR (length l)) by (unfold m, mean; field; lra).
    rewrite Hr; right; field; lra.
Qed.

Section FurtherPredictionProperties.

Import prediction.

Variable input : Type.
Variables xform bbox batch : Type.
Variable round_to : dtype -> R -> R.

Lemma mapM_first_error {A B : Type} (f : A -> result B) (before after : list A)
    (a : A) (e : error) :
  Forall (fun x => exists b, f x = Ok b) before -> f a = Err e ->
  mapM f (before ++ a :: after) = Err e.
Proof.
  induction 1 as [| x before [b Hb] _ IH]; intros Ha; cbn [app mapM].
  - rewrite Ha; reflexivity.
  - rewrite Hb; cbn [bind]; rewrite (IH Ha); reflexivity.
Qed.

(** X1. When a member predictor fails, [EnsemblePredictor.predict] fails
    with the error of the first member that does, whatever the ensemble
    type: the members are run before the type is looked up, so an unknown
    type is only reported once all of them have succeeded. *)
Theorem ensemble_predict_member_error
    (before after : list (predictor input)) (p : predictor input)
    (X : input) (en_type : string) (e : error) :
  Forall (fun q => exists a, q X = Ok a) before ->
  p X = Err e ->
  EnsemblePredictor_predict round_to (before ++ p :: after) X en_type = Err e.
Proof.
  intros Hb Hp; unfold EnsemblePredictor_predict, predictor in *.
  rewrite (mapM_first_error (fun q => q X) after p Hb Hp).
  reflexivity.
Qed.

(** X2. Members whose predictions differ in shape cannot be combined:
    [np.array(..., dtype=np.float32)] refuses them and
    [EnsemblePredictor.predict] fails, for every ensemble type. *)
Theorem ensemble_predict_shape_mismatch
    (predictors : list (predictor input)) (X : input) (en_type : string)
    (a b : tensor) (rest : list tensor) :
  mapM (fun p => p X) predictors = Ok (a :: rest) ->
  In b rest -> t_shape b <> t_shape a ->
  EnsemblePredictor_predict round_to predictors X en_type = Err ShapeMismatch.
Proof.
  intros Hp Hin Hsh; unfold EnsemblePredictor_predict; rewrite Hp; cbn [bind np_array].
  replace (forallb (fun b0 => list_eqb_nat (t_shape a) (t_shape b0)) rest) with false;
    [reflexivity |].
  symmetry; apply not_true_is_false; intros H.
  apply (proj1 (forallb_forall _ _) H) in Hin.
  apply list_eqb_nat_true in Hin; congruence.
Qed.

Lemma member_column_nonempty (j : nat) (preds : list tensor) :
  preds <> [] -> member_column j preds <> [].
Proof. destruct preds; [congruence | discriminate]. Qed.

Lemma member_column_Forall (P : R -> Prop) (s : list nat) (preds : list tensor) (j : nat) :
  Forall (fun a => t_shape a = s /\ wf a) preds ->
  Forall (fun a => Forall P (t_data a)) preds ->
  (j < prod_shape s)%nat ->
  Forall P (member_column j preds).
Proof.
  intros Hs HP Hj; unfold member_column; apply Forall_map.
  apply Forall_forall; intros a Ha.
  pose proof (proj1 (Forall_forall _ _) Hs a Ha) as [Hsh Hwf].
  pose proof (proj1 (Forall_forall _ _) HP a Ha) as Hall.
  apply (proj1 (Forall_forall _ _) Hall), nth_In.
  unfold wf in Hwf; rewrite Hwf, Hsh; exact Hj.
Qed.

Lemma of_tensor_tabulated (d : dtype) (s : list nat) (f : nat -> R) (n : nat) :
  mkArray d s (map (fun j => Finite (f j)) (seq 0 n))
  = of_tensor (mkTensor d s (map f (seq 0 n))).
Proof. unfold of_tensor; cbn [t_dtype t_shape t_data]; rewrite map_map; reflexivity. Qed.

(** X3. The 'mean' ensemble stays within the range of the member
    predictions: when the float32 values of every member's predictions
    lie in [lo, hi] (such as probabilities in [0, 1]), the ensemble is
    finite and lies there too. *)
Theorem ensemble_mean_within_bounds
    (predictors : list (predictor input)) (X : input)
    (preds : list tensor) (s : list nat) (lo hi : R) :
  mapM (fun p => p X) predictors = Ok preds ->
  preds <> [] ->
  Forall (fun a => t_shape a = s /\ wf a) preds ->
  Forall (within lo hi) (map (astype round_to float32) preds) ->
  exists r,
    EnsemblePredictor_predict round_to predictors X "mean" = Ok (of_tensor r) /\
    t_shape r = s /\
    forall j, (j < prod_shape s)%nat -> lo <= nth j (t_data r) 0 <= hi.
Proof.
  intros Hp Hne Hall Hin.
  destruct (ensemble_predict_elements round_to _ _ Hp Hne Hall) as [Hm _].
  rewrite of_tensor_tabulated in Hm.
  eexists; split; [exact Hm | split; [reflexivity |]].
  intros j Hlt; cbn [t_data]; rewrite nth_map_seq by exact Hlt.
  apply mean_bounds.
  - apply member_column_nonempty; destruct preds; [congruence | discriminate].
  - exact (@member_column_Forall (fun v => lo <= v <= hi) s _ j
             (astype_Forall round_to float32 Hall) Hin Hlt).
Qed.

(** X4. For member predictions whose float32 values are positive the
    'gmean' ensemble is finite, positive and nowhere above the 'mean'
    ensemble (the inequality of the geometric and the arithmetic mean,
    element by element). *)
Theorem ensemble_gmean_le_mean
    (predictors : list (predictor input)) (X : input)
    (preds : list tensor) (s : list nat) :
  mapM (fun p => p X) predictors = Ok preds ->
  preds <> [] ->
  Forall (fun a => t_shape a = s /\ wf a) preds ->
  Forall positive (map (astype round_to float32) preds) ->
  exists r_mean r_gmean,
    EnsemblePredictor_predict round_to predictors X "mean" = Ok (of_tensor r_mean) /\
    EnsemblePredictor_predict round_to predictors X "gmean" = Ok (of_tensor r_gmean) /\
    forall j, (j < prod_shape s)%nat ->
      0 < nth j (t_data r_gmean) 0 <= nth j (t_data r_mean) 0.
Proof.
  intros Hp Hne Hall Hpos.
  destruct (ensemble_predict_elements round_to _ _ Hp Hne Hall) as [Hm [Hg _]].
  set (col := fun j => member_column j (map (astype round_to float32) preds)) in *.
  assert (Hcol : forall j, (j < prod_shape s)%nat ->
             col j <> [] /\ Forall (fun v => 0 < v) (col j)).
  { intros j Hlt; split.
    - apply member_column_nonempty; destruct preds; [congruence | discriminate].
    - exact (@member_column_Forall (fun v => 0 < v) s _ j
               (astype_Forall round_to float32 Hall) Hpos Hlt). }
  rewrite of_tensor_tabulated in Hm.
  assert (Hg' : EnsemblePredictor_predict round_to predictors X "gmean"
                = Ok (of_tensor (mkTensor float32 s
                        (map (fun j => exp (mean (map ln (col j))))
                             (seq 0 (prod_shape s)))))).
  { rewrite Hg, <- of_tensor_tabulated; do 2 f_equal.
    apply map_ext_in; intros j Hj; apply in_seq in Hj.
    destruct (Hcol j) as [Hc1 Hc2]; [lia |].
    destruct (gmean_nonneg Hc1) as [g [Hx [_ [Hv _]]]].
    - apply Forall_forall; intros v Hv.
      apply (proj1 (Forall_forall _ _) Hc2) in Hv; lra.
    - fold (col j); rewrite Hx, (Hv Hc2); reflexivity. }
  do 2 eexists; split; [exact Hm | split; [exact Hg' |]].
  intros j Hlt; cbn [t_data]; rewrite !nth_map_seq by exact Hlt.
  destruct (Hcol j Hlt) as [Hc1 Hc2].
  split; [apply exp_pos | apply geometric_mean_le_mean; assumption].
Qed.

Lemma _ensemble_log_mean (x : tensor) :
  _ensemble "log_mean" x = Ok (np_mean0 (np_log (add_eq0_mask x))).
Proof. reflexivity. Qed.

Lemma _ensemble_gmean (x : tensor) : _ensemble "gmean" x = Ok (gmean x).
Proof. reflexivity. Qed.

Lemma zero_guard_of_one_for_zero (v : R) :
  zero_guard (if Req_EM_T v 0 then 1 else v) = zero_guard v.
Proof.
  unfold zero_guard; destruct (Req_EM_T v 0) as [-> | Hv].
  - destruct (Req_EM_T 1 0); lra.
  - destruct (Req_EM_T v 0); [contradiction | reflexivity].
Qed.

Lemma xlog_zero_guard_nonneg (v : R) :
  0 <= v -> xlog (zero_guard v) = Finite (if Req_EM_T v 0 then 0 else ln v).
Proof.
  intros Hv; unfold zero_guard; destruct (Req_EM_T v 0) as [-> | Hne].
  - rewrite Rplus_0_l, xlog_pos, ln_1 by lra; reflexivity.
  - rewrite Rplus_0_r, xlog_pos by lra; reflexivity.
Qed.

(** X5. The zero guard of 'log_mean' makes a prediction of exactly 0
    count as a prediction of 1, whose logarithm is 0 and not [-inf]:
    replacing the zeros of the stacked predictions by ones does not change
    the result, and on predictions that are not negative every element of
    the result is finite. *)
Theorem log_mean_counts_zero_as_one (x : tensor) :
  _ensemble "log_mean" (zeros_as_ones x) = _ensemble "log_mean" x /\
  (Forall (fun v => 0 <= v) (t_data x) ->
   Forall (fun v => exists r, v = Finite r) (a_data (np_log (add_eq0_mask x)))).
Proof.
  split.
  - rewrite !_ensemble_log_mean; do 3 f_equal.
    unfold add_eq0_mask, zeros_as_ones, tmap; cbn [t_dtype t_shape t_data].
    f_equal; rewrite map_map; apply map_ext; intros v.
    apply zero_guard_of_one_for_zero.
  - intros Hnn; unfold np_log, add_eq0_mask, tmap; cbn [a_data t_data].
    rewrite map_map; apply Forall_map; apply Forall_forall; intros v Hv.
    apply (proj1 (Forall_forall _ _) Hnn) in Hv.
    eexists; apply xlog_zero_guard_nonneg; exact Hv.
Qed.

(** X6. On positive predictions the two logarithmic combinations agree:
    'gmean' is the exponential of 'log_mean', which itself stays in the
    logarithmic domain. *)
Theorem gmean_is_exp_of_log_mean (x : tensor) :
  positive x ->
  exists r,
    _ensemble "log_mean" x = Ok r /\
    _ensemble "gmean" x = Ok (np_exp r).
Proof.
  intros Hpos; eexists; split; [apply _ensemble_log_mean |].
  rewrite _ensemble_gmean; unfold gmean; do 4 f_equal.
  unfold add_eq0_mask, tmap; destruct x as [d sh data]; cbn [t_dtype t_shape t_data] in *.
  f_equal; rewrite <- (map_id data) at 1; apply map_ext_in; intros v Hv.
  pose proof (proj1 (Forall_forall _ _) Hpos v Hv) as Hv0; cbn beta in Hv0.
  unfold zero_guard; destruct (Req_EM_T v 0); lra.
Qed.

(** X7. With [number_of_crops] above 1, whatever its value,
    [CropPredictor._real_predict] returns the element-wise mean of the
    one-crop predictions over the boxes of [util.get_bbox_10crop]. *)
Theorem crop_predictor_averages_boxes
    (self : CropPredictor input xform bbox batch) (X : input)
    (preds : list tensor) (s : list nat) :
  (1 < number_of_crops self)%Z ->
  mapM (fun b => OneCropPredictor_real_predict (crop_predictor self) X None (Some b))
       (get_bbox_10crop self (crop_size self) (im_size self)) = Ok preds ->
  preds <> [] ->
  Forall (fun a => t_shape a = s /\ wf a) preds ->
  exists m,
    CropPredictor_real_predict round_to self X = Ok (PyArray (of_tensor m)) /\
    t_shape m = s /\
    forall j, (j < prod_shape s)%nat ->
      nth j (t_data m) 0 = mean (member_column j preds).
Proof.
  intros Hn Hp Hne Hall; unfold CropPredictor_real_predict.
  destruct (Z.gtb_spec (number_of_crops self) 1) as [_ | H]; [| lia].
  rewrite Hp; cbn [bind]; unfold np_mean0_list.
  destruct (np_array_stacks round_to None Hne Hall) as [stacked [Hst [Hdt [Hsh Hsl]]]].
  rewrite Hst; cbn [bind]; unfold of_tensor at 1.
  rewrite (@np_mean0_of_map Finite _ s stacked preds Hsh Hsl Hall).
  rewrite (@map_ext _ _ (fun j => xmean (map Finite (member_column j preds)))
             (fun j => Finite (mean (member_column j preds))))
    by (intros j; apply xmean_finite, member_column_nonempty; exact Hne).
  rewrite of_tensor_tabulated.
  eexists; split; [reflexivity | split; [reflexivity |]].
  intros j Hj; cbn [t_data]; rewrite nth_map_seq by exact Hj; reflexivity.
Qed.

Lemma atleast_2d_rank2 (o : tensor) (n C : nat) :
  t_shape o = [n; C] -> atleast_2d o = o.
Proof. intros H; unfold atleast_2d; rewrite H; reflexivity. Qed.

Lemma np_vstack_rows (C : nat) (outs : list tensor) :
  outs <> [] ->
  Forall (fun o => exists n, t_shape o = [n; C] /\ wf o) outs ->
  exists r,
    np_vstack outs = Ok r /\
    t_shape r = [fold_right Nat.add 0%nat (map dim0 outs); C] /\
    t_data r = concat (map t_data outs) /\ wf r.
Proof.
  intros Hne Hall.
  assert (Hid : map atleast_2d outs = outs).
  { rewrite <- (map_id outs) at 2; apply map_ext_in; intros o Ho.
    apply (proj1 (Forall_forall _ _) Hall) in Ho; destruct Ho as [n [Hn _]].
    exact (atleast_2d_rank2 o Hn). }
  unfold np_vstack; rewrite Hid.
  destruct outs as [| a rest]; [congruence |].
  assert (Hs : forall o, In o (a :: rest) -> slice_shape o = [C]).
  { intros o Ho; apply (proj1 (Forall_forall _ _) Hall) in Ho.
    destruct Ho as [n [Hn _]]; unfold slice_shape; rewrite Hn; reflexivity. }
  replace (forallb (fun b => list_eqb_nat (slice_shape a) (slice_shape b)) rest) with true.
  - eexists; split; [reflexivity |]; cbn [t_shape t_data].
    rewrite (Hs a (or_introl eq_refl)); repeat split.
    unfold wf; cbn [t_shape t_data prod_shape fold_right].
    clear Hne Hs Hid; induction Hall as [| o outs [n [Hn Hw]] _ IH]; [reflexivity |].
    cbn [map concat fold_right]; rewrite length_app, IH.
    unfold wf in Hw; rewrite Hw, Hn; unfold dim0; rewrite Hn; simpl; lia.
  - symmetry; apply forallb_forall; intros b Hb; apply list_eqb_nat_true.
    rewrite (Hs a (or_introl eq_refl)), (Hs b (or_intror Hb)); reflexivity.
Qed.

(** X8. [OneCropPredictor._real_predict] fails when the iterator yields
    no batch ([np.vstack] of an empty list); otherwise, for batch outputs
    of [C] columns, it returns their rows in order: as many rows as the
    outputs have together, and one element per index. *)
Theorem one_crop_predictor_stacks_batches
    (self : OneCropPredictor input xform bbox batch) (X : input)
    (xf : option xform) (crop_bbox : option bbox) :
  (prediction_iterator self X xf crop_bbox = [] ->
   exists e, OneCropPredictor_real_predict self X xf crop_bbox = Err e) /\
  (forall outs C,
     mapM (sess_run self) (prediction_iterator self X xf crop_bbox) = Ok outs ->
     outs <> [] ->
     Forall (fun o => exists n, t_shape o = [n; C] /\ wf o) outs ->
     exists r,
       OneCropPredictor_real_predict self X xf crop_bbox = Ok r /\
       t_shape r = [fold_right Nat.add 0%nat (map dim0 outs); C] /\
       t_data r = concat (map t_data outs) /\ wf r).
Proof.
  split.
  - intros H; unfold OneCropPredictor_real_predict; rewrite H.
    eexists; reflexivity.
  - intros outs C Hm Hne Hall; unfold OneCropPredictor_real_predict.
    rewrite Hm; cbn [bind]; apply np_vstack_rows; assumption.
Qed.

End FurtherPredictionProperties.

(** ** Errors of the GAN metrics *)

Section FurtherInceptionProperties.

Import gan_metrics.

Variable graph_def : Type.
Variable import_graph_def : graph_def -> string -> tensor -> string -> result tensor.
Variable _default_graph_def_fn : unit -> result graph_def.
Variable svd : nat -> mat -> vec * mat * mat.

(** X9. [_validate_images] accepts exactly the 4-D tensors whose second
    and third dimensions equal [image_size], and returns them unchanged;
    the batch size and the number of channels are free. *)
Theorem validate_images_accepts (images t : tensor) (image_size : nat) :
  _validate_images images image_size = Ok t <->
  t = images /\ exists b c, t_shape images = [b; image_size; image_size; c].
Proof.
  unfold _validate_images, rank.
  destruct images as [d sh data]; cbn [t_shape].
  destruct sh as [| b [| h [| w [| c [| x sh]]]]]; cbn [length Nat.eqb negb nth];
    try (split; [discriminate | intros [_ (b' & c' & H)]; discriminate H]).
  destruct (Nat.eqb_spec h image_size) as [-> | Hh];
    [destruct (Nat.eqb_spec w image_size) as [-> | Hw] |]; cbn [andb].
  - split.
    + intros H; inversion H; split; [reflexivity | exists b, c; reflexivity].
    + intros [-> _]; reflexivity.
  - split; [discriminate | intros [_ (b' & c' & H)]; inversion H; congruence].
  - split; [discriminate | intros [_ (b' & c' & H)]; inversion H; congruence].
Qed.

(** Validation comes first: images it rejects reach neither the graph
    nor its provider. *)
Lemma run_inception_validates_first
    (images : tensor) (image_size : nat) (e : error)
    (g : option graph_def) (default_graph_def_fn : option (unit -> result graph_def))
    (input_tensor output_tensor : string) :
  _validate_images images image_size = Err e ->
  run_inception import_graph_def images g default_graph_def_fn image_size
    input_tensor output_tensor = Err e.
Proof. intros H; unfold run_inception; rewrite H; reflexivity. Qed.

Lemma tf_unstack_stacked_head (dt : dtype) (sh : list nat) (c : list R)
    (cks : list (list R)) :
  exists x rest,
    tf_unstack (mkTensor dt (length (c :: cks) :: sh) (concat (c :: cks)))
    = x :: rest /\ t_shape x = sh /\ t_dtype x = dt.
Proof.
  unfold tf_unstack, slices, slice_shape, dim0; cbn [t_shape t_dtype t_data hd tl length chunks map].
  do 2 eexists; split; [reflexivity | split; reflexivity].
Qed.

(** A classifier that refuses every batch of the shape the split produces
    makes the score, and the distance, fail with its error. *)
Lemma classifier_score_classifier_error
    (dt : dtype) (N : nat) (rest : list nat) (data : list R)
    (f : tensor -> result tensor) (nb : nat) (e : error) :
  nb <> 0%nat -> (N mod nb = 0)%nat ->
  (forall t, t_shape t = (N / nb)%nat :: rest -> f t = Err e) ->
  classifier_score (mkTensor dt (N :: rest) data) f nb = Err e.
Proof.
  intros Hnb Hmod Hf; unfold classifier_score.
  rewrite tf_split_even by assumption; cbn [bind].
  set (cks := chunks (N / nb * prod_shape rest) nb data).
  assert (Hlen : length cks = nb) by apply chunks_length.
  destruct cks as [| c cks']; [simpl in Hlen; congruence |].
  rewrite tf_stack_mk by discriminate; cbn [bind].
  unfold map_fn.
  destruct (tf_unstack_stacked_head dt ((N / nb)%nat :: rest) c cks')
    as (x & xs & -> & Hx & _).
  cbn [mapM]; rewrite (Hf x Hx); reflexivity.
Qed.

Lemma frechet_distance_classifier_error
    (dt : dtype) (N : nat) (rest : list nat) (data_a data_b : list R)
    (f : tensor -> result tensor) (nb : nat) (e : error) :
  nb <> 0%nat -> (N mod nb = 0)%nat ->
  (forall t, t_shape t = (N / nb)%nat :: rest -> f t = Err e) ->
  frechet_classifier_distance svd (mkTensor dt (N :: rest) data_a)
    (mkTensor dt (N :: rest) data_b) f nb = Err e.
Proof.
  intros Hnb Hmod Hf; unfold frechet_classifier_distance.
  rewrite !tf_split_even by assumption; cbn [bind].
  rewrite <- map_app.
  set (cks := chunks (N / nb * prod_shape rest) nb data_a).
  assert (Hlen : length cks = nb) by apply chunks_length.
  destruct cks as [| c cks']; [simpl in Hlen; congruence |].
  rewrite tf_stack_mk by discriminate; cbn [bind app].
  unfold map_fn.
  destruct (tf_unstack_stacked_head dt ((N / nb)%nat :: rest) c
              (cks' ++ chunks (N / nb * prod_shape rest) nb data_b))
    as (x & xs & -> & Hx & _).
  cbn [mapM]; rewrite (Hf x Hx); reflexivity.
Qed.

Lemma run_inception_wrong_size (b h w c : nat) (t : tensor)
    (g : option graph_def) (dflt : option (unit -> result graph_def))
    (input_tensor output_tensor : string) :
  t_shape t = [b; h; w; c] ->
  h <> INCEPTION_DEFAULT_IMAGE_SIZE \/ w <> INCEPTION_DEFAULT_IMAGE_SIZE ->
  run_inception import_graph_def t g dflt INCEPTION_DEFAULT_IMAGE_SIZE
    input_tensor output_tensor = Err ShapeMismatch.
Proof.
  intros Hs Hhw; apply run_inception_validates_first.
  unfold _validate_images, rank; rewrite Hs; cbn [length Nat.eqb negb nth].
  destruct (Nat.eqb_spec h INCEPTION_DEFAULT_IMAGE_SIZE) as [Hh | Hh];
    destruct (Nat.eqb_spec w INCEPTION_DEFAULT_IMAGE_SIZE) as [Hw | Hw];
    cbn [andb]; try reflexivity.
  destruct Hhw; contradiction.
Qed.

(** X10. [inception_score] only takes images of 299 by 299 pixels: on a
    batch of any other height or width it fails with a shape error, before
    the Inception graph is fetched or run. *)
Theorem inception_score_needs_299
    (dt : dtype) (N h w c : nat) (data : list R) (nb : nat) :
  nb <> 0%nat -> (N mod nb = 0)%nat ->
  h <> 299%nat \/ w <> 299%nat ->
  inception_score import_graph_def _default_graph_def_fn
    (mkTensor dt [N; h; w; c] data) nb = Err ShapeMismatch.
Proof.
  intros Hnb Hmod Hhw; unfold inception_score.
  apply classifier_score_classifier_error; try assumption.
  intros t Ht; apply (@run_inception_wrong_size (N / nb) h w c); assumption.
Qed.

(** X11. [frechet_inception_distance] likewise fails with a shape error
    on image sets that are not 299 by 299 pixels. *)
Theorem frechet_inception_distance_needs_299
    (dt : dtype) (N h w c : nat) (data_a data_b : list R) (nb : nat) :
  nb <> 0%nat -> (N mod nb = 0)%nat ->
  h <> 299%nat \/ w <> 299%nat ->
  frechet_inception_distance import_graph_def _default_graph_def_fn svd
    (mkTensor dt [N; h; w; c] data_a) (mkTensor dt [N; h; w; c] data_b) nb
  = Err ShapeMismatch.
Proof.
  intros Hnb Hmod Hhw; unfold frechet_inception_distance.
  apply frechet_distance_classifier_error; try assumption.
  intros t Ht; apply (@run_inception_wrong_size (N / nb) h w c); assumption.
Qed.

Lemma tf_split_uneven (t : tensor) (N : nat) (rest : list nat) (nb : nat) :
  t_shape t = N :: rest -> nb = 0%nat \/ (N mod nb <> 0)%nat ->
  tf_split t nb = Err (NotDivisible N nb).
Proof.
  intros Hs H; unfold tf_split; rewrite Hs.
  destruct (Nat.eqb_spec nb 0) as [-> | Hnb]; [reflexivity |].
  destruct H as [H | H]; [contradiction |].
  apply Nat.eqb_neq in H; rewrite H; reflexivity.
Qed.

(** X12. A split count that is zero or does not divide the number of
    images makes [classifier_score] and [frechet_classifier_distance] fail
    with a shape error ([tf.split]), whatever the classifier. *)
Theorem split_count_must_divide
    (images generated_images : tensor) (N : nat) (rest : list nat)
    (f : tensor -> result tensor) (nb : nat) :
  t_shape images = N :: rest ->
  nb = 0%nat \/ (N mod nb <> 0)%nat ->
  classifier_score images f nb = Err (NotDivisible N nb) /\
  frechet_classifier_distance svd images generated_images f nb
    = Err (NotDivisible N nb) /\
  error_category (NotDivisible N nb) = ShapeError.
Proof.
  intros Hs H; repeat split.
  - unfold classifier_score; rewrite (tf_split_uneven _ Hs H); reflexivity.
  - unfold frechet_classifier_distance; rewrite (tf_split_uneven _ Hs H); reflexivity.
Qed.

Lemma div_exact_neq (N N' nb : nat) :
  nb <> 0%nat -> (N mod nb = 0)%nat -> (N' mod nb = 0)%nat -> N <> N' ->
  (N / nb <> N' / nb)%nat.
Proof.
  intros Hnb H H' Hne E.
  apply Nat.Div0.div_exact in H; apply Nat.Div0.div_exact in H'.
  rewrite E in H; congruence.
Qed.

(** X13. [frechet_classifier_distance] needs real and generated image
    sets of one shape (in particular equally many images): otherwise
    stacking their batches fails, whatever the classifier. *)
Theorem frechet_distance_needs_equal_shapes
    (dt dt' : dtype) (N N' : nat) (rest rest' : list nat) (data_a data_b : list R)
    (f : tensor -> result tensor) (nb : nat) :
  nb <> 0%nat -> (N mod nb = 0)%nat -> (N' mod nb = 0)%nat ->
  N :: rest <> N' :: rest' ->
  frechet_classifier_distance svd (mkTensor dt (N :: rest) data_a)
    (mkTensor dt' (N' :: rest') data_b) f nb = Err ShapeMismatch.
Proof.
  intros Hnb Hmod Hmod' Hne; unfold frechet_classifier_distance.
  rewrite !tf_split_even by assumption; cbn [bind].
  set (cka := chunks (N / nb * prod_shape rest) nb data_a).
  set (ckb := chunks (N' / nb * prod_shape rest') nb data_b).
  assert (Hla : length cka = nb) by apply chunks_length.
  assert (Hlb : length ckb = nb) by apply chunks_length.
  destruct cka as [| a cka']; [simpl in Hla; congruence |].
  destruct ckb as [| b ckb']; [simpl in Hlb; congruence |].
  cbn [map app tf_stack].
  replace (forallb _ _) with false; [reflexivity |].
  symmetry; apply not_true_is_false; intros H.
  rewrite forallb_app in H; apply andb_prop in H; destruct H as [_ H].
  cbn [forallb] in H; apply andb_prop in H; destruct H as [H _].
  unfold same_shape in H; cbn [t_shape t_dtype] in H.
  apply andb_prop in H; destruct H as [H _].
  apply list_eqb_nat_true in H; inversion H as [[Hd Hr]].
  destruct (Nat.eq_dec N N') as [-> | HN]; [congruence |].
  exact (div_exact_neq Hnb Hmod Hmod' HN Hd).
Qed.


(** X14. [tf.map_fn] is called without [dtype], so the classifier must
    return the dtype of the images: when it answers a batch in another
    dtype, [classifier_score] fails with a dtype error. *)
Theorem classifier_score_needs_image_dtype
    (dt : dtype) (N : nat) (rest : list nat) (data : list R)
    (f : tensor -> result tensor) (nb : nat) (outs : list tensor) (o : tensor) :
  length data = (N * prod_shape rest)%nat ->
  nb <> 0%nat -> (N mod nb = 0)%nat ->
  mapM f (batches (mkTensor dt (N :: rest) data) nb) = Ok outs ->
  In o outs -> t_dtype o <> dt ->
  classifier_score (mkTensor dt (N :: rest) data) f nb = Err DtypeMismatch.
Proof.
  intros Hlen Hnb Hmod Hm Hin Hdt; unfold classifier_score.
  rewrite tf_split_even by assumption; cbn [bind].
  set (m := (N / nb)%nat) in *.
  assert (HN : N = (nb * m)%nat) by (apply Nat.Div0.div_exact; exact Hmod).
  set (cks := chunks (m * prod_shape rest) nb data).
  assert (Hcl : length cks = nb) by apply chunks_length.
  assert (Hne : cks <> []) by (intros E; rewrite E in Hcl; simpl in Hcl; lia).
  assert (Hall : Forall (fun c => length c = (m * prod_shape rest)%nat) cks)
    by (apply chunks_Forall_length; rewrite Hlen, HN; lia).
  rewrite tf_stack_mk by exact Hne; cbn [bind].
  unfold map_fn; rewrite tf_unstack_mk by exact Hall.
  change (map (mkTensor dt (m :: rest)) cks)
    with (batches (mkTensor dt (N :: rest) data) nb).
  rewrite Hm; cbn [bind t_dtype].
  replace (forallb (fun o0 => dtype_eqb (t_dtype o0) dt) outs) with false;
    [reflexivity |].
  symmetry; apply not_true_is_false; intros H.
  apply (proj1 (forallb_forall _ _) H) in Hin.
  apply dtype_eqb_true in Hin; contradiction.
Qed.

End FurtherInceptionProperties.

(** ** Invariances of the classifier score *)

Section FurtherScoreProperties.

Import gan_metrics.

Lemma sum_n_le (n : nat) (f g : nat -> R) :
  (forall k, (k < n)%nat -> f k <= g k) -> sum_n n f <= sum_n n g.
Proof.
  induction n as [| n IH]; simpl; intros H; [lra |].
  assert (sum_n n f <= sum_n n g) by (apply IH; intros; apply H; lia).
  assert (f n <= g n) by (apply H; lia); lra.
Qed.

Lemma sum_n_pos (n : nat) (f : nat -> R) :
  (0 < n)%nat -> (forall k, (k < n)%nat -> 0 < f k) -> 0 < sum_n n f.
Proof.
  intros Hn H; destruct n as [| n]; [lia |]; simpl.
  assert (0 <= sum_n n f) by (apply sum_n_nonneg; intros; left; apply H; lia).
  assert (0 < f n) by (apply H; lia); lra.
Qed.

Lemma sum_n_const (n : nat) (c : R) : sum_n n (fun _ => c) = INR n * c.
Proof.
  induction n as [| n IH]; [simpl; lra |].
  cbn [sum_n]; rewrite IH, S_INR; ring.
Qed.

(** Gibbs' inequality: the divergence of a distribution [p] from positive
    weights [q] of total at most 1 is not negative. *)
Lemma gibbs_inequality (D : nat) (p q : vec) :
  (forall j, (j < D)%nat -> 0 < p j) ->
  (forall j, (j < D)%nat -> 0 < q j) ->
  sum_n D p = 1 -> sum_n D q <= 1 ->
  0 <= sum_n D (fun j => p j * (ln (p j) - ln (q j))).
Proof.
  intros Hp Hq Hsp Hsq.
  assert (H : sum_n D (fun j => p j - q j)
              <= sum_n D (fun j => p j * (ln (p j) - ln (q j)))).
  { apply sum_n_le; intros j Hj.
    pose proof (Hp j Hj) as Hpj; pose proof (Hq j Hj) as Hqj.
    pose proof (ln_le_linear Hqj Hpj) as Hl.
    assert (Hm : p j * ln (q j) <= p j * (ln (p j) + / p j * q j - 1))
      by (apply Rmult_le_compat_l; lra).
    replace (p j * (ln (p j) + / p j * q j - 1))
      with (p j * ln (p j) + q j - p j) in Hm by (field; lra).
    lra. }
  rewrite sum_n_minus in H; lra.
Qed.

(** The softmax of a row of logits is a distribution with positive
    entries, and its logarithm is the log-softmax. *)
Lemma softmax_of_pos (L : mat) (D i j : nat) :
  (j < D)%nat -> 0 < softmax_of L D i j.
Proof.
  intros Hj; unfold softmax_of; apply Rdiv_lt_0_compat; [apply exp_pos |].
  apply sum_n_pos; [lia | intros; apply exp_pos].
Qed.

Lemma softmax_of_sum (L : mat) (D i : nat) :
  (0 < D)%nat -> sum_n D (softmax_of L D i) = 1.
Proof.
  intros HD; unfold softmax_of, Rdiv.
  rewrite sum_n_scal_r; apply Rinv_r.
  apply Rgt_not_eq, sum_n_pos; [exact HD | intros; apply exp_pos].
Qed.

Lemma ln_softmax_of (L : mat) (D i j : nat) :
  (j < D)%nat ->
  ln (softmax_of L D i j) = L i j - ln (sum_n D (fun k => exp (L i k))).
Proof.
  intros Hj; unfold softmax_of, Rdiv.
  assert (0 < sum_n D (fun k => exp (L i k)))
    by (apply sum_n_pos; [lia | intros; apply exp_pos]).
  rewrite ln_mult, ln_Rinv, ln_exp by (try apply Rinv_0_lt_compat; try apply exp_pos; assumption).
  lra.
Qed.

(** The divergence of a row in terms of the probabilities alone. *)
Lemma kl_row_softmax (L : mat) (q : vec) (D i : nat) :
  kl_row (softmax_of L D) L q D i
  = sum_n D (fun j => softmax_of L D i j * (ln (softmax_of L D i j) - ln (q j))).
Proof.
  unfold kl_row; apply sum_n_ext; intros j Hj.
  rewrite ln_softmax_of by exact Hj; reflexivity.
Qed.

Lemma kl_row_nonneg (L : mat) (q : vec) (D i : nat) :
  (0 < D)%nat ->
  (forall j, (j < D)%nat -> 0 < q j) -> sum_n D q <= 1 ->
  0 <= kl_row (softmax_of L D) L q D i.
Proof.
  intros HD Hq Hs; rewrite kl_row_softmax.
  apply gibbs_inequality; try assumption.
  - intros j Hj; apply softmax_of_pos; exact Hj.
  - apply softmax_of_sum; exact HD.
Qed.

(** The score of a classifier that treats its batch image by image. *)
Lemma classifier_score_per_image
    (dt : dtype) (N : nat) (rest : list nat) (data : list R)
    (f : tensor -> result tensor) (D : nat) (g : list R -> list R) (nb : nat) :
  length data = (N * prod_shape rest)%nat ->
  per_image f dt D g ->
  nb <> 0%nat -> (N mod nb = 0)%nat ->
  classifier_score (mkTensor dt (N :: rest) data) f nb
  = Ok (cast_back dt
          (score_formula N D (logit_of g (mkTensor dt (N :: rest) data)))).
Proof.
  intros Hlen Hf Hnb Hmod.
  rewrite classifier_score_steps.
  rewrite (@logits_of_batches_per_image dt N rest data f D g nb Hlen Hnb Hmod Hf);
    cbn [bind].
  rewrite score_of_logits_formula; do 2 f_equal.
  apply score_formula_ext; intros i j Hi Hj.
  unfold entry2, logit_of, dim1; cbn [t_shape t_data nth].
  apply nth_flat_map_const; [exact (proj1 Hf) | | exact Hj].
  unfold slices, dim0; cbn [t_shape hd]; rewrite chunks_length; exact Hi.
Qed.

(** Shifting the logits of each image by a constant changes neither its
    probabilities nor its log-probabilities. *)
Lemma score_formula_shift (L L' : mat) (c : vec) (N D : nat) :
  (forall i j, (i < N)%nat -> (j < D)%nat -> L' i j = L i j + c i) ->
  score_formula N D L' = score_formula N D L.
Proof.
  intros Hs.
  assert (HZ : forall i, (i < N)%nat ->
             sum_n D (fun k => exp (L' i k))
             = exp (c i) * sum_n D (fun k => exp (L i k))).
  { intros i Hi; rewrite <- sum_n_scal_l; apply sum_n_ext; intros k Hk.
    rewrite (Hs i k Hi Hk), exp_plus; ring. }
  assert (HP : forall i j, (i < N)%nat -> (j < D)%nat ->
             softmax_of L' D i j = softmax_of L D i j).
  { intros i j Hi Hj; unfold softmax_of.
    rewrite (HZ i Hi), (Hs i j Hi Hj), exp_plus.
    assert (0 < sum_n D (fun k => exp (L i k)))
      by (apply sum_n_pos; [lia | intros; apply exp_pos]).
    pose proof (exp_pos (c i)); field; split; lra. }
  unfold score_formula; do 2 f_equal.
  apply sum_n_ext; intros i Hi; unfold kl_row; apply sum_n_ext; intros j Hj.
  rewrite (HP i j Hi Hj), (HZ i Hi), (Hs i j Hi Hj).
  assert (0 < sum_n D (fun k => exp (L i k)))
    by (apply sum_n_pos; [lia | intros; apply exp_pos]).
  rewrite ln_mult, ln_exp by (try apply exp_pos; assumption).
  replace (marginal (softmax_of L' D) N j) with (marginal (softmax_of L D) N j).
  - ring.
  - unfold marginal; f_equal; apply sum_n_ext; intros i' Hi'.
    symmetry; apply HP; assumption.
Qed.

(** X17. The score depends on the logits of an image only up to an
    additive constant: shifting the logits of each image by a number of
    its own leaves [classifier_score] unchanged. *)
Theorem classifier_score_shift_invariant
    (dt : dtype) (N : nat) (rest : list nat) (data : list R)
    (f f' : tensor -> result tensor) (D : nat) (g : list R -> list R)
    (c : list R -> R) (nb : nat) :
  length data = (N * prod_shape rest)%nat ->
  per_image f dt D g ->
  per_image f' dt D (fun x => map (fun v => v + c x) (g x)) ->
  nb <> 0%nat -> (N mod nb = 0)%nat ->
  classifier_score (mkTensor dt (N :: rest) data) f' nb
  = classifier_score (mkTensor dt (N :: rest) data) f nb.
Proof.
  intros Hlen Hf Hf' Hnb Hmod.
  rewrite (@classifier_score_per_image dt N rest data f D _ nb Hlen Hf Hnb Hmod).
  rewrite (@classifier_score_per_image dt N rest data f' D _ nb Hlen Hf' Hnb Hmod).
  do 2 f_equal.
  apply (@score_formula_shift _ _
           (fun i => c (nth i (slices (mkTensor dt (N :: rest) data)) []))).
  intros i j Hi Hj; unfold logit_of.
  rewrite (nth_indep _ 0 (0 + c (nth i (slices (mkTensor dt (N :: rest) data)) [])))
    by (rewrite length_map, (proj1 Hf); exact Hj).
  rewrite (map_nth (fun v => v + c (nth i (slices (mkTensor dt (N :: rest) data)) []))).
  reflexivity.
Qed.

(** X18. For [p = softmax(p_logits)] and positive weights [q] of total
    at most 1, every divergence that [_kl_divergence] returns is
    non-negative (the inequality of Gibbs). *)
Theorem kl_divergence_nonneg (lg q : tensor) (N D : nat) :
  is_floating (t_dtype lg) = true -> t_dtype q = t_dtype lg ->
  t_shape lg = [N; D] -> t_shape q = [D] ->
  (forall j, (j < D)%nat -> 0 < entry1 q j) ->
  sum_n D (entry1 q) <= 1 ->
  exists kl,
    _kl_divergence (softmax lg) lg q = Ok kl /\
    t_shape kl = [N] /\
    forall i, (i < N)%nat -> 0 <= entry1 kl i.
Proof.
  intros Hf Hdq Hl Hq Hpos Hsum.
  assert (Hp : softmax lg = tabulate2 (t_dtype lg) N D (softmax_of (entry2 lg) D))
    by (unfold softmax, dim0, dim1; rewrite Hl; reflexivity).
  rewrite Hp.
  rewrite (@kl_divergence_same_shape _ lg q N D) by (try reflexivity; assumption).
  eexists; split; [reflexivity | split; [reflexivity |]].
  intros i Hi; rewrite entry1_tabulate1 by exact Hi.
  destruct D as [| D'].
  - unfold kl_row; simpl; lra.
  - rewrite (@kl_row_ext _ (softmax_of (entry2 lg) (S D')) _ (entry2 lg) _ (entry1 q)).
    + apply kl_row_nonneg; [lia | assumption | assumption].
    + intros j Hj; apply entry2_tabulate2; assumption.
    + reflexivity.
    + reflexivity.
Qed.

End FurtherScoreProperties.

(** ** Matrix square roots and the Frechet distance *)

Section FurtherRootProperties.

Import gan_metrics.

Variable n : nat.
Variable svd : nat -> mat -> vec * mat * mat.

Local Notation "A == B" := (meq n A B) (at level 70).
Local Notation "A ** B" := (matmul n A B) (at level 40, left associativity).
Local Notation "A ^T" := (transpose A) (at level 1, format "A ^T").

(** X19. A matrix all of whose singular values are below [eps] is
    returned as it is by [_symmetric_matrix_square_root], not
    square-rooted. *)
Theorem square_root_returns_small_matrix (M : mat) (eps : R) :
  svd_spec n M (svd n M) ->
  (forall i, (i < n)%nat -> s_of (svd n M) i < eps) ->
  _symmetric_matrix_square_root svd n M eps == M.
Proof.
  intros Hsvd Hsmall.
  destruct (@svd_spec_parts n svd M Hsvd) as (_ & _ & _ & HM).
  rewrite square_root_unfold.
  rewrite (@diag_ext n (guarded_sqrt eps (s_of (svd n M))) (s_of (svd n M))).
  - symmetry; exact HM.
  - intros i Hi; apply (proj1 (guarded_sqrt_cases eps _ i)), Hsmall, Hi.
Qed.

(** A symmetric positive semi-definite square root of [u diag(d)^2 u^T]
    is [u diag(d) u^T]. *)
Lemma psd_root_unique (P X u : mat) (d : vec) :
  spd_form n P u d ->
  symmetric n X -> psd n X -> X ** X == P ** P ->
  X == P.
Proof.
  intros (Hu & Hd & HP) HXs HXp HXX.
  set (Y := u^T ** (X ** u)).
  assert (HYs : symmetric n Y).
  { unfold symmetric, Y.
    rewrite !transpose_matmul, transpose_involutive, matmul_assoc.
    red in HXs; rewrite HXs; reflexivity. }
  assert (HYp : psd n Y) by (intros y; unfold Y; rewrite qform_conjugate; apply HXp).
  assert (HYY : Y ** Y == diag (fun i => d i * d i)).
  { unfold Y.
    assert (H1 : u^T ** (X ** u) ** (u^T ** (X ** u))
                 == u^T ** (X ** (u ** u^T) ** X ** u))
      by (rewrite !matmul_assoc; reflexivity).
    rewrite H1, (proj2 Hu), matmul_id_r, HXX, HP.
    assert (H2 : u^T ** (u ** diag d ** u^T ** (u ** diag d ** u^T) ** u)
                 == (u^T ** u) ** diag d ** (u^T ** u) ** diag d ** (u^T ** u))
      by (rewrite !matmul_assoc; reflexivity).
    rewrite H2, (proj1 Hu), !matmul_id_r, matmul_id_l.
    apply diag_squared. }
  assert (HY : Y == diag d).
  { apply diagonal_root_unique; try assumption.
    intros i Hi; left; apply Hd, Hi. }
  assert (HX : X == u ** Y ** u^T).
  { unfold Y.
    assert (H : u ** (u^T ** (X ** u)) ** u^T == (u ** u^T) ** X ** (u ** u^T))
      by (rewrite !matmul_assoc; reflexivity).
    rewrite H, (proj2 Hu), matmul_id_l, matmul_id_r; reflexivity. }
  rewrite HX, HY; symmetry; exact HP.
Qed.

(** The root of a matrix with eigenvalues bounded away from zero is its
    only symmetric positive semi-definite square root. *)
Lemma square_root_principal (M : mat) (eps c : R) :
  0 < eps -> eps <= c ->
  symmetric n M -> eigenvalues_at_least n M c ->
  svd_spec n M (svd n M) ->
  symmetric n (_symmetric_matrix_square_root svd n M eps) /\
  psd n (_symmetric_matrix_square_root svd n M eps) /\
  forall X, symmetric n X -> psd n X -> X ** X == M ->
            X == _symmetric_matrix_square_root svd n M eps.
Proof.
  intros Heps Hc Hsym Heig Hsvd.
  destruct (@square_root_spd_form n svd M eps c Heps Hc Hsym Heig Hsvd)
    as [Hform Hsq].
  pose proof Hform as (Hu & Hd & HP).
  split; [| split].
  - apply (symmetric_meq HP), conjugate_diag_symmetric.
  - intros x; rewrite HP; apply conjugate_diag_psd.
    intros i Hi; left; apply Hd, Hi.
  - intros X HXs HXp HXX.
    apply (psd_root_unique Hform HXs HXp).
    rewrite HXX; symmetry; exact Hsq.
Qed.

(** X20. For a symmetric matrix with eigenvalues at least [c >= eps > 0]
    the matrix returned by [_symmetric_matrix_square_root] is the principal
    square root: it is symmetric and positive semi-definite, and every
    symmetric positive semi-definite [X] with [X X = M] equals it. *)
Theorem square_root_is_principal (M : mat) (eps c : R) :
  0 < eps -> eps <= c ->
  symmetric n M -> eigenvalues_at_least n M c ->
  svd_spec n M (svd n M) ->
  symmetric n (_symmetric_matrix_square_root svd n M eps) /\
  psd n (_symmetric_matrix_square_root svd n M eps) /\
  forall X, symmetric n X -> psd n X -> X ** X == M ->
            X == _symmetric_matrix_square_root svd n M eps.
Proof. apply square_root_principal. Qed.

(** For a matrix with eigenvalues bounded away from zero, the trace of
    the root of the product with itself is its trace. *)
Lemma trace_sqrt_product_same (S : mat) (a : R) :
  (forall M, symmetric n M -> svd_spec n M (svd n M)) ->
  symmetric n S -> eigenvalues_at_least n S a ->
  default_eps <= a -> default_eps <= a * a ->
  trace_sqrt_product svd n S S = tf_trace n S.
Proof.
  intros svd_ok HS HSa Ha Haa.
  pose proof (proj1 default_eps_bounds) as Heps.
  destruct (@square_root_spd_form n svd S default_eps a Heps Ha HS HSa (svd_ok S HS))
    as [HAform HAA].
  set (A := _symmetric_matrix_square_root svd n S default_eps) in *.
  assert (HAsym : symmetric n A)
    by (apply (symmetric_meq (proj2 (proj2 HAform))), conjugate_diag_symmetric).
  set (G := A ** (S ** A)).
  assert (HGsym : symmetric n G) by (apply conjugated_symmetric; assumption).
  assert (HGeig : eigenvalues_at_least n G (a * a))
    by (apply (@conjugated_eigenvalues n A S S a a); try assumption; lra).
  assert (HGS : G == S ** S).
  { unfold G.
    assert (H1 : A ** (S ** A) == A ** ((A ** A) ** A)) by (rewrite HAA; reflexivity).
    assert (H2 : A ** ((A ** A) ** A) == (A ** A) ** (A ** A))
      by (rewrite !matmul_assoc; reflexivity).
    rewrite H1, H2, HAA; reflexivity. }
  destruct (@square_root_principal G default_eps (a * a) Heps Haa HGsym HGeig
              (svd_ok G HGsym)) as (_ & _ & Huniq).
  unfold trace_sqrt_product; fold A; fold G.
  rewrite <- (Huniq S HS); [reflexivity | | symmetry; exact HGS].
  apply (@eigenvalues_psd n S a); [lra | exact HSa].
Qed.


(** The inequality of Cauchy and Schwarz for the entries of two matrices. *)
Lemma frobenius_inequality (X Y : mat) :
  2 * tf_trace n (X^T ** Y) <= tf_trace n (X^T ** X) + tf_trace n (Y^T ** Y).
Proof.
  unfold tf_trace, matmul, transpose; cbv beta.
  assert (H : 0 <= sum_n n (fun i => sum_n n (fun k => (X k i - Y k i) * (X k i - Y k i)))).
  { apply sum_n_nonneg; intros i _; apply sum_n_nonneg; intros k _.
    exact (Rle_0_sqr (X k i - Y k i)). }
  rewrite (@sum_n_ext n _
             (fun i => sum_n n (fun k => X k i * X k i) + sum_n n (fun k => Y k i * Y k i)
                       - 2 * sum_n n (fun k => X k i * Y k i))) in H.
  - rewrite sum_n_minus, sum_n_plus, sum_n_scal_l in H; lra.
  - intros i _; rewrite <- sum_n_scal_l, <- sum_n_plus, <- sum_n_minus.
    apply sum_n_ext; intros k _; ring.
Qed.

(** Twice the trace that [trace_sqrt_product] returns is at most the sum
    of the traces of the two matrices. *)
Lemma trace_sqrt_product_le (S S_v : mat) (a b : R) :
  (forall M, symmetric n M -> svd_spec n M (svd n M)) ->
  symmetric n S -> symmetric n S_v ->
  eigenvalues_at_least n S a -> eigenvalues_at_least n S_v b ->
  default_eps <= a -> default_eps <= b -> default_eps <= a * b ->
  2 * trace_sqrt_product svd n S S_v <= tf_trace n S + tf_trace n S_v.
Proof.
  intros svd_ok HS HSv HSa HSvb Ha Hb Hab.
  pose proof (proj1 default_eps_bounds) as Heps.
  destruct (@square_root_spd_form n svd S default_eps a Heps Ha HS HSa (svd_ok S HS))
    as [HAform HAA].
  destruct (@square_root_spd_form n svd S_v default_eps b Heps Hb HSv HSvb (svd_ok S_v HSv))
    as [HBform HBB].
  set (A := _symmetric_matrix_square_root svd n S default_eps) in *.
  set (B := _symmetric_matrix_square_root svd n S_v default_eps) in *.
  assert (HAsym : A^T == A)
    by (apply (symmetric_meq (proj2 (proj2 HAform))), conjugate_diag_symmetric).
  assert (HBsym : B^T == B)
    by (apply (symmetric_meq (proj2 (proj2 HBform))), conjugate_diag_symmetric).
  set (G := A ** (S_v ** A)).
  assert (HGsym : symmetric n G) by (apply conjugated_symmetric; assumption).
  assert (HGeig : eigenvalues_at_least n G (a * b))
    by (apply (@conjugated_eigenvalues n A S S_v a b); try assumption; lra).
  destruct (@square_root_spd_form n svd G default_eps (a * b) Heps Hab HGsym HGeig
              (svd_ok G HGsym)) as [HPform HPP].
  unfold trace_sqrt_product; fold A; fold G.
  set (P := _symmetric_matrix_square_root svd n G default_eps) in *.
  pose proof (Pinv_right HPform) as Hr.
  pose proof (Pinv_left HPform) as Hl.
  set (Pinv := u_of (svd n G) ** diag (fun i => / sqrt (s_of (svd n G) i))
               ** (u_of (svd n G))^T) in *.
  assert (HPinvsym : Pinv^T == Pinv) by apply conjugate_diag_symmetric.
  set (Y := B ** (A ** (Pinv ** A))).
  assert (HYT : Y^T == A ** Pinv ** A ** B).
  { unfold Y; rewrite !transpose_matmul, HAsym, HBsym, HPinvsym.
    rewrite !matmul_assoc; reflexivity. }
  assert (HXX : B^T ** B == S_v) by (rewrite HBsym; exact HBB).
  assert (HXY : tf_trace n (B^T ** Y) = tf_trace n P).
  { assert (H1 : B^T ** Y == (S_v ** A ** Pinv) ** A).
    { unfold Y; rewrite HBsym, <- HBB, !matmul_assoc; reflexivity. }
    rewrite H1, trace_cyclic.
    assert (H2 : A ** (S_v ** A ** Pinv) == P ** (P ** Pinv)).
    { assert (H3 : A ** (S_v ** A ** Pinv) == G ** Pinv)
        by (unfold G; rewrite !matmul_assoc; reflexivity).
      rewrite H3, <- HPP, !matmul_assoc; reflexivity. }
    rewrite H2, Hr, matmul_id_r; reflexivity. }
  assert (HYY : Y^T ** Y == S).
  { assert (H1 : Y^T ** Y == A ** Pinv ** G ** Pinv ** A).
    { rewrite HYT; unfold Y, G; rewrite <- HBB, !matmul_assoc; reflexivity. }
    assert (H2 : A ** Pinv ** G ** Pinv ** A == A ** (Pinv ** P) ** (P ** Pinv) ** A)
      by (rewrite <- HPP, !matmul_assoc; reflexivity).
    rewrite H1, H2, Hl, Hr, !matmul_id_r; exact HAA. }
  pose proof (frobenius_inequality B Y) as H.
  rewrite HXY, HXX, HYY in H; lra.
Qed.

(** X21. The covariance matrices that [frechet_classifier_distance]
    passes to [trace_sqrt_product], computed from [N >= 2] rows of
    activations, are symmetric and positive semi-definite, as
    [trace_sqrt_product] requires. *)
Theorem covariance_symmetric_psd (N : nat) (X : mat) :
  (2 <= N)%nat ->
  symmetric n
    (mscale (matmul_ta N (centered X (reduce_mean_rows N X))
                         (centered X (reduce_mean_rows N X))) (INR N - 1)) /\
  psd n
    (mscale (matmul_ta N (centered X (reduce_mean_rows N X))
                         (centered X (reduce_mean_rows N X))) (INR N - 1)).
Proof.
  intros HN; split.
  - intros j k _ _; unfold transpose, mscale, matmul_ta; f_equal.
    apply sum_n_ext; intros i _; ring.
  - intros x; rewrite covariance_qform.
    assert (Hc : 0 < INR N - 1).
    { apply le_INR in HN; simpl in HN; lra. }
    apply Rmult_le_pos; [| left; apply Rinv_0_lt_compat; exact Hc].
    apply sum_n_nonneg; intros i _; apply Rle_0_sqr.
Qed.

(** X22. With the eigenvalues of both matrices and of their products
    bounded below by [eps], [trace_sqrt_product] returns what its
    docstring says: the trace of a square root [X] of [sigma sigma_v] whose
    eigenvalues are positive ([X] is similar to a positive definite
    matrix). *)
Theorem trace_sqrt_product_is_trace_of_root (S S_v : mat) (a b : R) :
  (forall M, symmetric n M -> svd_spec n M (svd n M)) ->
  symmetric n S -> symmetric n S_v ->
  eigenvalues_at_least n S a -> eigenvalues_at_least n S_v b ->
  default_eps <= a -> default_eps <= b -> default_eps <= a * b ->
  exists X,
    X ** X == S ** S_v /\
    similar_to_spd n X /\
    trace_sqrt_product svd n S S_v = tf_trace n X.
Proof.
  intros svd_ok HS HSv HSa HSvb Ha Hb Hab.
  pose proof (proj1 default_eps_bounds) as Heps.
  destruct (@square_root_spd_form n svd S default_eps a Heps Ha HS HSa (svd_ok S HS))
    as [HAform HAA].
  set (A := _symmetric_matrix_square_root svd n S default_eps) in *.
  assert (HAsym : symmetric n A)
    by (apply (symmetric_meq (proj2 (proj2 HAform))), conjugate_diag_symmetric).
  set (G := A ** (S_v ** A)).
  assert (HGsym : symmetric n G) by (apply conjugated_symmetric; assumption).
  assert (HGeig : eigenvalues_at_least n G (a * b))
    by (apply (@conjugated_eigenvalues n A S S_v a b); try assumption; lra).
  destruct (@square_root_spd_form n svd G default_eps (a * b) Heps Hab HGsym HGeig
              (svd_ok G HGsym)) as [HPform HPP].
  unfold trace_sqrt_product; fold A; fold G.
  set (P := _symmetric_matrix_square_root svd n G default_eps) in *.
  pose proof (Pinv_right HAform) as Hr.
  pose proof (Pinv_left HAform) as Hl.
  set (Ainv := u_of (svd n S) ** diag (fun i => / sqrt (s_of (svd n S) i))
               ** (u_of (svd n S))^T) in *.
  exists (A ** P ** Ainv); split; [| split].
  - assert (H1 : A ** P ** Ainv ** (A ** P ** Ainv) == A ** P ** (Ainv ** A) ** P ** Ainv)
      by (rewrite !matmul_assoc; reflexivity).
    assert (H2 : A ** P ** P ** Ainv == A ** (P ** P) ** Ainv)
      by (rewrite !matmul_assoc; reflexivity).
    assert (H3 : A ** (A ** (S_v ** A)) ** Ainv == (A ** A) ** S_v ** (A ** Ainv))
      by (rewrite !matmul_assoc; reflexivity).
    rewrite H1, Hl, matmul_id_r, H2, HPP; unfold G.
    rewrite H3, HAA, Hr, matmul_id_r; reflexivity.
  - exists A, Ainv, P, (u_of (svd n G)), (fun i => sqrt (s_of (svd n G) i)).
    repeat split; try assumption; try apply HPform; reflexivity.
  - rewrite matmul_assoc, trace_cyclic, matmul_assoc, Hl, matmul_id_r; reflexivity.
Qed.

End FurtherRootProperties.

Section FurtherFrechetProperties.

Import gan_metrics.

Variable svd : nat -> mat -> vec * mat * mat.

Lemma frechet_formula_nonneg (D : nat) (m m_v : vec) (S S_v : mat) (a b : R) :
  (forall M, symmetric D M -> svd_spec D M (svd D M)) ->
  symmetric D S -> symmetric D S_v ->
  eigenvalues_at_least D S a -> eigenvalues_at_least D S_v b ->
  default_eps <= a -> default_eps <= b -> default_eps <= a * b ->
  0 <= frechet_formula svd D m m_v S S_v.
Proof.
  intros Hsvd HS HSv Ha Hb Hea Heb Heab; unfold frechet_formula.
  pose proof (@trace_sqrt_product_le D svd S S_v a b Hsvd HS HSv Ha Hb Hea Heb Heab) as H.
  assert (Ht : tf_trace D (madd S S_v) = tf_trace D S + tf_trace D S_v)
    by (unfold tf_trace, madd; apply sum_n_plus).
  assert (Hm : 0 <= sum_n D (fun j => (m j - m_v j) * (m j - m_v j)))
    by (apply sum_n_nonneg; intros j _; exact (Rle_0_sqr (m j - m_v j))).
  rewrite Ht; lra.
Qed.

Lemma frechet_formula_same (D : nat) (m : vec) (S : mat) (a : R) :
  (forall M, symmetric D M -> svd_spec D M (svd D M)) ->
  symmetric D S -> eigenvalues_at_least D S a ->
  default_eps <= a -> default_eps <= a * a ->
  frechet_formula svd D m m S S = 0.
Proof.
  intros Hsvd HS Ha Hea Heaa; unfold frechet_formula.
  rewrite (@trace_sqrt_product_same D svd S a) by assumption.
  assert (Ht : tf_trace D (madd S S) = tf_trace D S + tf_trace D S)
    by (unfold tf_trace, madd; apply sum_n_plus).
  rewrite Ht, (@sum_n_ext D _ (fun _ => 0)) by (intros; ring).
  rewrite sum_n_zero; ring.
Qed.

(** X23. The distance of an image set to itself is 0, when the
    eigenvalues of its activation covariance are at least [a] with [a] and
    [a * a] no smaller than [eps]. *)
Theorem frechet_distance_to_itself
    (dt : dtype) (N : nat) (rest : list nat) (data : list R)
    (f : tensor -> result tensor) (nb m D : nat)
    (outs : list tensor) (a : R) :
  (forall M, symmetric D M -> svd_spec D M (svd D M)) ->
  length data = (N * prod_shape rest)%nat ->
  nb <> 0%nat -> (N mod nb = 0)%nat ->
  mapM f (batches (mkTensor dt (N :: rest) data) nb) = Ok outs ->
  Forall (fun o => t_dtype o = dt /\ t_shape o = [m; D] /\ wf o) outs ->
  eigenvalues_at_least D
    (sample_covariance (nb * m) (entry2 (joined dt [m; D] nb outs))) a ->
  default_eps <= a -> default_eps <= a * a ->
  frechet_classifier_distance svd (mkTensor dt (N :: rest) data)
    (mkTensor dt (N :: rest) data) f nb = Ok (cast_back dt 0).
Proof.
  intros Hsvd Hl Hnb Hmod Hf Hall Ha Hea Heaa.
  rewrite frechet_steps.
  rewrite (@fid_activations_ok dt N rest data data f nb [m; D] outs outs)
    by (try assumption; try discriminate; apply Forall_app; split; assumption).
  cbn [bind fst snd].
  rewrite !(@fid_of_tensors_ok svd dt (nb * m) D) by reflexivity.
  do 2 f_equal.
  apply (@frechet_formula_same D _ _ a); try assumption.
  apply sample_covariance_symmetric.
Qed.

(** X24. The distance is never negative, when the eigenvalues of the two
    activation covariances are at least [a] and [b] with [a], [b] and
    [a * b] no smaller than [eps]. *)
Theorem frechet_distance_nonneg
    (dt : dtype) (N : nat) (rest : list nat) (data_a data_b : list R)
    (f : tensor -> result tensor) (nb m D : nat)
    (outs_a outs_b : list tensor) (a b : R) :
  (forall M, symmetric D M -> svd_spec D M (svd D M)) ->
  length data_a = (N * prod_shape rest)%nat ->
  length data_b = (N * prod_shape rest)%nat ->
  nb <> 0%nat -> (N mod nb = 0)%nat ->
  mapM f (batches (mkTensor dt (N :: rest) data_a) nb) = Ok outs_a ->
  mapM f (batches (mkTensor dt (N :: rest) data_b) nb) = Ok outs_b ->
  Forall (fun o => t_dtype o = dt /\ t_shape o = [m; D] /\ wf o) (outs_a ++ outs_b) ->
  eigenvalues_at_least D
    (sample_covariance (nb * m) (entry2 (joined dt [m; D] nb outs_a))) a ->
  eigenvalues_at_least D
    (sample_covariance (nb * m) (entry2 (joined dt [m; D] nb outs_b))) b ->
  default_eps <= a -> default_eps <= b -> default_eps <= a * b ->
  exists v,
    frechet_classifier_distance svd (mkTensor dt (N :: rest) data_a)
      (mkTensor dt (N :: rest) data_b) f nb = Ok (cast_back dt v) /\
    0 <= v.
Proof.
  intros Hsvd Hla Hlb Hnb Hmod Hfa Hfb Hall Ha Hb Hea Heb Heab.
  rewrite frechet_steps.
  rewrite (@fid_activations_ok dt N rest data_a data_b f nb [m; D] outs_a outs_b)
    by (try assumption; discriminate).
  cbn [bind fst snd].
  rewrite !(@fid_of_tensors_ok svd dt (nb * m) D) by reflexivity.
  eexists; split; [reflexivity |].
  apply (@frechet_formula_nonneg D _ _ _ _ a b); try assumption;
    apply sample_covariance_symmetric.
Qed.

End FurtherFrechetProperties.

(** ** The range of preprocess_image *)

Section FurtherPreprocessProperties.

Import gan_metrics.

Lemma interpolation_bounds (lo hi a b t : R) :
  lo <= a <= hi -> lo <= b <= hi -> 0 <= t <= 1 ->
  lo <= a + (b - a) * t <= hi.
Proof. intros Ha Hb Ht; split; nra. Qed.

Lemma fraction_bounds (k width : nat) :
  (0 < width)%nat -> 0 <= INR (k mod width) / INR width <= 1.
Proof.
  intros Hw.
  assert (Hwr : 0 < INR width) by (apply lt_0_INR; exact Hw).
  assert (Hk : INR (k mod width) <= INR width)
    by (apply le_INR; pose proof (Nat.mod_upper_bound k width); lia).
  pose proof (pos_INR (k mod width)) as H0.
  split.
  - apply Rmult_le_pos; [exact H0 | left; apply Rinv_0_lt_compat; exact Hwr].
  - apply (Rmult_le_reg_r (INR width)); [exact Hwr |].
    unfold Rdiv; rewrite Rmult_assoc, Rinv_l by lra; lra.
Qed.

Lemma bilinear_pixel_bounds (img : nat -> nat -> R) (h w height width y x : nat)
    (lo hi : R) :
  (0 < height)%nat -> (0 < width)%nat ->
  (forall i j, lo <= img i j <= hi) ->
  lo <= bilinear_pixel img h w height width y x <= hi.
Proof.
  intros Hh Hw Himg; unfold bilinear_pixel.
  apply interpolation_bounds; [| | apply fraction_bounds; exact Hh];
    apply interpolation_bounds; try apply Himg; apply fraction_bounds; exact Hw.
Qed.

Lemma bilinear_resize_keeps_range : resize_keeps_range bilinear_resize.
Proof.
  intros t out height width lo hi Hwf Hr Hall.
  unfold bilinear_resize in Hr.
  destruct (t_shape t) as [| b [| h [| w [| c [| z sh]]]]] eqn:Hs; try discriminate Hr.
  destruct ((h =? 0) || (w =? 0))%nat eqn:Hz; [discriminate Hr |].
  inversion Hr; subst out; clear Hr; cbn [t_data].
  apply orb_false_iff in Hz; destruct Hz as [Hh Hw].
  apply Nat.eqb_neq in Hh; apply Nat.eqb_neq in Hw.
  unfold wf in Hwf; rewrite Hs in Hwf; cbn [prod_shape fold_right] in Hwf.
  apply Forall_flat_map, Forall_forall; intros n Hn.
  apply Forall_flat_map, Forall_forall; intros y Hy.
  apply Forall_flat_map, Forall_forall; intros x Hx.
  apply Forall_map, Forall_forall; intros ch Hch.
  apply in_seq in Hn; apply in_seq in Hy; apply in_seq in Hx; apply in_seq in Hch.
  assert (Hne : t_data t <> []).
  { intros E; rewrite E in Hwf; simpl in Hwf.
    assert (0 < b * (h * (w * (c * 1))))%nat by (repeat apply Nat.mul_pos_pos; lia).
    lia. }
  apply bilinear_pixel_bounds; [lia | lia |].
  intros i j.
  destruct (nth_in_or_default (((n * h + i) * w + j) * c + ch) (t_data t) (hd 0 (t_data t)))
    as [Hin | Hd].
  - exact (proj1 (Forall_forall _ _) Hall _ Hin).
  - rewrite Hd; destruct (t_data t) as [| v data]; [congruence |].
    exact (proj1 (Forall_forall _ _) Hall v (or_introl eq_refl)).
Qed.

Variable resize_bilinear : tensor -> nat -> nat -> result tensor.
Hypothesis resize_range : resize_keeps_range resize_bilinear.

(** X25. [preprocess_image] maps pixel values in [0, 255] into
    [-1, 127/128], inside the [-1, 1] of its docstring, for a single image
    and for a batch, whatever the requested size. *)
Theorem preprocess_image_range (images out : tensor) (height width : nat) :
  wf images ->
  Forall (fun x => 0 <= x <= 255) (t_data images) ->
  preprocess_image resize_bilinear images height width = Ok out ->
  Forall (fun x => -1 <= x <= 127 / 128) (t_data out).
Proof.
  intros Hwf Hall; unfold preprocess_image.
  set (cast := if negb (is_floating (t_dtype images))
               then tf_cast float32 images else images).
  assert (Hc : t_shape cast = t_shape images /\ t_data cast = t_data images)
    by (unfold cast; destruct (negb (is_floating (t_dtype images))); split; reflexivity).
  destruct Hc as [Hcs Hcd].
  set (batch := if (rank images =? 3)%nat then expand_dims0 cast else cast).
  assert (Hb : wf batch /\ t_data batch = t_data images).
  { assert (Hcw : wf cast) by (unfold wf; rewrite Hcs, Hcd; exact Hwf).
    unfold batch; destruct (rank images =? 3)%nat; [| split; assumption].
    split; [| exact Hcd].
    unfold wf, expand_dims0 in *; cbn [t_shape t_data]; rewrite Hcw.
    cbn [prod_shape fold_right]; fold (prod_shape (t_shape cast)); lia. }
  destruct Hb as [Hbw Hbd].
  destruct (resize_bilinear batch height width) as [resized | e] eqn:Hr;
    [| discriminate]; cbn [bind].
  assert (Hres : Forall (fun x => 0 <= x <= 255) (t_data resized)).
  { apply (resize_range Hbw Hr); rewrite Hbd; exact Hall. }
  assert (Hmap : Forall (fun x => -1 <= x <= 127 / 128)
                   (map (fun x => (x - 128) / 128) (t_data resized))).
  { apply Forall_map; revert Hres; apply Forall_impl; intros x Hx; lra. }
  destruct (rank images =? 3)%nat.
  - unfold squeeze0, tmap; cbn [t_shape t_dtype t_data].
    destruct (t_shape resized) as [| [| [| k]] s]; try discriminate.
    intros H; inversion H; exact Hmap.
  - intros H; inversion H; exact Hmap.
Qed.

End FurtherPreprocessProperties.

(** ** Worked instances *)

Lemma ensemble_predict_member_error_witness :
  prediction.EnsemblePredictor_predict exact_conversion
    [member_a; failing_member; member_b] tt "median"
  = Err ShapeMismatch.
Proof.
  apply (@ensemble_predict_member_error unit exact_conversion [member_a] [member_b]
           failing_member tt "median" ShapeMismatch).
  - repeat constructor; eexists; reflexivity.
  - reflexivity.
Defined.

Lemma ensemble_predict_shape_mismatch_witness :
  prediction.EnsemblePredictor_predict exact_conversion [member_a; wide_member] tt "mean"
  = Err ShapeMismatch.
Proof.
  apply (@ensemble_predict_shape_mismatch unit exact_conversion
           [member_a; wide_member] tt "mean"
           (mkTensor float64 [2%nat] [1; 3]) (mkTensor float64 [3%nat] [1; 3; 5])
           [mkTensor float64 [3%nat] [1; 3; 5]]).
  - reflexivity.
  - left; reflexivity.
  - discriminate.
Defined.

Lemma ensemble_mean_within_bounds_witness :
  exists r,
    prediction.EnsemblePredictor_predict exact_conversion [member_a; member_b] tt "mean"
      = Ok (prediction.of_tensor r) /\
    t_shape r = [2%nat] /\
    forall j, (j < prod_shape [2%nat])%nat -> 1 <= nth j (t_data r) 0 <= 5.
Proof.
  apply (@ensemble_mean_within_bounds unit exact_conversion [member_a; member_b] tt
           [mkTensor float64 [2%nat] [1; 3]; mkTensor uint8 [2%nat] [3; 5]]
           [2%nat] 1 5).
  - reflexivity.
  - discriminate.
  - repeat constructor.
  - repeat constructor; unfold exact_conversion; simpl; lra.
Defined.

Lemma ensemble_gmean_le_mean_witness :
  exists r_mean r_gmean,
    prediction.EnsemblePredictor_predict exact_conversion [member_a; member_b] tt "mean"
      = Ok (prediction.of_tensor r_mean) /\
    prediction.EnsemblePredictor_predict exact_conversion [member_a; member_b] tt "gmean"
      = Ok (prediction.of_tensor r_gmean) /\
    forall j, (j < prod_shape [2%nat])%nat ->
      0 < nth j (t_data r_gmean) 0 <= nth j (t_data r_mean) 0.
Proof.
  apply (@ensemble_gmean_le_mean unit exact_conversion [member_a; member_b] tt
           [mkTensor float64 [2%nat] [1; 3]; mkTensor uint8 [2%nat] [3; 5]] [2%nat]).
  - reflexivity.
  - discriminate.
  - repeat constructor.
  - repeat constructor; unfold exact_conversion; simpl; lra.
Defined.

Lemma log_mean_counts_zero_as_one_witness :
  Forall (fun v => exists r, v = prediction.Finite r)
    (prediction.a_data
       (prediction.np_log
          (prediction.add_eq0_mask (mkTensor float32 [2%nat; 1%nat] [0; 4])))).
Proof.
  apply (proj2 (log_mean_counts_zero_as_one (mkTensor float32 [2%nat; 1%nat] [0; 4]))).
  repeat constructor; simpl; lra.
Defined.

Lemma gmean_is_exp_of_log_mean_witness :
  exists r,
    prediction._ensemble "log_mean" (mkTensor float32 [2%nat; 1%nat] [1; 4]) = Ok r /\
    prediction._ensemble "gmean" (mkTensor float32 [2%nat; 1%nat] [1; 4])
    = Ok (prediction.np_exp r).
Proof.
  apply (@gmean_is_exp_of_log_mean (mkTensor float32 [2%nat; 1%nat] [1; 4])).
  repeat constructor; simpl; lra.
Defined.

Lemma crop_predictor_averages_boxes_witness :
  exists m,
    prediction.CropPredictor_real_predict exact_conversion two_boxes tt
      = Ok (prediction.PyArray (prediction.of_tensor m)) /\
    t_shape m = [1%nat; 2%nat] /\
    forall j, (j < prod_shape [1%nat; 2%nat])%nat ->
      nth j (t_data m) 0
      = mean (member_column j [mkTensor float32 [1%nat; 2%nat] [0; 1 - 0];
                               mkTensor float32 [1%nat; 2%nat] [1; 1 - 1]]).
Proof.
  apply (@crop_predictor_averages_boxes unit unit R R exact_conversion two_boxes tt
           [mkTensor float32 [1%nat; 2%nat] [0; 1 - 0];
            mkTensor float32 [1%nat; 2%nat] [1; 1 - 1]] [1%nat; 2%nat]).
  - reflexivity.
  - reflexivity.
  - discriminate.
  - repeat constructor.
Defined.

Lemma inception_score_needs_299_witness :
  gan_metrics.inception_score pooling_graph (fun _ => Ok tt) small_images 1
  = Err ShapeMismatch.
Proof.
  apply (@inception_score_needs_299 unit pooling_graph (fun _ => Ok tt)
           float32 2 32 32 3 (repeat 0 (2 * 32 * 32 * 3)) 1).
  - discriminate.
  - reflexivity.
  - left; lia.
Defined.

Lemma frechet_inception_distance_needs_299_witness :
  gan_metrics.frechet_inception_distance pooling_graph (fun _ => Ok tt) svd_1x1
    small_images small_images 1
  = Err ShapeMismatch.
Proof.
  apply (@frechet_inception_distance_needs_299 unit pooling_graph (fun _ => Ok tt)
           svd_1x1 float32 2 32 32 3
           (repeat 0 (2 * 32 * 32 * 3)) (repeat 0 (2 * 32 * 32 * 3)) 1).
  - discriminate.
  - reflexivity.
  - left; lia.
Defined.

Lemma split_count_must_divide_witness :
  gan_metrics.classifier_score four_images first_pixel_classifier 3
    = Err (NotDivisible 4 3) /\
  gan_metrics.frechet_classifier_distance svd_1x1 four_images four_images
    first_pixel_classifier 3 = Err (NotDivisible 4 3) /\
  error_category (NotDivisible 4 3) = ShapeError.
Proof.
  apply (@split_count_must_divide svd_1x1 four_images four_images 4
           [1%nat; 1%nat; 1%nat] first_pixel_classifier 3).
  - reflexivity.
  - right; discriminate.
Defined.

Lemma frechet_distance_needs_equal_shapes_witness :
  gan_metrics.frechet_classifier_distance svd_1x1 two_images four_images
    first_pixel_classifier 2 = Err ShapeMismatch.
Proof.
  apply (@frechet_distance_needs_equal_shapes svd_1x1 float64 float64 2 4
           [1%nat; 1%nat; 1%nat] [1%nat; 1%nat; 1%nat]
           [2 * ln 3; 0] [1; 2; 3; 4] first_pixel_classifier 2).
  - discriminate.
  - reflexivity.
  - reflexivity.
  - discriminate.
Defined.

Lemma classifier_score_needs_image_dtype_witness :
  gan_metrics.classifier_score four_images integer_classifier 2 = Err DtypeMismatch.
Proof.
  apply (@classifier_score_needs_image_dtype float64 4 [1%nat; 1%nat; 1%nat]
           [1; 2; 3; 4] integer_classifier 2
           [mkTensor int32 [2%nat; 1%nat] [1; 2]; mkTensor int32 [2%nat; 1%nat] [3; 4]]
           (mkTensor int32 [2%nat; 1%nat] [1; 2])).
  - reflexivity.
  - discriminate.
  - reflexivity.
  - reflexivity.
  - left; reflexivity.
  - discriminate.
Defined.

Lemma classifier_score_shift_invariant_witness :
  gan_metrics.classifier_score four_images shifted_pixel_classifier 2
  = gan_metrics.classifier_score four_images first_pixel_classifier 2.
Proof.
  apply (@classifier_score_shift_invariant float64 4 [1%nat; 1%nat; 1%nat]
           [1; 2; 3; 4] first_pixel_classifier shifted_pixel_classifier 2
           (fun x => [hd 0 x; 0]) (fun x => hd 0 x) 2).
  - reflexivity.
  - split; intros; reflexivity.
  - split; intros; reflexivity.
  - discriminate.
  - reflexivity.
Defined.

Lemma kl_divergence_nonneg_witness :
  exists kl,
    gan_metrics._kl_divergence (gan_metrics.softmax two_rows) two_rows prior = Ok kl /\
    t_shape kl = [2%nat] /\
    forall i, (i < 2)%nat -> 0 <= entry1 kl i.
Proof.
  apply (@kl_divergence_nonneg two_rows prior 2 1).
  - reflexivity.
  - reflexivity.
  - reflexivity.
  - reflexivity.
  - intros j Hj; destruct j as [| j]; [| lia].
    unfold entry1, prior; cbn [t_data nth]; lra.
  - unfold entry1, prior; cbn [sum_n t_data nth]; lra.
Defined.

Lemma square_root_returns_small_matrix_witness :
  meq 1
    (gan_metrics._symmetric_matrix_square_root svd_1x1 1
       (constant_matrix (/ 100000000000)) gan_metrics.default_eps)
    (constant_matrix (/ 100000000000)).
Proof.
  apply (@square_root_returns_small_matrix 1 svd_1x1
           (constant_matrix (/ 100000000000)) gan_metrics.default_eps).
  - apply svd_1x1_spec.
  - intros i _; unfold s_of, svd_1x1, constant_matrix; cbn [fst].
    rewrite Rabs_right, default_eps_value by lra; lra.
Defined.

Lemma square_root_is_principal_witness :
  symmetric 1
    (gan_metrics._symmetric_matrix_square_root svd_1x1 1 (constant_matrix 4)
       gan_metrics.default_eps) /\
  psd 1
    (gan_metrics._symmetric_matrix_square_root svd_1x1 1 (constant_matrix 4)
       gan_metrics.default_eps) /\
  forall X, symmetric 1 X -> psd 1 X -> meq 1 (matmul 1 X X) (constant_matrix 4) ->
            meq 1 X
              (gan_metrics._symmetric_matrix_square_root svd_1x1 1 (constant_matrix 4)
                 gan_metrics.default_eps).
Proof.
  apply (@square_root_is_principal 1 svd_1x1 (constant_matrix 4)
           gan_metrics.default_eps 4).
  - exact (proj1 default_eps_bounds).
  - pose proof default_eps_bounds; lra.
  - apply constant_matrix_symmetric.
  - apply constant_matrix_eigenvalues; lra.
  - apply svd_1x1_spec.
Defined.

Lemma covariance_symmetric_psd_witness :
  symmetric 1
    (gan_metrics.mscale
       (gan_metrics.matmul_ta 2
          (gan_metrics.centered (entry2 (pair_activations 2))
             (gan_metrics.reduce_mean_rows 2 (entry2 (pair_activations 2))))
          (gan_metrics.centered (entry2 (pair_activations 2))
             (gan_metrics.reduce_mean_rows 2 (entry2 (pair_activations 2)))))
       (INR 2 - 1)) /\
  psd 1
    (gan_metrics.mscale
       (gan_metrics.matmul_ta 2
          (gan_metrics.centered (entry2 (pair_activations 2))
             (gan_metrics.reduce_mean_rows 2 (entry2 (pair_activations 2))))
          (gan_metrics.centered (entry2 (pair_activations 2))
             (gan_metrics.reduce_mean_rows 2 (entry2 (pair_activations 2)))))
       (INR 2 - 1)).
Proof. apply (@covariance_symmetric_psd 1 2 (entry2 (pair_activations 2))); lia. Defined.

Lemma trace_sqrt_product_is_trace_of_root_witness :
  exists X,
    meq 1 (matmul 1 X X) (matmul 1 (constant_matrix 4) (constant_matrix 9)) /\
    similar_to_spd 1 X /\
    gan_metrics.trace_sqrt_product svd_1x1 1 (constant_matrix 4) (constant_matrix 9)
    = tf_trace 1 X.
Proof.
  pose proof default_eps_bounds as Heps.
  apply (@trace_sqrt_product_is_trace_of_root 1 svd_1x1
           (constant_matrix 4) (constant_matrix 9) 4 9).
  - intros M _; apply svd_1x1_spec.
  - apply constant_matrix_symmetric.
  - apply constant_matrix_symmetric.
  - apply constant_matrix_eigenvalues; lra.
  - apply constant_matrix_eigenvalues; lra.
  - lra.
  - lra.
  - lra.
Defined.

Lemma frechet_distance_to_itself_witness :
  gan_metrics.frechet_classifier_distance svd_1x1 (pair_of_images 4)
    (pair_of_images 4) pixel_classifier 1 = Ok (cast_back float64 0).
Proof.
  pose proof default_eps_bounds as Heps.
  apply (@frechet_distance_to_itself svd_1x1 float64 2 [1%nat; 1%nat; 1%nat]
           [0; 4] pixel_classifier 1 2 1 [pair_activations 4] 8).
  - intros M _; apply svd_1x1_spec.
  - reflexivity.
  - discriminate.
  - reflexivity.
  - reflexivity.
  - repeat constructor.
  - apply eigenvalues_1x1.
    change (joined float64 [2%nat; 1%nat] 1 [pair_activations 4]) with (pair_activations 4).
    change (1 * 2)%nat with 2%nat; rewrite pair_covariance; lra.
  - lra.
  - lra.
Defined.

Lemma frechet_distance_nonneg_witness :
  exists v,
    gan_metrics.frechet_classifier_distance svd_1x1 (pair_of_images 2)
      (pair_of_images 4) pixel_classifier 1 = Ok (cast_back float64 v) /\
    0 <= v.
Proof.
  pose proof default_eps_bounds as Heps.
  apply (@frechet_distance_nonneg svd_1x1 float64 2 [1%nat; 1%nat; 1%nat]
           [0; 2] [0; 4] pixel_classifier 1 2 1
           [pair_activations 2] [pair_activations 4] 2 8).
  - intros M _; apply svd_1x1_spec.
  - reflexivity.
  - reflexivity.
  - discriminate.
  - reflexivity.
  - reflexivity.
  - reflexivity.
  - repeat constructor.
  - apply eigenvalues_1x1.
    change (joined float64 [2%nat; 1%nat] 1 [pair_activations 2]) with (pair_activations 2).
    change (1 * 2)%nat with 2%nat; rewrite pair_covariance; lra.
  - apply eigenvalues_1x1.
    change (joined float64 [2%nat; 1%nat] 1 [pair_activations 4]) with (pair_activations 4).
    change (1 * 2)%nat with 2%nat; rewrite pair_covariance; lra.
  - lra.
  - lra.
  - lra.
Defined.

Lemma preprocess_image_range_witness :
  exists out,
    gan_metrics.preprocess_image bilinear_resize
      (mkTensor uint8 [1%nat; 1%nat; 1%nat] [255]) 2 2 = Ok out /\
    Forall (fun x => -1 <= x <= 127 / 128) (t_data out).
Proof.
  eexists; split; [reflexivity |].
  apply (@preprocess_image_range bilinear_resize bilinear_resize_keeps_range
           (mkTensor uint8 [1%nat; 1%nat; 1%nat] [255]) _ 2 2).
  - reflexivity.
  - repeat constructor; lra.
  - reflexivity.
Defined.

